(** * Voice cloning engine: a shallow embedding of [voice_cloning_engine.py]

    The engine is a cascade of signal-processing stages written with numpy,
    scipy and librosa.  The embedding keeps the control flow, the guards,
    the clamps, the try/except structure and the cache handling of the
    Python source.  Numbers are modelled as IEEE-754 values without
    rounding: the special values NaN, +inf and -inf behave as in numpy,
    finite values are exact reals.  Signed zeros and overflow are not
    modelled.  The numerical kernels of librosa and scipy (pitch tracking,
    short-time Fourier transform, filter design, filtering, decoding) are
    the fields of an interface, [Lib]; numpy's elementwise arithmetic,
    reductions, the discrete Fourier transform and scipy's peak search are
    written out. *)

From Stdlib Require Import String Ascii ZArith Reals Lra Lia Bool Arith List.
Import ListNotations.
Local Open Scope R_scope.

(* ------------------------------------------------------------------ *)
(** ** Numbers                                                         *)
(* ------------------------------------------------------------------ *)

(** A numpy float: NaN, the two infinities, or a finite value. *)
Inductive fnum : Type :=
| NaN
| PInf
| NInf
| Fin (r : R).

Definition Rlt_b (a b : R) : bool := if Rlt_dec a b then true else false.
Definition Rle_b (a b : R) : bool := if Rle_dec a b then true else false.
Definition Req_b (a b : R) : bool := if Req_dec_T a b then true else false.

Definition isnan (x : fnum) : bool :=
  match x with NaN => true | _ => false end.

Definition fneg (x : fnum) : fnum :=
  match x with
  | NaN => NaN
  | PInf => NInf
  | NInf => PInf
  | Fin r => Fin (- r)
  end.

Definition fadd (x y : fnum) : fnum :=
  match x, y with
  | NaN, _ => NaN
  | _, NaN => NaN
  | PInf, NInf => NaN
  | NInf, PInf => NaN
  | PInf, _ => PInf
  | _, PInf => PInf
  | NInf, _ => NInf
  | _, NInf => NInf
  | Fin a, Fin b => Fin (a + b)
  end.

Definition fsub (x y : fnum) : fnum := fadd x (fneg y).

(** [inf_times pos a]: the product of an infinity (positive when [pos])
    with the finite value [a]; [inf * 0] is NaN. *)
Definition inf_times (pos : bool) (a : R) : fnum :=
  if Rlt_b 0 a then (if pos then PInf else NInf)
  else if Rlt_b a 0 then (if pos then NInf else PInf)
  else NaN.

Definition fmul (x y : fnum) : fnum :=
  match x, y with
  | NaN, _ => NaN
  | _, NaN => NaN
  | Fin a, Fin b => Fin (a * b)
  | Fin a, PInf => inf_times true a
  | PInf, Fin a => inf_times true a
  | Fin a, NInf => inf_times false a
  | NInf, Fin a => inf_times false a
  | PInf, PInf => PInf
  | NInf, NInf => PInf
  | PInf, NInf => NInf
  | NInf, PInf => NInf
  end.

(** numpy's true division: a zero divisor gives an infinity or NaN, with a
    warning that the module silences ([warnings.filterwarnings('ignore')]). *)
Definition fdiv (x y : fnum) : fnum :=
  match x, y with
  | NaN, _ => NaN
  | _, NaN => NaN
  | PInf, Fin b => if Rlt_b b 0 then NInf else PInf
  | NInf, Fin b => if Rlt_b b 0 then PInf else NInf
  | PInf, _ => NaN
  | NInf, _ => NaN
  | Fin _, PInf => Fin 0
  | Fin _, NInf => Fin 0
  | Fin a, Fin b =>
      if Req_b b 0 then inf_times true a else Fin (a / b)
  end.

Definition fabs (x : fnum) : fnum :=
  match x with
  | NaN => NaN
  | PInf => PInf
  | NInf => PInf
  | Fin r => Fin (Rabs r)
  end.

Definition fsqrt (x : fnum) : fnum :=
  match x with
  | NaN => NaN
  | PInf => PInf
  | NInf => NaN
  | Fin r => if Rlt_b r 0 then NaN else Fin (sqrt r)
  end.

Definition fexp (x : fnum) : fnum :=
  match x with
  | NaN => NaN
  | PInf => PInf
  | NInf => Fin 0
  | Fin r => Fin (exp r)
  end.

(** [np.log]: the natural logarithm. *)
Definition flog (x : fnum) : fnum :=
  match x with
  | NaN => NaN
  | PInf => PInf
  | NInf => NaN
  | Fin r => if Rlt_b r 0 then NaN else if Req_b r 0 then NInf else Fin (ln r)
  end.

(** [np.log2]. *)
Definition flog2 (x : fnum) : fnum := fdiv (flog x) (Fin (ln 2)).

(** Comparisons: every comparison with NaN is false. *)
Definition fltb (x y : fnum) : bool :=
  match x, y with
  | NaN, _ => false
  | _, NaN => false
  | _, NInf => false
  | PInf, _ => false
  | NInf, _ => true
  | _, PInf => true
  | Fin a, Fin b => Rlt_b a b
  end.

Definition fleb (x y : fnum) : bool :=
  match x, y with
  | NaN, _ => false
  | _, NaN => false
  | NInf, _ => true
  | _, PInf => true
  | _, NInf => false
  | PInf, _ => false
  | Fin a, Fin b => Rle_b a b
  end.

Definition fgtb (x y : fnum) : bool := fltb y x.
Definition fgeb (x y : fnum) : bool := fleb y x.

Definition feqb (x y : fnum) : bool :=
  match x, y with
  | PInf, PInf => true
  | NInf, NInf => true
  | Fin a, Fin b => Req_b a b
  | _, _ => false
  end.

(** [np.sign]. *)
Definition np_sign (x : fnum) : fnum :=
  match x with
  | NaN => NaN
  | PInf => Fin 1
  | NInf => Fin (-1)
  | Fin r => if Rlt_b 0 r then Fin 1 else if Rlt_b r 0 then Fin (-1) else Fin 0
  end.

(** [np.maximum] and [np.minimum] propagate NaN; [np.clip x lo hi] is
    [np.minimum (np.maximum x lo) hi]. *)
Definition np_maximum (x y : fnum) : fnum :=
  if isnan x then x else if isnan y then y else if fltb x y then y else x.

Definition np_minimum (x y : fnum) : fnum :=
  if isnan x then x else if isnan y then y else if fltb y x then y else x.

Definition np_clip (x lo hi : fnum) : fnum := np_minimum (np_maximum x lo) hi.

(** Python's builtin [max(a, b)] keeps [a] unless [b > a], and [min(a, b)]
    keeps [a] unless [b < a]; with a NaN the first argument wins. *)
Definition py_max (a b : fnum) : fnum := if fgtb b a then b else a.
Definition py_min (a b : fnum) : fnum := if fltb b a then b else a.

(** A finite value read from a Python integer: a length ([len(audio)]) or
    an integer parameter ([sr]). *)
Definition of_nat (n : nat) : fnum := Fin (INR n).
Definition of_int (z : Z) : fnum := Fin (IZR z).

(* ------------------------------------------------------------------ *)
(** ** Exceptions                                                      *)
(* ------------------------------------------------------------------ *)

(** A computation that may raise: [None] is a raised exception.  Every
    handler of the source is [except Exception], so the exception's class
    and message do not matter. *)
Definition exc (A : Type) : Type := option A.

Definition raise {A : Type} : exc A := None.

Definition bind {A B : Type} (c : exc A) (k : A -> exc B) : exc B :=
  match c with
  | Some a => k a
  | None => None
  end.

Declare Scope exc_scope.
Delimit Scope exc_scope with exc.
Notation "x <- c ;; k" := (bind c (fun x => k))
  (at level 100, c at next level, right associativity) : exc_scope.
Notation "' p <- c ;; k" := (bind c (fun x => match x with p => k end))
  (at level 100, p pattern, c at next level, right associativity) : exc_scope.
Local Open Scope exc_scope.

(** [try: body except Exception: return fallback]. *)
Definition try_except {A : Type} (body : exc A) (fallback : A) : A :=
  match body with
  | Some a => a
  | None => fallback
  end.

(** Python's true division on Python numbers raises [ZeroDivisionError]. *)
Definition py_truediv (a b : fnum) : exc fnum :=
  if feqb b (Fin 0) then raise else Some (fdiv a b).

(* ------------------------------------------------------------------ *)
(** ** numpy arrays                                                    *)
(* ------------------------------------------------------------------ *)

(** A one-dimensional float array; a waveform is one. *)
Definition array : Type := list fnum.
Definition waveform : Type := array.

(** A two-dimensional real array, stored by rows (one row per frequency
    bin, one column per frame). *)
Definition matrix : Type := list array.

Definition np_sum (a : array) : fnum := fold_left fadd a (Fin 0).

(** [np.mean]: the mean of an empty array is NaN (0/0, with a warning). *)
Definition np_mean (a : array) : fnum := fdiv (np_sum a) (of_nat (length a)).

Definition drop_nan (a : array) : array := filter (fun x => negb (isnan x)) a.

(** [np.nanmean]: the mean of the entries that are not NaN; NaN when there
    are none. *)
Definition np_nanmean (a : array) : fnum := np_mean (drop_nan a).

Definition np_square (a : array) : array := map (fun x => fmul x x) a.

(** [np.nanstd]. *)
Definition np_nanstd (a : array) : fnum :=
  let m := np_nanmean a in
  fsqrt (np_mean (np_square (map (fun x => fsub x m) (drop_nan a)))).

Definition np_abs (a : array) : array := map fabs a.

(** [np.max] raises [ValueError] on an empty array and propagates NaN. *)
Definition np_max (a : array) : exc fnum :=
  match a with
  | [] => raise
  | x :: rest => Some (fold_left np_maximum rest x)
  end.

(** [a * c], [a / c] with a scalar [c]. *)
Definition scale (a : array) (c : fnum) : array := map (fun x => fmul x c) a.
Definition divide (a : array) (c : fnum) : array := map (fun x => fdiv x c) a.

(** [a[flags]] for a boolean mask [flags] of the same length. *)
Fixpoint mask (a : array) (flags : list bool) : array :=
  match a, flags with
  | x :: a', true :: f' => x :: mask a' f'
  | _ :: a', false :: f' => mask a' f'
  | _, _ => []
  end.

(** [a[idx]] for a list of indices that are in range. *)
Definition take_indices (a : array) (idx : list nat) : array :=
  map (fun i => nth i a NaN) idx.

(** [m *= g.reshape(-1, 1)]: row [i] of [m] is multiplied by [g[i]].  A
    one-element [g] is broadcast to every row; any other difference in
    length is a broadcasting error. *)
Fixpoint scale_each_row (m : matrix) (g : array) : matrix :=
  match m, g with
  | row :: m', c :: g' => scale row c :: scale_each_row m' g'
  | _, _ => []
  end.

Definition scale_rows (m : matrix) (g : array) : exc matrix :=
  if Nat.eqb (length g) (length m) then Some (scale_each_row m g)
  else match g with
       | [c] => Some (map (fun row => scale row c) m)
       | _ => raise
       end.

Definition fpow2 (x : fnum) : fnum := fmul x x.

(** Python's [sorted] on a list of floats and numpy's [argsort]: insertion
    sorts that keep equal entries in their order.  [np.argsort] puts NaN
    last.  (numpy's default sort may order equal keys differently.) *)
Fixpoint insert_sorted (x : fnum) (l : array) : array :=
  match l with
  | [] => [x]
  | y :: l' => if fltb x y then x :: l else y :: insert_sorted x l'
  end.

Definition py_sorted (a : array) : array :=
  fold_left (fun acc x => insert_sorted x acc) a [].

Definition sort_le (a b : fnum) : bool :=
  if isnan b then true else if isnan a then false else fleb a b.

Fixpoint insert_by (key : nat -> fnum) (i : nat) (l : list nat) : list nat :=
  match l with
  | [] => [i]
  | j :: l' => if sort_le (key j) (key i) then j :: insert_by key i l' else i :: l
  end.

Definition np_argsort (a : array) : list nat :=
  fold_left (fun acc i => insert_by (fun j => nth j a NaN) i acc)
            (seq 0 (length a)) [].

(* ------------------------------------------------------------------ *)
(** ** numpy.fft and scipy.signal.find_peaks                           *)
(* ------------------------------------------------------------------ *)

Definition complex : Type := (fnum * fnum)%type.

(** [np.abs] of a complex number. *)
Definition complex_abs (z : complex) : fnum :=
  fsqrt (fadd (fpow2 (fst z)) (fpow2 (snd z))).

Definition dft_angle (N k n : nat) : R := 2 * PI * INR k * INR n / INR N.

(** The sum of [x_n * trig (2 pi k n / N)] over the samples, [n] being the
    index of the first one. *)
Fixpoint dft_sum (trig : R -> R) (N k n : nat) (a : array) : fnum :=
  match a with
  | [] => Fin 0
  | x :: a' => fadd (fmul x (Fin (trig (dft_angle N k n))))
                    (dft_sum trig N k (S n) a')
  end.

Definition dft_bin (a : array) (k : nat) : complex :=
  (dft_sum cos (length a) k 0 a, fneg (dft_sum sin (length a) k 0 a)).

(** [np.fft.fft]: the discrete Fourier transform; an empty input is a
    [ValueError]. *)
Definition np_fft (a : array) : exc (list complex) :=
  match a with
  | [] => raise
  | _ => Some (map (dft_bin a) (seq 0 (length a)))
  end.

(** [np.fft.fftfreq n d]: [val = 1.0 / (n * d)] comes first and raises
    [ZeroDivisionError] for [n = 0]; the bins are
    [0, 1, ..., (n-1)//2, -(n//2), ..., -1] times [val]. *)
Definition np_fftfreq (n : nat) (d : fnum) : exc array :=
  val <- py_truediv (Fin 1) (fmul (of_nat n) d) ;;
  let upper := map of_nat (seq 0 ((n - 1) / 2 + 1)) in
  let lower := map (fun j => fneg (of_nat (n / 2 - j))) (seq 0 (n / 2)) in
  Some (map (fun k => fmul k val) (upper ++ lower)).

(** scipy's [_local_maxima_1d]: the indices of the local maxima of [x], a
    flat maximum counting once, at its middle.  The first and the last
    sample are never maxima. *)
Fixpoint plateau_end (x : array) (i_max : nat) (v : fnum) (i_ahead fuel : nat)
  : nat :=
  match fuel with
  | O => i_ahead
  | S fuel' =>
      if (i_ahead <? i_max)%nat && feqb (nth i_ahead x NaN) v
      then plateau_end x i_max v (S i_ahead) fuel'
      else i_ahead
  end.

Fixpoint local_maxima_from (x : array) (i_max i fuel : nat) : list nat :=
  match fuel with
  | O => []
  | S fuel' =>
      if (i <? i_max)%nat then
        if fltb (nth (i - 1) x NaN) (nth i x NaN) then
          let i_ahead := plateau_end x i_max (nth i x NaN) (S i) (length x) in
          if fltb (nth i_ahead x NaN) (nth i x NaN)
          then ((i + (i_ahead - 1)) / 2)%nat
                 :: local_maxima_from x i_max (S i_ahead) fuel'
          else local_maxima_from x i_max (S i) fuel'
        else local_maxima_from x i_max (S i) fuel'
      else []
  end.

Definition local_maxima_1d (x : array) : list nat :=
  local_maxima_from x (length x - 1) 1 (length x).

(** [find_peaks(x, height=h)[0]]: the local maxima whose value is at least
    [h]. *)
Definition find_peaks (x : array) (height : fnum) : list nat :=
  filter (fun p => fleb height (nth p x NaN)) (local_maxima_1d x).

(* ------------------------------------------------------------------ *)
(** ** Formant estimation                                              *)
(* ------------------------------------------------------------------ *)

Definition fallback_formants : array :=
  [Fin 500; Fin 1500; Fin 2500; Fin 3500].

Definition estimate_formants_body (audio : waveform) (sr : Z) (n_formants : nat)
  : exc array :=
  d <- py_truediv (Fin 1) (of_int sr) ;;
  freqs <- np_fftfreq (length audio) d ;;
  fft <- np_fft audio ;;
  let power := map (fun z => fpow2 (complex_abs z)) fft in
  let positive_freqs := firstn (length freqs / 2) freqs in
  let positive_power := firstn (length power / 2) power in
  top <- np_max positive_power ;;
  let peaks := find_peaks positive_power (fmul top (Fin 0.1)) in
  let peak_freqs := take_indices positive_freqs peaks in
  let peak_powers := take_indices positive_power peaks in
  let sorted_indices := rev (np_argsort peak_powers) in
  let formants := take_indices peak_freqs (firstn n_formants sorted_indices) in
  Some (py_sorted formants).

Definition estimate_formants (audio : waveform) (sr : Z) (n_formants : nat)
  : array :=
  try_except (estimate_formants_body audio sr n_formants) fallback_formants.

(* ------------------------------------------------------------------ *)
(** ** The feature dictionary                                          *)
(* ------------------------------------------------------------------ *)

(** The dictionary built by [extract_voice_features] and read by the
    stages.  A key may be absent: the stages read some keys with
    [d[key]] (a [KeyError] when absent), others with [d.get(key, default)]
    or after a test [key in d]. *)
Record Features : Type := mkFeatures {
  f0_mean : option fnum;
  f0_std : option fnum;
  spectral_centroid_mean : option fnum;
  spectral_rolloff_mean : option fnum;
  zero_crossing_rate_mean : option fnum;
  mfccs_mean : option array;
  formants : option array;
  duration : option fnum;
  energy : option fnum
}.

Definition is_some {A : Type} (o : option A) : bool :=
  match o with Some _ => true | None => false end.

(** Truth value of a dictionary: true unless it has no key. *)
Definition dict_truthy (f : Features) : bool :=
  is_some (f0_mean f) || is_some (f0_std f) || is_some (spectral_centroid_mean f)
  || is_some (spectral_rolloff_mean f) || is_some (zero_crossing_rate_mean f)
  || is_some (mfccs_mean f) || is_some (formants f) || is_some (duration f)
  || is_some (energy f).

(** [d[key]]. *)
Definition dict_item {A : Type} (v : option A) : exc A := v.

(** [d.get(key, default)]. *)
Definition dict_get {A : Type} (v : option A) (default : A) : A :=
  match v with Some x => x | None => default end.

(* ------------------------------------------------------------------ *)
(** ** Files, the user interface and the engine's state                *)
(* ------------------------------------------------------------------ *)

(** A path is one the caller supplies or the name of a temporary file made
    by [tempfile.NamedTemporaryFile(delete=False, suffix=".wav")]. *)
Inductive path : Type :=
| UserPath (name : string)
| TempPath (serial : nat).

Definition path_eqb (p q : path) : bool :=
  match p, q with
  | UserPath a, UserPath b => String.eqb a b
  | TempPath m, TempPath n => Nat.eqb m n
  | _, _ => false
  end.

Inductive ui_event : Type :=
| UiError (msg : string)
| UiWarning (msg : string)
| UiSuccess (msg : string).

(** What lies outside the engine object: the files, the serial number of
    the next temporary file, the paths on which feature extraction has run
    (latest first), and the messages shown (latest first). *)
Record World : Type := mkWorld {
  files : path -> option string;
  next_temp : nat;
  extract_calls : list path;
  ui : list ui_event
}.

Definition show (ev : ui_event) (w : World) : World :=
  mkWorld (files w) (next_temp w) (extract_calls w) (ev :: ui w).

Definition note_extraction (p : path) (w : World) : World :=
  mkWorld (files w) (next_temp w) (p :: extract_calls w) (ui w).

Definition write_file (p : path) (data : string) (w : World) : World :=
  mkWorld (fun q => if path_eqb q p then Some data else files w q)
          (next_temp w) (extract_calls w) (ui w).

(** [os.unlink]. *)
Definition unlink (p : path) (w : World) : World :=
  mkWorld (fun q => if path_eqb q p then None else files w q)
          (next_temp w) (extract_calls w) (ui w).

(** [NamedTemporaryFile(delete=False)]: a new, empty file. *)
Definition named_temporary_file (w : World) : path * World :=
  let p := TempPath (next_temp w) in
  (p, mkWorld (fun q => if path_eqb q p then Some EmptyString else files w q)
              (S (next_temp w)) (extract_calls w) (ui w)).

(** [os.path.exists(p) and os.path.getsize(p) > 0]. *)
Definition exists_nonempty (w : World) (p : path) : bool :=
  match files w p with
  | Some data => (0 <? String.length data)%nat
  | None => false
  end.

(** The attributes of a [VoiceCloningEngine].  [pyttsx3_engine] is false
    when initialisation failed and the attribute is [None];
    [last_reference_path] is [None] until [clone_voice] sets it. *)
Record Engine : Type := mkEngine {
  reference_features : option Features;
  reference_audio : option waveform;
  reference_sr : option Z;
  pyttsx3_engine : bool;
  last_reference_path : option path
}.

(** Truth value of [self.reference_features]. *)
Definition features_truthy (o : option Features) : bool :=
  match o with Some f => dict_truthy f | None => false end.

(* ------------------------------------------------------------------ *)
(** ** Text                                                            *)
(* ------------------------------------------------------------------ *)

(** [str.isspace] on the code points below 256. *)
Definition py_isspace (c : ascii) : bool :=
  let n := nat_of_ascii c in
  ((9 <=? n) && (n <=? 13) || (28 <=? n) && (n <=? 32)
   || (n =? 133) || (n =? 160))%nat.

Fixpoint lstrip (s : string) : string :=
  match s with
  | EmptyString => EmptyString
  | String c s' => if py_isspace c then lstrip s' else s
  end.

Fixpoint rstrip (s : string) : string :=
  match s with
  | EmptyString => EmptyString
  | String c s' =>
      match rstrip s' with
      | EmptyString => if py_isspace c then EmptyString else String c EmptyString
      | r => String c r
      end
  end.

(** [text.strip()]. *)
Definition strip (s : string) : string := rstrip (lstrip s).

(** Truth value of a string: true unless it is empty. *)
Definition str_truthy (s : string) : bool :=
  match s with EmptyString => false | _ => true end.

(* ------------------------------------------------------------------ *)
(** ** The libraries                                                   *)
(* ------------------------------------------------------------------ *)

(** The outcome of [sf.write] on a file that exists and is empty: the data
    written, or an exception with whatever had reached the file. *)
Inductive write_result : Type :=
| Written (data : string)
| WriteFailed (partial : string).

(** The numerical kernels of librosa, scipy, pyttsx3 and soundfile that
    the engine calls.  A result of type [exc] may be an exception. *)
Class Lib : Type := {
  (** the complex matrix returned by [librosa.stft] *)
  cmatrix : Type;
  (** [librosa.load(path, sr=22050)] on the bytes of a file *)
  librosa_decode : string -> exc waveform;
  (** [librosa.pyin(audio, fmin=C2, fmax=C7)]: the pitch of each frame
      (NaN when unvoiced) and the voiced flags *)
  librosa_pyin : waveform -> exc (array * list bool);
  (** [librosa.effects.pitch_shift(audio, sr, n_steps, bins_per_octave)] *)
  librosa_pitch_shift : waveform -> Z -> fnum -> Z -> exc waveform;
  (** [librosa.stft(audio, n_fft, hop_length)] *)
  librosa_stft : waveform -> Z -> Z -> exc cmatrix;
  (** [librosa.istft(stft, hop_length)] *)
  librosa_istft : cmatrix -> Z -> exc waveform;
  (** [np.abs] and [np.angle] of a complex matrix *)
  magnitude_of : cmatrix -> matrix;
  phase_of : cmatrix -> matrix;
  (** [magnitude * np.exp(1j * phase)] *)
  from_polar : matrix -> matrix -> cmatrix;
  (** [librosa.fft_frequencies(sr, n_fft)] *)
  librosa_fft_frequencies : Z -> Z -> array;
  (** row 0 of [librosa.feature.spectral_centroid(y=audio, sr=sr)] *)
  librosa_spectral_centroid : waveform -> Z -> exc array;
  (** row 0 of [librosa.feature.spectral_rolloff(y=audio, sr=sr)] *)
  librosa_spectral_rolloff : waveform -> Z -> exc array;
  (** row 0 of [librosa.feature.zero_crossing_rate(audio)] *)
  librosa_zero_crossing_rate : waveform -> exc array;
  (** [librosa.feature.mfcc(y=audio, sr=sr, n_mfcc=n)] *)
  librosa_mfcc : waveform -> Z -> Z -> exc matrix;
  (** [scipy.signal.butter(N, Wn, btype='low')] *)
  scipy_butter : Z -> fnum -> exc (array * array);
  (** [scipy.signal.filtfilt(b, a, x)] *)
  scipy_filtfilt : array -> array -> waveform -> exc waveform;
  (** [save_to_file(text, path)] then [runAndWait()]: the bytes that the
      speech engine leaves in the file *)
  pyttsx3_render : string -> exc string;
  (** [sf.write(path, audio, sr)] *)
  sf_write : waveform -> Z -> write_result
}.

(** The sample rate that every [librosa.load] of the engine asks for. *)
Definition SR : Z := 22050.

(** The defaults of [librosa.stft]. *)
Definition N_FFT : Z := 2048.
Definition HOP_LENGTH : Z := 512.

(* ------------------------------------------------------------------ *)
(** ** The engine                                                      *)
(* ------------------------------------------------------------------ *)

Section Engine.

Context {L : Lib}.

(** [librosa.load(path, sr=22050)]: a missing file or undecodable bytes
    raise. *)
Definition librosa_load (w : World) (p : path) : exc (waveform * Z) :=
  data <- files w p ;;
  audio <- librosa_decode data ;;
  Some (audio, SR).

(** *** Feature extraction *)

Definition extract_voice_features_body (w : World) (audio_path : path)
  : exc (Features * waveform * Z) :=
  '(audio, sr) <- librosa_load w audio_path ;;
  '(f0, _) <- librosa_pyin audio ;;
  spectral_centroids <- librosa_spectral_centroid audio sr ;;
  spectral_rolloff <- librosa_spectral_rolloff audio sr ;;
  zero_crossing_rate <- librosa_zero_crossing_rate audio ;;
  mfccs <- librosa_mfcc audio sr 13 ;;
  let formants := estimate_formants audio sr 4 in
  duration <- py_truediv (of_nat (length audio)) (of_int sr) ;;
  Some (mkFeatures
          (Some (np_nanmean f0))
          (Some (np_nanstd f0))
          (Some (np_mean spectral_centroids))
          (Some (np_mean spectral_rolloff))
          (Some (np_mean zero_crossing_rate))
          (Some (map np_mean mfccs))
          (Some formants)
          (Some duration)
          (Some (np_mean (np_square audio))),
        audio, sr).

(** [extract_voice_features]: [None] stands for the triple
    [(None, None, None)] of the failure branch. *)
Definition extract_voice_features (w : World) (audio_path : path)
  : option (Features * waveform * Z) * World :=
  let w1 := note_extraction audio_path w in
  match extract_voice_features_body w audio_path with
  | Some r => (Some r, w1)
  | None => (None, show (UiError "Error extracting voice features") w1)
  end.

Definition load_reference_voice (e : Engine) (w : World) (audio_path : path)
  : bool * Engine * World :=
  match extract_voice_features w audio_path with
  | (Some (features, audio, sr), w1) =>
      if dict_truthy features
      then (true,
            mkEngine (Some features) (Some audio) (Some sr)
                     (pyttsx3_engine e) (last_reference_path e),
            w1)
      else (false, e, w1)
  | (None, w1) => (false, e, w1)
  end.

(** *** Base synthesis *)

Definition synthesize_base_speech (e : Engine) (w : World) (text : string)
  : option path * World :=
  if negb (pyttsx3_engine e) then (None, w)
  else
    let '(base_path, w1) := named_temporary_file w in
    match pyttsx3_render text with
    | Some data =>
        let w2 := write_file base_path data w1 in
        if exists_nonempty w2 base_path then (Some base_path, w2)
        else (None, w2)
    | None => (None, show (UiWarning "Base speech synthesis failed") w1)
    end.

(** *** The transformation stages *)

Definition apply_pitch_transformation_body
  (audio : waveform) (sr : Z) (target_features : Features) : exc waveform :=
  target_f0 <- dict_item (f0_mean target_features) ;;
  if isnan target_f0 then Some audio
  else
    '(current_f0, voiced_flag) <- librosa_pyin audio ;;
    let current_f0_mean := np_nanmean (mask current_f0 voiced_flag) in
    if isnan current_f0_mean || fleb current_f0_mean (Fin 0) then Some audio
    else
      let pitch_ratio := fdiv target_f0 current_f0_mean in
      let pitch_ratio := np_clip pitch_ratio (Fin 0.5) (Fin 2) in
      let pitch_shift_semitones := fmul (Fin 12) (flog2 pitch_ratio) in
      librosa_pitch_shift audio sr pitch_shift_semitones 24.

Definition apply_pitch_transformation
  (audio : waveform) (sr : Z) (target_features : Features) : waveform :=
  try_except (apply_pitch_transformation_body audio sr target_features) audio.

(** The Gaussian weight of each frequency bin around [centre], of width
    [width * centre]:
    [np.exp(-0.5 * ((freqs - centre) / (centre * width)) ** 2)]. *)
Definition gaussian_weights (freqs : array) (centre width : fnum) : array :=
  map (fun f =>
         fexp (fmul (Fin (-0.5))
                    (fpow2 (fdiv (fsub f centre) (fmul centre width)))))
      freqs.

(** [1 + (centroid_ratio - 1) * freq_weights * 0.3]. *)
Definition envelope_gain (centroid_ratio : fnum) (freq_weights : array) : array :=
  map (fun wgt =>
         fadd (Fin 1) (fmul (fmul (fsub centroid_ratio (Fin 1)) wgt) (Fin 0.3)))
      freq_weights.

Definition modify_spectral_envelope_body
  (audio : waveform) (sr : Z) (target_features : Features) : exc waveform :=
  stft <- librosa_stft audio N_FFT HOP_LENGTH ;;
  let magnitude := magnitude_of stft in
  let phase := phase_of stft in
  let freqs := librosa_fft_frequencies sr N_FFT in
  centroids <- librosa_spectral_centroid audio sr ;;
  let current_centroid := np_mean centroids in
  target_centroid <- dict_item (spectral_centroid_mean target_features) ;;
  magnitude <-
    (if fgtb current_centroid (Fin 0) && fgtb target_centroid (Fin 0) then
       let centroid_ratio := fdiv target_centroid current_centroid in
       let centroid_ratio := np_clip centroid_ratio (Fin 0.8) (Fin 1.2) in
       let freq_weights := gaussian_weights freqs target_centroid (Fin 0.3) in
       scale_rows magnitude (envelope_gain centroid_ratio freq_weights)
     else Some magnitude) ;;
  librosa_istft (from_polar magnitude phase) HOP_LENGTH.

Definition modify_spectral_envelope
  (audio : waveform) (sr : Z) (target_features : Features) : waveform :=
  try_except (modify_spectral_envelope_body audio sr target_features) audio.

(** [1 + formant_weight * 0.2]. *)
Definition formant_gain (formant_weight : array) : array :=
  map (fun wgt => fadd (Fin 1) (fmul wgt (Fin 0.2))) formant_weight.

(** The loop over the first three formants: entries that are not positive
    are skipped. *)
Fixpoint emphasise_formants (magnitude : matrix) (freqs : array)
  (formant_freqs : array) : exc matrix :=
  match formant_freqs with
  | [] => Some magnitude
  | formant_freq :: rest =>
      if fgtb formant_freq (Fin 0) then
        magnitude <- scale_rows magnitude
                       (formant_gain (gaussian_weights freqs formant_freq (Fin 0.1))) ;;
        emphasise_formants magnitude freqs rest
      else emphasise_formants magnitude freqs rest
  end.

Definition apply_formant_shifting_body
  (audio : waveform) (sr : Z) (target_features : Features) : exc waveform :=
  stft <- librosa_stft audio 2048 512 ;;
  let magnitude := magnitude_of stft in
  let phase := phase_of stft in
  let freqs := librosa_fft_frequencies sr 2048 in
  magnitude <-
    match formants target_features with
    | Some fs =>
        if (0 <? length fs)%nat
        then emphasise_formants magnitude freqs (firstn 3 fs)
        else Some magnitude
    | None => Some magnitude
    end ;;
  librosa_istft (from_polar magnitude phase) 512.

Definition apply_formant_shifting
  (audio : waveform) (sr : Z) (target_features : Features) : waveform :=
  try_except (apply_formant_shifting_body audio sr target_features) audio.

(** [np.exp(tilt_factor * np.log(freqs + 1))]. *)
Definition spectral_tilt (tilt_factor : fnum) (freqs : array) : array :=
  map (fun f => fexp (fmul tilt_factor (flog (fadd f (Fin 1))))) freqs.

Definition adjust_voice_texture_body
  (audio : waveform) (sr : Z) (target_features : Features) : exc waveform :=
  stft <- librosa_stft audio N_FFT HOP_LENGTH ;;
  let magnitude := magnitude_of stft in
  let phase := phase_of stft in
  let freqs := librosa_fft_frequencies sr N_FFT in
  let target_centroid :=
    dict_get (spectral_centroid_mean target_features) (Fin 2000) in
  centroids <- librosa_spectral_centroid audio sr ;;
  let current_centroid := np_mean centroids in
  magnitude <-
    (if fgtb current_centroid (Fin 0) && fgtb target_centroid (Fin 0) then
       let tilt_factor :=
         fmul (flog (fdiv target_centroid current_centroid)) (Fin 0.1) in
       scale_rows magnitude (spectral_tilt tilt_factor freqs)
     else Some magnitude) ;;
  librosa_istft (from_polar magnitude phase) HOP_LENGTH.

Definition adjust_voice_texture
  (audio : waveform) (sr : Z) (target_features : Features) : waveform :=
  try_except (adjust_voice_texture_body audio sr target_features) audio.

(** The amplitude factor of the energy normalisation:
    [np.clip(np.sqrt(target_energy / current_energy), 0.3, 3.0)]. *)
Definition energy_ratio (target_energy current_energy : fnum) : fnum :=
  np_clip (fsqrt (fdiv target_energy current_energy)) (Fin 0.3) (Fin 3).

(** The dynamic range adjustment, the second half of
    [match_voice_dynamics]: the signal is brought to an RMS level of 0.1
    when its RMS level is positive. *)
Definition normalise_rms (audio : waveform) : waveform :=
  let audio_rms := fsqrt (np_mean (np_square audio)) in
  if fgtb audio_rms (Fin 0) then scale (divide audio audio_rms) (Fin 0.1)
  else audio.

(** No operation of [match_voice_dynamics] raises on a float array and a
    dictionary, so its handler is never reached.  ([audio *= energy_ratio]
    changes the caller's array in place; the value returned is modelled.) *)
Definition match_voice_dynamics
  (audio : waveform) (target_features : Features) : waveform :=
  let current_energy := np_mean (np_square audio) in
  let target_energy := dict_get (energy target_features) current_energy in
  let audio :=
    if fgtb current_energy (Fin 0) && fgtb target_energy (Fin 0)
    then scale audio (energy_ratio target_energy current_energy)
    else audio in
  normalise_rms audio.

(** *** The quality enhancer *)

(** The compressor: [np.where(audio_abs > threshold,
    np.sign(audio) * (threshold + (audio_abs - threshold) / ratio), audio)]. *)
Definition compress (threshold ratio : fnum) (audio : waveform) : waveform :=
  map (fun x =>
         if fgtb (fabs x) threshold
         then fmul (np_sign x)
                   (fadd threshold (fdiv (fsub (fabs x) threshold) ratio))
         else x)
      audio.

(** The statements of [enhance_voice_quality] up to the assignment
    [audio = filtfilt(b, a, audio)]. *)
Definition lowpass (audio : waveform) (sr : Z) : exc waveform :=
  nyquist <- py_truediv (of_int sr) (Fin 2) ;;
  let cutoff := py_min (Fin 8000) (fmul nyquist (Fin 0.9)) in
  wn <- py_truediv cutoff nyquist ;;
  '(b, a) <- scipy_butter 4 wn ;;
  scipy_filtfilt b a audio.

(** The statements after it; [audio] is the filtered signal. *)
Definition compress_and_normalise (audio : waveform) : exc waveform :=
  let compressed_audio := compress (Fin 0.1) (Fin 3) audio in
  max_val <- np_max (np_abs compressed_audio) ;;
  if fgtb max_val (Fin 0)
  then Some (scale (divide compressed_audio max_val) (Fin 0.8))
  else Some compressed_audio.

(** The handler returns [audio], which names the input until the filter
    has run and the filtered signal afterwards. *)
Definition enhance_voice_quality (audio : waveform) (sr : Z) : waveform :=
  match lowpass audio sr with
  | None => audio
  | Some filtered => try_except (compress_and_normalise filtered) filtered
  end.

(** *** The cascade *)

(** The six steps of [apply_voice_transformation].  When the dictionary is
    [None], every read of it raises inside the stage that makes it, and the
    stage's handler returns the stage's input. *)
Definition transformation_cascade
  (base_audio : waveform) (sr : Z) (target_features : option Features)
  : waveform :=
  match target_features with
  | Some tf =>
      let base_audio := apply_pitch_transformation base_audio sr tf in
      let base_audio := modify_spectral_envelope base_audio sr tf in
      let base_audio := apply_formant_shifting base_audio sr tf in
      let base_audio := adjust_voice_texture base_audio sr tf in
      let base_audio := match_voice_dynamics base_audio tf in
      enhance_voice_quality base_audio sr
  | None => enhance_voice_quality base_audio sr
  end.

(** The handler of [apply_voice_transformation] loads the base audio once
    more; an exception of that second load leaves the function. *)
Definition apply_voice_transformation
  (w : World) (base_audio_path : path) (target_features : option Features)
  : exc (waveform * Z) * World :=
  match librosa_load w base_audio_path with
  | Some (base_audio, sr) =>
      (Some (transformation_cascade base_audio sr target_features, sr), w)
  | None =>
      let w1 := show (UiWarning "Voice transformation failed") w in
      (librosa_load w1 base_audio_path, w1)
  end.

(** *** The clone operation *)

Definition same_path (p : path) (o : option path) : bool :=
  match o with Some q => path_eqb p q | None => false end.

Definition set_last_reference_path (e : Engine) (p : path) : Engine :=
  mkEngine (reference_features e) (reference_audio e) (reference_sr e)
           (pyttsx3_engine e) (Some p).

(** The part of [clone_voice] from base synthesis on, inside the [try]. *)
Definition synthesize_and_transform (e : Engine) (w : World) (text : string)
  : option path * Engine * World :=
  match synthesize_base_speech e w text with
  | (None, w1) => (None, e, show (UiError "Failed to generate base speech") w1)
  | (Some base_audio_path, w1) =>
      match apply_voice_transformation w1 base_audio_path (reference_features e) with
      | (None, w2) => (None, e, show (UiError "Voice cloning failed") w2)
      | (Some (cloned_audio, sr), w2) =>
          let '(output_path, w3) := named_temporary_file w2 in
          match sf_write cloned_audio sr with
          | WriteFailed partial =>
              (None, e,
               show (UiError "Voice cloning failed")
                    (write_file output_path partial w3))
          | Written data =>
              (Some output_path, e,
               show (UiSuccess "Advanced voice cloning completed!")
                    (unlink base_audio_path (write_file output_path data w3)))
          end
      end
  end.

Definition clone_voice
  (e : Engine) (w : World) (text : string) (reference_audio_path : path)
  : option path * Engine * World :=
  if negb (str_truthy (strip text))
  then (None, e, show (UiError "Please enter text to synthesize") w)
  else if negb (features_truthy (reference_features e))
          || negb (same_path reference_audio_path (last_reference_path e))
  then
    match load_reference_voice e w reference_audio_path with
    | (false, e1, w1) =>
        (None, e1, show (UiError "Failed to analyze reference voice") w1)
    | (true, e1, w1) =>
        synthesize_and_transform
          (set_last_reference_path e1 reference_audio_path)
          (show (UiSuccess "Reference voice analyzed!") w1) text
    end
  else synthesize_and_transform e w text.

(** *** The similarity score *)

(** [1.0 - abs(a - b) / max(a, b)]. *)
Definition closeness (a b : fnum) : fnum :=
  fsub (Fin 1) (fdiv (fabs (fsub a b)) (py_max a b)).

Definition similarity_body (ref_features cloned_features : Features) : exc fnum :=
  ref_f0 <- dict_item (f0_mean ref_features) ;;
  cloned_f0 <- dict_item (f0_mean cloned_features) ;;
  let pitch_similarity := closeness ref_f0 cloned_f0 in
  ref_centroid <- dict_item (spectral_centroid_mean ref_features) ;;
  cloned_centroid <- dict_item (spectral_centroid_mean cloned_features) ;;
  let spectral_similarity := closeness ref_centroid cloned_centroid in
  let similarity := fdiv (fadd pitch_similarity spectral_similarity) (Fin 2) in
  Some (py_max (Fin 0) (py_min (Fin 1) similarity)).

Definition get_voice_similarity_score
  (w : World) (cloned_audio_path reference_audio_path : path) : fnum * World :=
  let '(ref_result, w1) := extract_voice_features w reference_audio_path in
  let '(cloned_result, w2) := extract_voice_features w1 cloned_audio_path in
  match ref_result, cloned_result with
  | Some (ref_features, _, _), Some (cloned_features, _, _) =>
      if negb (dict_truthy ref_features) || negb (dict_truthy cloned_features)
      then (Fin 0, w2)
      else (try_except (similarity_body ref_features cloned_features) (Fin 0), w2)
  | _, _ => (Fin 0, w2)
  end.

End Engine.

(* ------------------------------------------------------------------ *)
(** ** Derived notions used in the statements                          *)
(* ------------------------------------------------------------------ *)

Definition all_space (s : string) : bool :=
  forallb py_isspace (list_ascii_of_string s).

(** Every sample is a finite number. *)
Definition all_finite (a : array) : Prop :=
  Forall (fun x => exists r, x = Fin r) a.

(** Every sample is finite and at most [bound] in absolute value. *)
Definition peak_within (bound : R) (a : array) : Prop :=
  Forall (fun x => exists r, x = Fin r /\ Rabs r <= bound) a.

(** The first half of the power spectrum of a waveform, as
    [estimate_formants] computes it. *)
Definition positive_power_of (audio : waveform) : array :=
  firstn (length audio / 2)
         (map (fun z => fpow2 (complex_abs z))
              (map (dft_bin audio) (seq 0 (length audio)))).

(** The peaks that [estimate_formants] finds in it: the local maxima that
    reach a tenth of the largest value. *)
Definition qualifying_peaks (audio : waveform) : list nat :=
  match np_max (positive_power_of audio) with
  | Some top => find_peaks (positive_power_of audio) (fmul top (Fin 0.1))
  | None => []
  end.

Section Resynthesis.

Context {L : Lib}.

(** What a spectral stage returns when it leaves the magnitudes as they
    are: the inverse transform of the transform of its input, or the input
    when one of the library calls raises.  [probe] is the call made between
    the two transforms. *)
Definition resynthesised {A : Type} (audio : waveform) (n_fft hop : Z)
  (probe : exc A) : waveform :=
  try_except
    (stft <- librosa_stft audio n_fft hop ;;
     _ <- probe ;;
     librosa_istft (from_polar (magnitude_of stft) (phase_of stft)) hop)
    audio.

End Resynthesis.

(* ------------------------------------------------------------------ *)
(** ** A small instance of the library interface                       *)
(* ------------------------------------------------------------------ *)

(** The engine is run on concrete inputs with this instance.  It keeps the
    documented argument checks of the library functions and replaces their
    numerical kernels by the simplest functions of the right shape. *)

(** Raw unsigned 8-bit samples; an empty file does not decode. *)
Definition demo_sample (c : ascii) : fnum :=
  Fin ((IZR (Z.of_N (N_of_ascii c)) - 128) / 128).

Definition demo_decode (data : string) : exc waveform :=
  match data with
  | EmptyString => raise
  | _ => Some (map demo_sample (list_ascii_of_string data))
  end.

(** One voiced frame at 120 Hz. *)
Definition demo_pyin (audio : waveform) : exc (array * list bool) :=
  match audio with
  | [] => raise
  | _ => Some ([Fin 120], [true])
  end.

(** A transform with one frequency bin and one frame per sample, kept in
    polar form. *)
Definition demo_phase (x : fnum) : fnum :=
  if fltb x (Fin 0) then Fin PI else Fin 0.

Definition demo_stft (audio : waveform) (n_fft hop : Z) : exc (matrix * matrix) :=
  match audio with
  | [] => raise
  | _ => Some ([np_abs audio], [map demo_phase audio])
  end.

Fixpoint demo_combine (mag ph : array) : array :=
  match mag, ph with
  | m :: mag', Fin p :: ph' => fmul m (Fin (cos p)) :: demo_combine mag' ph'
  | _, _ => []
  end.

Definition demo_istft (s : matrix * matrix) (hop : Z) : exc waveform :=
  match s with
  | ([mag], [ph]) => Some (demo_combine mag ph)
  | _ => raise
  end.

Definition demo_features (v : R) (audio : waveform) : exc array :=
  match audio with
  | [] => raise
  | _ => Some [Fin v]
  end.

(** [butter] rejects a critical frequency outside (0, 1); the filter has
    [N + 1] coefficients and lets every frequency pass. *)
Definition demo_butter (N : Z) (wn : fnum) : exc (array * array) :=
  if fltb (Fin 0) wn && fltb wn (Fin 1)
  then Some (Fin 1 :: repeat (Fin 0) (Z.to_nat N),
             Fin 1 :: repeat (Fin 0) (Z.to_nat N))
  else raise.

(** [filtfilt] rejects an input that is not longer than its padding,
    [3 * max(len(a), len(b))]. *)
Definition demo_filtfilt (b a : array) (x : waveform) : exc waveform :=
  if (length x <=? 3 * Nat.max (length a) (length b))%nat then raise
  else Some x.

Definition demo_lib_with (write : waveform -> Z -> write_result) : Lib := {|
  cmatrix := (matrix * matrix)%type;
  librosa_decode := demo_decode;
  librosa_pyin := demo_pyin;
  librosa_pitch_shift := fun audio _ _ _ => Some audio;
  librosa_stft := demo_stft;
  librosa_istft := demo_istft;
  magnitude_of := fst;
  phase_of := snd;
  from_polar := pair;
  librosa_fft_frequencies := fun _ _ => [Fin 0];
  librosa_spectral_centroid := fun audio _ => demo_features 1000 audio;
  librosa_spectral_rolloff := fun audio _ => demo_features 3000 audio;
  librosa_zero_crossing_rate := fun audio => demo_features 0.1 audio;
  librosa_mfcc := fun audio _ n =>
    match audio with
    | [] => raise
    | _ => Some (repeat [Fin 0] (Z.to_nat n))
    end;
  scipy_butter := demo_butter;
  scipy_filtfilt := demo_filtfilt;
  pyttsx3_render := fun text => Some (String.append "RIFF" text);
  sf_write := write
|}.

(** Every write succeeds. *)
Definition demo_lib : Lib := demo_lib_with (fun _ _ => Written "RIFFWAVE").

(** Every write raises and leaves the file empty, as on a full disk. *)
Definition full_disk_lib : Lib := demo_lib_with (fun _ _ => WriteFailed "").

(** A feature dictionary with every key, and an engine that has it in its
    cache for [reference.wav]. *)
Definition demo_features_150 : Features :=
  mkFeatures (Some (Fin 150)) (Some (Fin 10)) (Some (Fin 1500))
             (Some (Fin 3000)) (Some (Fin 0.1)) (Some (repeat (Fin 0) 13))
             (Some fallback_formants) (Some (Fin 5)) (Some (Fin 0.01)).

Definition reference_wav : path := UserPath "reference.wav".

Definition demo_engine_cached : Engine :=
  mkEngine (Some demo_features_150) (Some [Fin 0]) (Some SR) true
           (Some reference_wav).

Definition demo_engine_fresh : Engine := mkEngine None None None true None.

Definition demo_world : World :=
  mkWorld (fun p => if path_eqb p reference_wav then Some "reference"%string else None)
          0 [] [].

(** A target value that a stage does not act on: NaN, minus infinity, or a
    finite value that is not positive.  It is the negation of the guard
    [value > 0] of the stages. *)
Definition not_positive (x : fnum) : bool := negb (fgtb x (Fin 0)).

(** A feature dictionary like [demo_features_150] with another entry, or
    none, under the key [energy]. *)
Definition with_energy (v : option fnum) : Features :=
  mkFeatures (Some (Fin 150)) (Some (Fin 10)) (Some (Fin 1500))
             (Some (Fin 3000)) (Some (Fin 0.1)) (Some (repeat (Fin 0) 13))
             (Some fallback_formants) (Some (Fin 5)) v.

Section LibraryContracts.

Context {L : Lib}.

(** scipy documents that [filtfilt] returns an array of the shape of its
    input. *)
Definition filtfilt_keeps_length : Prop :=
  forall (b a : array) (x y : waveform),
    scipy_filtfilt b a x = Some y -> length y = length x.

End LibraryContracts.

(** The world after base synthesis has made its temporary file and
    written [data] to it. *)
Definition after_base (w : World) (data : string) : World :=
  write_file (TempPath (next_temp w)) data (snd (named_temporary_file w)).


(** Two reference recordings. *)
Definition voice_a : path := UserPath "a.wav".
Definition voice_b : path := UserPath "b.wav".

Definition two_voices_world : World :=
  mkWorld (fun p => if path_eqb p voice_a then Some "voice a"%string
                    else if path_eqb p voice_b then Some "voice b"%string
                    else None)
          0 [] [].

(* ------------------------------------------------------------------ *)
(** ** Further notions used in the statements                          *)
(* ------------------------------------------------------------------ *)

(** The sum of the squares of the finite samples. *)
Fixpoint sum_squares (a : array) : R :=
  match a with
  | [] => 0
  | Fin r :: a' => r * r + sum_squares a'
  | _ :: a' => sum_squares a'
  end.

(** Each entry is at most the next. *)
Fixpoint ascending (a : array) : Prop :=
  match a with
  | [] => True
  | x :: rest =>
      match rest with
      | [] => True
      | y :: _ => fleb x y = true
      end /\ ascending rest
  end.

(** The frequencies of the first half of the bins of [np.fft.fftfreq] for
    [n] samples at the rate [sr]: bin [k] is at [k * (1 / (n * (1 / sr)))]. *)
Definition bin_frequencies (n : nat) (sr : Z) : array :=
  map (fun k => Fin (INR k * (1 / (INR n * (1 / IZR sr))))) (seq 0 (n / 2)).

(* ------------------------------------------------------------------ *)
(** ** The applications that call the engine                           *)
(* ------------------------------------------------------------------ *)

(** [np.sin]. *)
Definition fsin (x : fnum) : fnum :=
  match x with
  | Fin r => Fin (sin r)
  | _ => NaN
  end.

(** [np.linspace(start, stop, num, endpoint=False)]: [num] values from
    [start] in steps of [(stop - start) / num]. *)
Definition np_linspace (start stop : fnum) (num : nat) : array :=
  let step := fdiv (fsub stop start) (of_nat num) in
  map (fun i => fadd (fmul (of_nat i) step) start) (seq 0 num).

(** [a + b] for two arrays of one length. *)
Fixpoint add_arrays (a b : array) : array :=
  match a, b with
  | x :: a', y :: b' => fadd x y :: add_arrays a' b'
  | _, _ => []
  end.

(** The watermarked signal of [add_watermark] in [ethical_voice_app.py]:
    the audio plus a tone of 18000 Hz and amplitude 0.001. *)
Definition watermark_signal (duration : fnum) (num : nat) : array :=
  let t := np_linspace (Fin 0) duration num in
  map (fun ti => fmul (Fin 0.001) (fsin (fmul (Fin (2 * PI * 18000)) ti))) t.

Definition watermarked (audio : waveform) (duration : fnum) : waveform :=
  add_arrays audio (watermark_signal duration (length audio)).

(** [str.lower] on the code points below 256: the letters A to Z and the
    capital letters from 192 to 222, the multiplication sign 215 apart,
    move up by 32. *)
Definition py_lower_char (c : ascii) : ascii :=
  let n := nat_of_ascii c in
  if ((65 <=? n) && (n <=? 90)
      || (192 <=? n) && (n <=? 222) && negb (n =? 215))%nat
  then ascii_of_nat (n + 32)
  else c.

Fixpoint py_lower (s : string) : string :=
  match s with
  | EmptyString => EmptyString
  | String c s' => String (py_lower_char c) (py_lower s')
  end.

Fixpoint starts_with (prefix s : string) : bool :=
  match prefix, s with
  | EmptyString, _ => true
  | String _ _, EmptyString => false
  | String a prefix', String b s' => Ascii.eqb a b && starts_with prefix' s'
  end.

(** [needle in hay]. *)
Fixpoint contains (needle hay : string) : bool :=
  starts_with needle hay
  || match hay with
     | EmptyString => false
     | String _ hay' => contains needle hay'
     end.

Definition BLOCKED_WORDS : list string :=
  ["scam"; "fraud"; "impersonate"; "fake"; "deceive"; "cheat"; "lie";
   "steal"; "hack"; "phishing"; "spam"; "illegal"; "criminal"; "threat";
   "blackmail"]%string.

(** [check_profanity] of [ethical_voice_app.py] and of
    [ethical_voice_cloning_app.py]. *)
Definition check_profanity (text : string) : list string :=
  let text_lower := py_lower text in
  filter (fun word => contains word text_lower) BLOCKED_WORDS.

(** The entries of the list of issues of [check_audio_quality]. *)
Inductive quality_issue : Type :=
| DurationOutOfRange (duration : fnum)
| TooQuiet
| TooLoud
| HighNoise
| PoorSpectrum
| AnalysisError.

(** [quality_score >= 50], the test of [process_audio_sample] under which
    it offers to continue. *)
Definition continue_offered (quality_score : nat) : bool :=
  (50 <=? quality_score)%nat.

Section Applications.

Context {L : Lib}.

(** [check_audio_quality] of [ethical_voice_app.py]. *)
Definition check_audio_quality_body (w : World) (audio_path : path)
  : exc (nat * list quality_issue) :=
  '(audio, sr) <- librosa_load w audio_path ;;
  duration <- py_truediv (of_nat (length audio)) (of_int sr) ;;
  let rms_energy := fsqrt (np_mean (np_square audio)) in
  zcr_row <- librosa_zero_crossing_rate audio ;;
  let zero_crossing_rate := np_mean zcr_row in
  let quality_score := 0%nat in
  let issues := [] in
  let '(quality_score, issues) :=
    if fleb (Fin 3) duration && fleb duration (Fin 15)
    then ((quality_score + 25)%nat, issues)
    else (quality_score, issues ++ [DurationOutOfRange duration]) in
  let '(quality_score, issues) :=
    if fleb (Fin 0.01) rms_energy && fleb rms_energy (Fin 0.5)
    then ((quality_score + 25)%nat, issues)
    else if fltb rms_energy (Fin 0.01)
         then (quality_score, issues ++ [TooQuiet])
         else (quality_score, issues ++ [TooLoud]) in
  let '(quality_score, issues) :=
    if fltb zero_crossing_rate (Fin 0.3)
    then ((quality_score + 25)%nat, issues)
    else (quality_score, issues ++ [HighNoise]) in
  let quality_score := (quality_score + 25)%nat in
  Some (quality_score, issues).

Definition check_audio_quality (w : World) (audio_path : path)
  : nat * list quality_issue :=
  try_except (check_audio_quality_body w audio_path) (0%nat, [AnalysisError]).

(** [check_audio_quality] of the class in [ethical_voice_cloning_app.py]:
    four tests, no base score, and the four measurements returned as
    well (an empty dictionary on failure). *)
Definition platform_check_audio_quality_body (w : World) (audio_path : path)
  : exc (nat * list quality_issue * option (fnum * fnum * fnum * fnum)) :=
  '(audio, sr) <- librosa_load w audio_path ;;
  duration <- py_truediv (of_nat (length audio)) (of_int sr) ;;
  let rms_energy := fsqrt (np_mean (np_square audio)) in
  zcr_row <- librosa_zero_crossing_rate audio ;;
  let zero_crossing_rate := np_mean zcr_row in
  centroid_row <- librosa_spectral_centroid audio sr ;;
  let spectral_centroid := np_mean centroid_row in
  let quality_score := 0%nat in
  let issues := [] in
  let '(quality_score, issues) :=
    if fleb (Fin 3) duration && fleb duration (Fin 15)
    then ((quality_score + 25)%nat, issues)
    else (quality_score, issues ++ [DurationOutOfRange duration]) in
  let '(quality_score, issues) :=
    if fleb (Fin 0.01) rms_energy && fleb rms_energy (Fin 0.5)
    then ((quality_score + 25)%nat, issues)
    else if fltb rms_energy (Fin 0.01)
         then (quality_score, issues ++ [TooQuiet])
         else (quality_score, issues ++ [TooLoud]) in
  let '(quality_score, issues) :=
    if fltb zero_crossing_rate (Fin 0.3)
    then ((quality_score + 25)%nat, issues)
    else (quality_score, issues ++ [HighNoise]) in
  let '(quality_score, issues) :=
    if fleb (Fin 1000) spectral_centroid && fleb spectral_centroid (Fin 4000)
    then ((quality_score + 25)%nat, issues)
    else (quality_score, issues ++ [PoorSpectrum]) in
  Some (quality_score, issues,
        Some (duration, rms_energy, zero_crossing_rate, spectral_centroid)).

Definition platform_check_audio_quality (w : World) (audio_path : path)
  : nat * list quality_issue * option (fnum * fnum * fnum * fnum) :=
  try_except (platform_check_audio_quality_body w audio_path)
             (0%nat, [AnalysisError], None).

(** [add_watermark] of [ethical_voice_app.py].  The time stamp and the
    user's identifier come from the clock and the session; they are the
    arguments [timestamp] and [user_id].  The result is the path and the
    watermark text, and the world afterwards. *)
Definition add_watermark (w : World) (audio_path : path)
  (timestamp user_id : string) : path * string * World :=
  match librosa_load w audio_path with
  | None => (audio_path, "WATERMARK_FAILED"%string, w)
  | Some (audio, sr) =>
      match py_truediv (of_nat (length audio)) (of_int sr) with
      | None => (audio_path, "WATERMARK_FAILED"%string, w)
      | Some duration =>
          let watermarked_audio := watermarked audio duration in
          let '(watermarked_path, w1) := named_temporary_file w in
          match sf_write watermarked_audio sr with
          | WriteFailed partial =>
              (audio_path, "WATERMARK_FAILED"%string,
               write_file watermarked_path partial w1)
          | Written data =>
              (watermarked_path,
               String.append "CLONED_"
                 (String.append timestamp (String.append "_" user_id)),
               write_file watermarked_path data w1)
          end
      end
  end.

End Applications.

(** Two matrices of one shape with finite entries that are related entry
    by entry. *)
Definition entrywise (P : R -> R -> Prop) (m m' : matrix) : Prop :=
  Forall2 (Forall2 (fun x y => exists a b, x = Fin a /\ y = Fin b /\ P a b)) m m'.

(** Every entry is finite and not negative, as a magnitude is. *)
Definition magnitudes (m : matrix) : Prop :=
  Forall (Forall (fun x => exists a, x = Fin a /\ 0 <= a)) m.

(** Every entry is a finite frequency that is not negative. *)
Definition frequencies (freqs : array) : Prop :=
  Forall (fun x => exists f, x = Fin f /\ 0 <= f) freqs.


(** A path that the caller can hold before a call: one of the user's, or a
    temporary file made earlier. *)
Definition older_path (w : World) (p : path) : Prop :=
  match p with
  | UserPath _ => True
  | TempPath n => (n < next_temp w)%nat
  end.

(** The small instance with a pitch tracker that finds no voiced frame. *)
Definition unvoiced_lib : Lib := {|
  cmatrix := @cmatrix demo_lib;
  librosa_decode := @librosa_decode demo_lib;
  librosa_pyin := fun _ => Some ([NaN], [false]);
  librosa_pitch_shift := @librosa_pitch_shift demo_lib;
  librosa_stft := @librosa_stft demo_lib;
  librosa_istft := @librosa_istft demo_lib;
  magnitude_of := @magnitude_of demo_lib;
  phase_of := @phase_of demo_lib;
  from_polar := @from_polar demo_lib;
  librosa_fft_frequencies := @librosa_fft_frequencies demo_lib;
  librosa_spectral_centroid := @librosa_spectral_centroid demo_lib;
  librosa_spectral_rolloff := @librosa_spectral_rolloff demo_lib;
  librosa_zero_crossing_rate := @librosa_zero_crossing_rate demo_lib;
  librosa_mfcc := @librosa_mfcc demo_lib;
  scipy_butter := @scipy_butter demo_lib;
  scipy_filtfilt := @scipy_filtfilt demo_lib;
  pyttsx3_render := @pyttsx3_render demo_lib;
  sf_write := @sf_write demo_lib
|}.

(** The small instance with a speech engine that leaves its file empty,
    and with one that raises. *)
Definition with_speech (render : string -> exc string) : Lib := {|
  cmatrix := @cmatrix demo_lib;
  librosa_decode := @librosa_decode demo_lib;
  librosa_pyin := @librosa_pyin demo_lib;
  librosa_pitch_shift := @librosa_pitch_shift demo_lib;
  librosa_stft := @librosa_stft demo_lib;
  librosa_istft := @librosa_istft demo_lib;
  magnitude_of := @magnitude_of demo_lib;
  phase_of := @phase_of demo_lib;
  from_polar := @from_polar demo_lib;
  librosa_fft_frequencies := @librosa_fft_frequencies demo_lib;
  librosa_spectral_centroid := @librosa_spectral_centroid demo_lib;
  librosa_spectral_rolloff := @librosa_spectral_rolloff demo_lib;
  librosa_zero_crossing_rate := @librosa_zero_crossing_rate demo_lib;
  librosa_mfcc := @librosa_mfcc demo_lib;
  scipy_butter := @scipy_butter demo_lib;
  scipy_filtfilt := @scipy_filtfilt demo_lib;
  pyttsx3_render := render;
  sf_write := @sf_write demo_lib
|}.

Definition silent_speech_lib : Lib := with_speech (fun _ => Some EmptyString).
Definition broken_speech_lib : Lib := with_speech (fun _ => raise).

(** The lines of [show_processing_page] in [ethical_voice_app.py] that
    clone and then watermark: the path kept as [generated_audio], if any. *)
Section Generation.

Context {L : Lib}.

Definition clone_and_watermark (e : Engine) (w : World)
  (text : string) (voice_sample_path : path) (timestamp user_id : string)
  : option path * Engine * World :=
  match clone_voice e w text voice_sample_path with
  | (Some cloned_audio_path, e1, w1) =>
      let '(watermarked_path, _, w2) :=
        add_watermark w1 cloned_audio_path timestamp user_id in
      (Some watermarked_path, e1, w2)
  | (None, e1, w1) =>
      (None, e1, show (UiError "Voice cloning failed. Please try again.") w1)
  end.

End Generation.

(** The first half of the bins of [np.fft.fftfreq] for a waveform at the
    rate [sr], as [estimate_formants] computes them. *)
Definition positive_freqs_of (audio : waveform) (sr : Z) : array :=
  firstn (length audio / 2)
    (map (fun j => fmul j (Fin (1 / (INR (length audio) * (1 / IZR sr)))))
         (map of_nat (seq 0 ((length audio - 1) / 2 + 1))
          ++ map (fun j => fneg (of_nat (length audio / 2 - j)))
                 (seq 0 (length audio / 2)))).

(** The frequencies of the strongest qualifying peaks, strongest first:
    the list that [estimate_formants] sorts. *)
Definition chosen_formants (audio : waveform) (sr : Z) (n_formants : nat)
  : array :=
  take_indices
    (take_indices (positive_freqs_of audio sr) (qualifying_peaks audio))
    (firstn n_formants
       (rev (np_argsort (take_indices (positive_power_of audio)
                                      (qualifying_peaks audio))))).

(* ------------------------------------------------------------------ *)
(** ** Noise removal and the placeholder tone                          *)
(* ------------------------------------------------------------------ *)

(** Python's [int] on a float: the integer part towards zero; [None] for
    NaN and the infinities, on which [int] raises. *)
Definition py_int (x : fnum) : exc Z :=
  match x with
  | Fin r => Some (if Rlt_b r 0 then (- Int_part (- r))%Z else Int_part r)
  | _ => raise
  end.

(** One row of [np.maximum(magnitude - alpha * noise_spectrum,
    0.1 * magnitude)] with [alpha = 2.0]. *)
Definition subtract_noise (row : array) (noise : fnum) : array :=
  map (fun m => np_maximum (fsub m (fmul (Fin 2) noise)) (fmul (Fin 0.1) m)) row.

(** The noise floor of a row is the mean of its first [noise_frames]
    entries ([np.mean(magnitude[:, :noise_frames], axis=1, keepdims=True)]). *)
Definition spectral_gate (noise_frames : nat) (magnitude : matrix) : matrix :=
  map (fun row => subtract_noise row (np_mean (firstn noise_frames row)))
      magnitude.

(** [np.int16] of a float: towards zero, then the low 16 bits as a signed
    number.  The result for NaN and the infinities depends on the platform
    and is left undefined. *)
Definition wrap_int16 (z : Z) : Z := ((z + 32768) mod 65536 - 32768)%Z.

Definition astype_int16 (x : fnum) : option Z :=
  match py_int x with
  | Some z => Some (wrap_int16 z)
  | None => None
  end.

(** [min(len(text) * 0.1, 10)]. *)
Definition placeholder_duration (text : string) : fnum :=
  py_min (fmul (of_nat (String.length text)) (Fin 0.1)) (Fin 10).

(** The tone of [create_placeholder_audio]: 440 Hz at amplitude 0.3,
    fading out. *)
Definition placeholder_tone (duration : fnum) (num : nat) : array :=
  let t := np_linspace (Fin 0) duration num in
  map (fun ti =>
         fmul (fmul (Fin 0.3) (fsin (fmul (Fin (2 * PI * 440)) ti)))
              (fexp (fmul (fneg ti) (Fin 0.5))))
      t.

(** The samples that [create_placeholder_audio] writes. *)
Definition placeholder_samples (text : string) : exc (list (option Z)) :=
  let duration := placeholder_duration text in
  let sample_rate := 22050%Z in
  num <- py_int (fmul (of_int sample_rate) duration) ;;
  let audio := placeholder_tone duration (Z.to_nat num) in
  Some (map (fun x => astype_int16 (fmul x (Fin 32767))) audio).

Section NoiseRemoval.

Context {L : Lib}.

(** [remove_noise] of [ethical_voice_cloning_app.py] up to the write. *)
Definition remove_noise_body (w : World) (audio_path : path)
  : exc (waveform * Z) :=
  '(audio, sr) <- librosa_load w audio_path ;;
  stft <- librosa_stft audio N_FFT HOP_LENGTH ;;
  let magnitude := magnitude_of stft in
  let phase := phase_of stft in
  noise_frames <- py_int (fdiv (fmul (Fin 0.5) (of_int sr)) (Fin 512)) ;;
  let cleaned_magnitude := spectral_gate (Z.to_nat noise_frames) magnitude in
  cleaned_audio <- librosa_istft (from_polar cleaned_magnitude phase) HOP_LENGTH ;;
  Some (cleaned_audio, sr).

Definition remove_noise (w : World) (audio_path : path)
  : path * bool * World :=
  match remove_noise_body w audio_path with
  | None => (audio_path, false, show (UiError "Noise removal failed") w)
  | Some (cleaned_audio, sr) =>
      let '(cleaned_path, w1) := named_temporary_file w in
      match sf_write cleaned_audio sr with
      | WriteFailed partial =>
          (audio_path, false,
           show (UiError "Noise removal failed")
                (write_file cleaned_path partial w1))
      | Written data => (cleaned_path, true, write_file cleaned_path data w1)
      end
  end.

End NoiseRemoval.


(* ------------------------------------------------------------------ *)
(** * Properties                                                       *)
(* ------------------------------------------------------------------ *)

(** ** Comparisons and arithmetic *)

Lemma Rlt_b_true (a b : R) : a < b -> Rlt_b a b = true.
Proof. intros H. unfold Rlt_b. destruct (Rlt_dec a b); [reflexivity | contradiction]. Qed.

Lemma Rlt_b_false (a b : R) : ~ a < b -> Rlt_b a b = false.
Proof. intros H. unfold Rlt_b. destruct (Rlt_dec a b); [contradiction | reflexivity]. Qed.

Lemma Rle_b_true (a b : R) : a <= b -> Rle_b a b = true.
Proof. intros H. unfold Rle_b. destruct (Rle_dec a b); [reflexivity | contradiction]. Qed.

Lemma Rle_b_false (a b : R) : ~ a <= b -> Rle_b a b = false.
Proof. intros H. unfold Rle_b. destruct (Rle_dec a b); [contradiction | reflexivity]. Qed.

Lemma Req_b_true (a b : R) : a = b -> Req_b a b = true.
Proof. intros H. unfold Req_b. destruct (Req_dec_T a b); [reflexivity | contradiction]. Qed.

Lemma Req_b_false (a b : R) : a <> b -> Req_b a b = false.
Proof. intros H. unfold Req_b. destruct (Req_dec_T a b); [contradiction | reflexivity]. Qed.

Lemma Rlt_b_iff (a b : R) : Rlt_b a b = true <-> a < b.
Proof.
  unfold Rlt_b. destruct (Rlt_dec a b); split; intros; auto; discriminate.
Qed.

Lemma Rle_b_iff (a b : R) : Rle_b a b = true <-> a <= b.
Proof.
  unfold Rle_b. destruct (Rle_dec a b); split; intros; auto; discriminate.
Qed.

(** Case analysis on every comparison of reals in the goal and the
    hypotheses, closing the branches that linear arithmetic refutes. *)
Ltac real_cases :=
  unfold Rlt_b, Rle_b, Req_b in *;
  repeat match goal with
    | |- context [Rlt_dec ?a ?b] => destruct (Rlt_dec a b)
    | |- context [Rle_dec ?a ?b] => destruct (Rle_dec a b)
    | |- context [Req_dec_T ?a ?b] => destruct (Req_dec_T a b)
    | H : context [Rlt_dec ?a ?b] |- _ => destruct (Rlt_dec a b)
    | H : context [Rle_dec ?a ?b] |- _ => destruct (Rle_dec a b)
    | H : context [Req_dec_T ?a ?b] |- _ => destruct (Req_dec_T a b)
    end;
  try discriminate; try lra.

Lemma Fin_eq (a b : R) : a = b -> Fin a = Fin b.
Proof. intros ->. reflexivity. Qed.

Lemma fgtb_Fin (a b : R) : fgtb (Fin a) (Fin b) = true <-> b < a.
Proof. unfold fgtb. simpl. apply Rlt_b_iff. Qed.


Lemma fdiv_Fin (a b : R) : b <> 0 -> fdiv (Fin a) (Fin b) = Fin (a / b).
Proof. intros H. simpl. now rewrite (Req_b_false _ _ H). Qed.

Lemma fdiv_zero_zero (a : R) : a = 0 -> fdiv (Fin a) (Fin 0) = NaN.
Proof.
  intros ->. simpl. rewrite (Req_b_true 0 0 eq_refl). unfold inf_times.
  rewrite !Rlt_b_false by lra. reflexivity.
Qed.

(** ** Clamping *)

Lemma np_clip_Fin (x lo hi : R) :
  lo <= hi ->
  np_clip (Fin x) (Fin lo) (Fin hi) = Fin (Rmin (Rmax x lo) hi).
Proof.
  intros Hlh. unfold np_clip, np_maximum, np_minimum. simpl.
  unfold Rmin, Rmax.
  destruct (Rle_dec x lo); real_cases; simpl; real_cases;
    try reflexivity; apply Fin_eq; lra.
Qed.

Lemma Rmin_Rmax_bounds (x lo hi : R) :
  lo <= hi -> lo <= Rmin (Rmax x lo) hi <= hi.
Proof.
  intros H. unfold Rmin, Rmax.
  destruct (Rle_dec x lo); destruct (Rle_dec _ hi); lra.
Qed.


Lemma np_clip_nan (lo hi : fnum) : np_clip NaN lo hi = NaN.
Proof. reflexivity. Qed.

(** ** Semitones *)


Lemma ln_monotone (x y : R) : 0 < x -> x <= y -> ln x <= ln y.
Proof.
  intros Hx [Hlt | ->]; [| lra]. left. now apply ln_increasing.
Qed.


Section StageFacts.

Context {L : Lib}.

(** ** The clamps of the three ratios *)

Lemma pitch_stage_voiced (audio : waveform) (sr : Z) (tf : Features)
  (t c : R) (f0 : array) (voiced : list bool) :
  f0_mean tf = Some (Fin t) ->
  librosa_pyin audio = Some (f0, voiced) ->
  np_nanmean (mask f0 voiced) = Fin c -> 0 < c ->
  apply_pitch_transformation audio sr tf =
    try_except
      (librosa_pitch_shift audio sr
         (fmul (Fin 12) (flog2 (np_clip (fdiv (Fin t) (Fin c)) (Fin 0.5) (Fin 2))))
         24)
      audio.
Proof.
  intros Ht Hp Hc Hpos.
  unfold apply_pitch_transformation, apply_pitch_transformation_body.
  rewrite Ht. cbn [dict_item bind isnan]. rewrite Hp. cbn [bind].
  rewrite Hc. cbn [isnan orb fleb].
  rewrite (Rle_b_false c 0) by lra. reflexivity.
Qed.

Lemma envelope_stage_positive (audio : waveform) (sr : Z) (tf : Features)
  (t c : R) (S : cmatrix) (cents : array) :
  spectral_centroid_mean tf = Some (Fin t) -> 0 < t ->
  librosa_stft audio N_FFT HOP_LENGTH = Some S ->
  librosa_spectral_centroid audio sr = Some cents ->
  np_mean cents = Fin c -> 0 < c ->
  modify_spectral_envelope audio sr tf =
    try_except
      (magnitude <-
         scale_rows (magnitude_of S)
           (envelope_gain (np_clip (fdiv (Fin t) (Fin c)) (Fin 0.8) (Fin 1.2))
              (gaussian_weights (librosa_fft_frequencies sr N_FFT) (Fin t) (Fin 0.3))) ;;
       librosa_istft (from_polar magnitude (phase_of S)) HOP_LENGTH)
      audio.
Proof.
  intros Ht Htpos HS Hcents Hc Hcpos.
  unfold modify_spectral_envelope, modify_spectral_envelope_body.
  rewrite HS. cbn [bind]. rewrite Hcents. cbn [bind]. rewrite Ht.
  cbn [dict_item bind]. rewrite Hc.
  rewrite (proj2 (fgtb_Fin c 0) Hcpos), (proj2 (fgtb_Fin t 0) Htpos).
  reflexivity.
Qed.



End StageFacts.

Lemma demo_mean_singleton (v : R) : np_mean [Fin v] = Fin ((0 + v) / 1).
Proof.
  unfold np_mean, np_sum. cbn [fold_left fadd length of_nat INR].
  apply fdiv_Fin. lra.
Qed.


Lemma demo_energy_singleton (v : R) :
  np_mean (np_square [Fin v]) = Fin ((0 + v * v) / 1).
Proof. cbn [np_square map fpow2 fmul]. apply demo_mean_singleton. Qed.


(** ** Stages whose target value is undefined or not positive *)

Lemma not_positive_cases (x : fnum) :
  not_positive x = true <->
  x = NaN \/ x = NInf \/ exists r, x = Fin r /\ r <= 0.
Proof.
  unfold not_positive, fgtb. destruct x as [| | |r]; simpl; split; intros H;
    try discriminate; auto.
  - destruct H as [H | [H | (r & H & _)]]; discriminate.
  - right; right. exists r. split; [reflexivity |].
    apply negb_true_iff in H. unfold Rlt_b in H.
    destruct (Rlt_dec 0 r); [discriminate | lra].
  - destruct H as [H | [H | (r' & H & Hr)]]; try discriminate.
    injection H as ->. now rewrite Rlt_b_false by lra.
Qed.

Lemma not_positive_guard (x : fnum) :
  not_positive x = true -> fgtb x (Fin 0) = false.
Proof. unfold not_positive. apply negb_true_iff. Qed.

Lemma sqrt_square_over_one (v : R) : sqrt ((0 + v * v) / 1) = Rabs v.
Proof.
  replace ((0 + v * v) / 1) with (Rsqr v) by (unfold Rsqr; field).
  apply sqrt_Rsqr_abs.
Qed.

(** A one-sample signal that is not silent is brought to an RMS level of
    0.1. *)
Lemma normalise_rms_singleton (v : R) :
  v <> 0 -> normalise_rms [Fin v] = [Fin (v / Rabs v * 0.1)].
Proof.
  intros Hv. unfold normalise_rms. rewrite demo_energy_singleton.
  assert (Habs : 0 < Rabs v) by now apply Rabs_pos_lt.
  cbn [fsqrt]. rewrite sqrt_square_over_one.
  assert (Hsq : 0 <= (0 + v * v) / 1) by nra.
  rewrite (Rlt_b_false _ 0) by lra.
  rewrite (proj2 (fgtb_Fin (Rabs v) 0) Habs).
  cbn [divide scale map]. rewrite fdiv_Fin by lra. reflexivity.
Qed.

Lemma dynamics_skips_energy_scaling (audio : waveform) (tf : Features) (t : fnum) :
  energy tf = Some t -> not_positive t = true ->
  match_voice_dynamics audio tf = normalise_rms audio.
Proof.
  intros Ht Hnp. unfold match_voice_dynamics. rewrite Ht. cbn [dict_get].
  rewrite (not_positive_guard t Hnp), andb_false_r. reflexivity.
Qed.

(** C1, as stated, fails.  The dynamics stage does not return its input
    when the target energy is zero, NaN or absent: the one-sample signal
    [1.0] comes back as [0.1]. *)
Lemma dynamics_changes_input_without_target :
  energy (with_energy (Some (Fin 0))) = Some (Fin 0)
  /\ match_voice_dynamics [Fin 1] (with_energy (Some (Fin 0))) <> [Fin 1]
  /\ match_voice_dynamics [Fin 1] (with_energy (Some NaN)) <> [Fin 1]
  /\ match_voice_dynamics [Fin 1] (with_energy None) <> [Fin 1].
Proof.
  assert (Hneq : normalise_rms [Fin 1] <> [Fin 1]).
  { rewrite normalise_rms_singleton by lra. rewrite Rabs_R1.
    intros H. injection H as H. lra. }
  split; [reflexivity |]. split; [| split].
  - rewrite (dynamics_skips_energy_scaling _ _ (Fin 0)); [exact Hneq | reflexivity |].
    apply not_positive_cases. right; right. exists 0. split; [reflexivity | lra].
  - rewrite (dynamics_skips_energy_scaling _ _ NaN); [exact Hneq | reflexivity | reflexivity].
  - unfold match_voice_dynamics. cbn [with_energy energy dict_get].
    rewrite demo_energy_singleton.
    assert (Hpos : 0 < (0 + 1 * 1) / 1) by lra.
    rewrite (proj2 (fgtb_Fin _ 0) Hpos). cbn [andb].
    unfold energy_ratio. rewrite fdiv_Fin by lra.
    cbn [fsqrt]. rewrite (Rlt_b_false _ 0) by lra.
    rewrite np_clip_Fin by lra.
    replace ((0 + 1 * 1) / 1 / ((0 + 1 * 1) / 1)) with 1 by field.
    rewrite sqrt_1.
    replace (Rmin (Rmax 1 0.3) 3) with 1
      by (unfold Rmin, Rmax; repeat destruct (Rle_dec _ _); lra).
    cbn [scale map fmul].
    rewrite normalise_rms_singleton by lra.
    replace (1 * 1) with 1 by lra. rewrite Rabs_R1.
    intros H. injection H as H. lra.
Qed.

Section SkippedAdjustments.

Context {L : Lib}.

Lemma pitch_stage_undefined_target (audio : waveform) (sr : Z) (tf : Features) :
  f0_mean tf = None \/ f0_mean tf = Some NaN ->
  apply_pitch_transformation audio sr tf = audio.
Proof.
  unfold apply_pitch_transformation, apply_pitch_transformation_body.
  intros [H | H]; rewrite H; reflexivity.
Qed.

Lemma envelope_stage_absent_target (audio : waveform) (sr : Z) (tf : Features) :
  spectral_centroid_mean tf = None ->
  modify_spectral_envelope audio sr tf = audio.
Proof.
  intros H. unfold modify_spectral_envelope, modify_spectral_envelope_body.
  rewrite H.
  destruct (librosa_stft audio N_FFT HOP_LENGTH); cbn [bind try_except];
    [| reflexivity].
  destruct (librosa_spectral_centroid audio sr); reflexivity.
Qed.

Lemma envelope_stage_skipped (audio : waveform) (sr : Z) (tf : Features) (t : fnum) :
  spectral_centroid_mean tf = Some t -> not_positive t = true ->
  modify_spectral_envelope audio sr tf =
    resynthesised audio N_FFT HOP_LENGTH (librosa_spectral_centroid audio sr).
Proof.
  intros Ht Hnp.
  unfold modify_spectral_envelope, modify_spectral_envelope_body, resynthesised.
  rewrite Ht.
  destruct (librosa_stft audio N_FFT HOP_LENGTH); cbn [bind]; [| reflexivity].
  destruct (librosa_spectral_centroid audio sr); cbn [bind dict_item];
    [| reflexivity].
  rewrite (not_positive_guard t Hnp), andb_false_r. reflexivity.
Qed.

Lemma emphasise_nothing (magnitude : matrix) (freqs fs : array) :
  forallb not_positive fs = true ->
  emphasise_formants magnitude freqs fs = Some magnitude.
Proof.
  induction fs as [| f fs IH]; intros H; [reflexivity |].
  cbn [forallb] in H. apply andb_true_iff in H as [Hf Hfs].
  cbn [emphasise_formants]. rewrite (not_positive_guard f Hf). now apply IH.
Qed.

Lemma formant_stage_skipped (audio : waveform) (sr : Z) (tf : Features) :
  (formants tf = None \/
   exists fs, formants tf = Some fs /\ forallb not_positive (firstn 3 fs) = true) ->
  apply_formant_shifting audio sr tf = resynthesised audio 2048 512 (Some tt).
Proof.
  intros H.
  unfold apply_formant_shifting, apply_formant_shifting_body, resynthesised.
  destruct (librosa_stft audio 2048 512) as [stft |]; cbn [bind]; [| reflexivity].
  destruct H as [H | (fs & H & Hfs)]; rewrite H; [reflexivity |].
  destruct (0 <? length fs)%nat; [| reflexivity].
  rewrite (emphasise_nothing _ _ _ Hfs). reflexivity.
Qed.

Lemma texture_stage_skipped (audio : waveform) (sr : Z) (tf : Features) (t : fnum) :
  spectral_centroid_mean tf = Some t -> not_positive t = true ->
  adjust_voice_texture audio sr tf =
    resynthesised audio N_FFT HOP_LENGTH (librosa_spectral_centroid audio sr).
Proof.
  intros Ht Hnp.
  unfold adjust_voice_texture, adjust_voice_texture_body, resynthesised.
  rewrite Ht. cbn [dict_get].
  destruct (librosa_stft audio N_FFT HOP_LENGTH); cbn [bind]; [| reflexivity].
  destruct (librosa_spectral_centroid audio sr); cbn [bind]; [| reflexivity].
  rewrite (not_positive_guard t Hnp), andb_false_r. reflexivity.
Qed.

(** C1, amended.  A stage whose target value is undefined or not positive
    leaves out its adjustment.  The pitch stage returns its input when
    [f0_mean] is NaN or absent.  The spectral envelope stage returns its
    input when the centroid is absent.  With a centroid that is NaN or not
    positive (envelope and texture stages), or with formants that are
    absent, empty or not positive among the first three, the stage leaves
    the magnitudes as they are and returns the inverse transform of the
    transform of its input, or the input when a library call raises.  With
    an energy that is NaN or not positive, the dynamics stage leaves out
    the energy scaling and returns its input brought to an RMS level of
    0.1. *)
Theorem undefined_target_skips_adjustment :
  (forall (audio : waveform) (sr : Z) (tf : Features),
      f0_mean tf = None \/ f0_mean tf = Some NaN ->
      apply_pitch_transformation audio sr tf = audio)
  /\
  (forall (audio : waveform) (sr : Z) (tf : Features),
      spectral_centroid_mean tf = None ->
      modify_spectral_envelope audio sr tf = audio)
  /\
  (forall (audio : waveform) (sr : Z) (tf : Features) (t : fnum),
      spectral_centroid_mean tf = Some t -> not_positive t = true ->
      modify_spectral_envelope audio sr tf =
        resynthesised audio N_FFT HOP_LENGTH (librosa_spectral_centroid audio sr)
      /\
      adjust_voice_texture audio sr tf =
        resynthesised audio N_FFT HOP_LENGTH (librosa_spectral_centroid audio sr))
  /\
  (forall (audio : waveform) (sr : Z) (tf : Features),
      (formants tf = None \/
       exists fs, formants tf = Some fs
                  /\ forallb not_positive (firstn 3 fs) = true) ->
      apply_formant_shifting audio sr tf = resynthesised audio 2048 512 (Some tt))
  /\
  (forall (audio : waveform) (tf : Features) (t : fnum),
      energy tf = Some t -> not_positive t = true ->
      match_voice_dynamics audio tf = normalise_rms audio).
Proof.
  repeat split.
  - apply pitch_stage_undefined_target; assumption.
  - apply envelope_stage_absent_target; assumption.
  - eapply envelope_stage_skipped; eassumption.
  - eapply texture_stage_skipped; eassumption.
  - apply formant_stage_skipped; assumption.
  - eapply dynamics_skips_energy_scaling; eassumption.
Qed.

(** The two cases that the amended statement leaves out.  A target pitch
    that is finite and not positive is clamped like any other: the stage
    shifts the voiced input down by an octave. *)
Lemma pitch_stage_nonpositive_target (audio : waveform) (sr : Z) (tf : Features)
  (t c : R) (f0 : array) (voiced : list bool) :
  f0_mean tf = Some (Fin t) -> t <= 0 ->
  librosa_pyin audio = Some (f0, voiced) ->
  np_nanmean (mask f0 voiced) = Fin c -> 0 < c ->
  apply_pitch_transformation audio sr tf =
    try_except
      (librosa_pitch_shift audio sr (fmul (Fin 12) (flog2 (Fin 0.5))) 24)
      audio.
Proof.
  intros Ht Hle Hp Hc Hpos.
  rewrite (pitch_stage_voiced audio sr tf t c f0 voiced) by assumption.
  rewrite fdiv_Fin by lra. rewrite np_clip_Fin by lra.
  assert (Hq : t / c <= 0).
  { unfold Rdiv. assert (0 < / c) by now apply Rinv_0_lt_compat. nra. }
  replace (Rmin (Rmax (t / c) 0.5) 2) with 0.5; [reflexivity |].
  unfold Rmin, Rmax. repeat destruct (Rle_dec _ _); lra.
Qed.

(** An absent centroid is read as 2000 Hz by the texture stage. *)
Lemma texture_stage_absent_target (audio : waveform) (sr : Z) (tf : Features) :
  spectral_centroid_mean tf = None ->
  adjust_voice_texture audio sr tf =
    adjust_voice_texture audio sr
      (mkFeatures (f0_mean tf) (f0_std tf) (Some (Fin 2000))
                  (spectral_rolloff_mean tf) (zero_crossing_rate_mean tf)
                  (mfccs_mean tf) (formants tf) (duration tf) (energy tf)).
Proof.
  intros H. unfold adjust_voice_texture, adjust_voice_texture_body.
  rewrite H. reflexivity.
Qed.

End SkippedAdjustments.

(** The skipped adjustments on a concrete signal and on dictionaries that
    lack the key or hold NaN or zero under it. *)
Lemma undefined_target_skips_adjustment_witness :
  @apply_pitch_transformation demo_lib [Fin 1] SR
     (mkFeatures (Some NaN) None None None None None None None None) = [Fin 1]
  /\ @modify_spectral_envelope demo_lib [Fin 1] SR
       (mkFeatures None None None None None None None None None) = [Fin 1]
  /\ (@modify_spectral_envelope demo_lib [Fin 1] SR
        (mkFeatures None None (Some NaN) None None None None None None) =
      @resynthesised demo_lib _ [Fin 1] N_FFT HOP_LENGTH
        (@librosa_spectral_centroid demo_lib [Fin 1] SR)
      /\
      @adjust_voice_texture demo_lib [Fin 1] SR
        (mkFeatures None None (Some NaN) None None None None None None) =
      @resynthesised demo_lib _ [Fin 1] N_FFT HOP_LENGTH
        (@librosa_spectral_centroid demo_lib [Fin 1] SR))
  /\ @apply_formant_shifting demo_lib [Fin 1] SR
       (mkFeatures None None None None None None (Some [Fin 0; NaN]) None None) =
     @resynthesised demo_lib _ [Fin 1] 2048 512 (Some tt)
  /\ match_voice_dynamics [Fin 1] (with_energy (Some NaN)) = normalise_rms [Fin 1].
Proof.
  destruct (@undefined_target_skips_adjustment demo_lib)
    as (Hpitch & Habsent & Hcentroid & Hformant & Hdyn).
  split; [| split; [| split; [| split]]].
  - apply Hpitch. right. reflexivity.
  - apply Habsent. reflexivity.
  - apply (Hcentroid _ _ _ NaN); reflexivity.
  - apply Hformant. right. exists [Fin 0; NaN]. split; [reflexivity |].
    unfold not_positive, fgtb. cbn [firstn forallb fltb negb andb].
    rewrite Rlt_b_false by lra. reflexivity.
  - apply (Hdyn _ _ NaN); reflexivity.
Defined.

(** ** Formant estimation *)












Lemma insert_sorted_length (x : fnum) (l : array) :
  length (insert_sorted x l) = S (length l).
Proof.
  induction l as [| y l IH]; [reflexivity |].
  cbn [insert_sorted]. destruct (fltb x y); cbn [length]; [reflexivity | now rewrite IH].
Qed.

Lemma py_sorted_length (a : array) : length (py_sorted a) = length a.
Proof.
  unfold py_sorted.
  assert (H : forall acc, length (fold_left (fun acc x => insert_sorted x acc) a acc)
                          = (length a + length acc)%nat).
  { induction a as [| x a IH]; intros acc; [reflexivity |].
    cbn [fold_left length]. rewrite IH, insert_sorted_length. lia. }
  rewrite H. cbn [length]. lia.
Qed.

Lemma insert_by_length (key : nat -> fnum) (i : nat) (l : list nat) :
  length (insert_by key i l) = S (length l).
Proof.
  induction l as [| j l IH]; [reflexivity |].
  cbn [insert_by]. destruct (sort_le (key j) (key i)); cbn [length];
    [now rewrite IH | reflexivity].
Qed.

Lemma np_argsort_length (a : array) : length (np_argsort a) = length a.
Proof.
  unfold np_argsort. generalize (fun j : nat => nth j a NaN) as key. intros key.
  assert (H : forall (l acc : list nat),
             length (fold_left (fun acc i => insert_by key i acc) l acc)
             = (length l + length acc)%nat).
  { induction l as [| i l IH]; intros acc; [reflexivity |].
    cbn [fold_left length]. rewrite IH, insert_by_length. lia. }
  rewrite H, length_seq. cbn [length]. lia.
Qed.

Lemma IZR_nonzero (z : Z) : z <> 0%Z -> IZR z <> 0.
Proof. intros H Hz. apply H. now apply eq_IZR_R0. Qed.

Lemma INR_nonzero (n : nat) : n <> 0%nat -> INR n <> 0.
Proof. intros H. now apply not_0_INR. Qed.

(** With at least two samples and a sample rate that is not zero, nothing
    in the body raises. *)
Lemma estimate_formants_body_runs (audio : waveform) (sr : Z) (n_formants : nat) :
  (2 <= length audio)%nat -> sr <> 0%Z ->
  exists positive_freqs,
    estimate_formants_body audio sr n_formants =
      Some (py_sorted
              (take_indices
                 (take_indices positive_freqs (qualifying_peaks audio))
                 (firstn n_formants
                    (rev (np_argsort
                            (take_indices (positive_power_of audio)
                                          (qualifying_peaks audio))))))).
Proof.
  intros Hlen Hsr. unfold estimate_formants_body.
  assert (Hr : IZR sr <> 0) by now apply IZR_nonzero.
  assert (Hn : INR (length audio) <> 0) by (apply INR_nonzero; lia).
  unfold py_truediv at 1. unfold of_int. cbn [feqb]. rewrite (Req_b_false _ _ Hr).
  cbn [bind]. rewrite fdiv_Fin by assumption.
  unfold np_fftfreq, py_truediv, of_nat at 1. cbn [fmul feqb].
  assert (Hprod : INR (length audio) * (1 / IZR sr) <> 0).
  { apply Rmult_integral_contrapositive_currified; [assumption |].
    unfold Rdiv. rewrite Rmult_1_l. now apply Rinv_neq_0_compat. }
  rewrite (Req_b_false _ _ Hprod). cbn [bind].
  unfold np_fft. destruct audio as [| x audio']; [cbn in Hlen; lia |].
  set (audio := x :: audio') in *. cbn [bind].
  rewrite length_map, length_map, length_seq.
  fold (positive_power_of audio).
  assert (Hpp : length (positive_power_of audio) = (length audio / 2)%nat).
  { unfold positive_power_of. rewrite length_firstn, !length_map, length_seq.
    apply Nat.min_l. apply Nat.Div0.div_le_upper_bound. lia. }
  unfold qualifying_peaks.
  destruct (positive_power_of audio) as [| p rest] eqn:Epp.
  - cbn [length] in Hpp. symmetry in Hpp.
    apply Nat.div_small_iff in Hpp; lia.
  - cbn [np_max bind]. eexists. reflexivity.
Qed.

Lemma estimate_formants_count (audio : waveform) (sr : Z) (n_formants : nat) :
  (2 <= length audio)%nat -> sr <> 0%Z ->
  length (estimate_formants audio sr n_formants) =
    Nat.min n_formants (length (qualifying_peaks audio)).
Proof.
  intros Hlen Hsr.
  destruct (estimate_formants_body_runs audio sr n_formants Hlen Hsr) as (pf & Hbody).
  unfold estimate_formants. rewrite Hbody. cbn [try_except].
  rewrite py_sorted_length. unfold take_indices at 1.
  rewrite length_map, length_firstn, length_rev, np_argsort_length.
  unfold take_indices. now rewrite length_map.
Qed.

(** Fewer than two samples leave the positive half of the spectrum empty
    (or, without any sample, make [fftfreq] divide by zero): the handler
    returns the fallback. *)
Lemma estimate_formants_short (audio : waveform) (sr : Z) (n_formants : nat) :
  (length audio < 2)%nat ->
  estimate_formants audio sr n_formants = fallback_formants.
Proof.
  intros Hlen. unfold estimate_formants, estimate_formants_body.
  destruct (py_truediv (Fin 1) (of_int sr)) as [d |] eqn:Ed; [| reflexivity].
  cbn [bind].
  assert (Hd : exists r, d = Fin r).
  { unfold py_truediv, of_int in Ed. cbn [feqb] in Ed.
    destruct (Req_b (IZR sr) 0) eqn:E; [discriminate |].
    injection Ed as <-. cbn [fdiv]. rewrite E. eauto. }
  destruct Hd as (r & ->).
  destruct audio as [| x [| y rest]]; [| | cbn [length] in Hlen; lia].
  - unfold np_fftfreq, py_truediv, of_nat. cbn [length INR fmul feqb].
    rewrite Req_b_true by ring. reflexivity.
  - destruct (np_fftfreq (length [x]) (Fin r)); reflexivity.
Qed.






(** ** The quality enhancer *)

Lemma Rabs_within (c M : R) : Rabs c <= M -> - M <= c <= M.
Proof. unfold Rabs. destruct (Rcase_abs c); lra. Qed.

Lemma scaled_within (c M : R) :
  0 < M -> Rabs c <= M -> Rabs (c / M * 0.8) <= 0.8.
Proof.
  intros HM Hc. apply Rabs_within in Hc. apply Rabs_le.
  assert (Hi : 0 < / M) by now apply Rinv_0_lt_compat.
  assert (Hone : M * / M = 1) by (field; lra).
  unfold Rdiv. split; nra.
Qed.

Lemma np_sign_finite (r : R) : exists s, np_sign (Fin r) = Fin s.
Proof.
  cbn [np_sign]. destruct (Rlt_b 0 r); [eauto |]. destruct (Rlt_b r 0); eauto.
Qed.

Lemma compress_finite (a : array) :
  all_finite a -> all_finite (compress (Fin 0.1) (Fin 3) a).
Proof.
  unfold all_finite, compress. intros H. apply Forall_map.
  apply Forall_impl with (2 := H). intros x (r & ->).
  destruct (fgtb (fabs (Fin r)) (Fin 0.1)); [| eauto].
  destruct (np_sign_finite r) as (s & ->).
  cbn [fabs fsub fneg fadd fdiv]. rewrite Req_b_false by lra.
  cbn [fadd fmul]. eauto.
Qed.

(** The running maximum of finite values is finite and bounds them. *)
Lemma fold_maximum_finite (l : array) (r0 : R) :
  all_finite l ->
  exists M, fold_left np_maximum l (Fin r0) = Fin M
            /\ r0 <= M
            /\ Forall (fun x => exists r, x = Fin r /\ r <= M) l.
Proof.
  revert r0. induction l as [| x l IH]; intros r0 Hfin.
  - exists r0. cbn [fold_left]. repeat split; [lra | constructor].
  - inversion Hfin as [| x' l' (r & ->) Hl]; subst.
    cbn [fold_left]. unfold np_maximum at 2. cbn [isnan fltb].
    destruct (Rlt_b r0 r) eqn:E.
    + apply Rlt_b_iff in E.
      destruct (IH r Hl) as (M & HM & Hle & Hall).
      exists M. split; [exact HM |]. split; [lra |].
      constructor; [exists r; split; [reflexivity | lra] | exact Hall].
    + assert (Hr : r <= r0).
      { unfold Rlt_b in E. destruct (Rlt_dec r0 r); [discriminate | lra]. }
      destruct (IH r0 Hl) as (M & HM & Hle & Hall).
      exists M. split; [exact HM |]. split; [lra |].
      constructor; [exists r; split; [reflexivity | lra] | exact Hall].
Qed.

Lemma np_max_abs_finite (a : array) :
  all_finite a -> a <> [] ->
  exists M, np_max (np_abs a) = Some (Fin M)
            /\ Forall (fun x => exists r, x = Fin r /\ Rabs r <= M) a.
Proof.
  intros Hfin Hne. destruct a as [| x a]; [contradiction |].
  inversion Hfin as [| x' a' (r & ->) Ha]; subst.
  assert (Habs : all_finite (np_abs a)).
  { unfold all_finite, np_abs. apply Forall_map.
    apply Forall_impl with (2 := Ha). intros y (s & ->). cbn [fabs]. eauto. }
  destruct (fold_maximum_finite (np_abs a) (Rabs r) Habs) as (M & HM & Hle & Hall).
  exists M. cbn [np_abs map np_max fabs]. split; [now f_equal |].
  constructor; [exists r; split; [reflexivity | exact Hle] |].
  unfold np_abs in Hall. rewrite Forall_map in Hall.
  apply Forall_forall. intros y Hy.
  rewrite Forall_forall in Ha, Hall.
  destruct (Ha y Hy) as (s & ->). destruct (Hall (Fin s) Hy) as (s' & Hs' & Hle').
  cbn [fabs] in Hs'. injection Hs' as <-. eauto.
Qed.

Lemma compress_and_normalise_peak (filtered : waveform) :
  all_finite filtered ->
  peak_within 0.8 (try_except (compress_and_normalise filtered) filtered).
Proof.
  intros Hfin. destruct filtered as [| x rest] eqn:E.
  - cbn. constructor.
  - rewrite <- E in *. assert (Hne : filtered <> []) by (rewrite E; discriminate).
    clear E x rest. unfold compress_and_normalise.
    set (c := compress (Fin 0.1) (Fin 3) filtered).
    assert (Hc : all_finite c) by now apply compress_finite.
    assert (Hcne : c <> []).
    { unfold c, compress. destruct filtered; [contradiction | discriminate]. }
    destruct (np_max_abs_finite c Hc Hcne) as (M & HM & Hall).
    rewrite HM. cbn [bind]. destruct (fgtb (Fin M) (Fin 0)) eqn:EM; cbn [try_except].
    + apply fgtb_Fin in EM. unfold peak_within, scale, divide.
      rewrite map_map. apply Forall_map.
      apply Forall_impl with (2 := Hall). intros y (r & -> & Hr).
      rewrite fdiv_Fin by lra. cbn [fmul].
      exists (r / M * 0.8). split; [reflexivity | now apply scaled_within].
    + assert (HM0 : M <= 0).
      { unfold fgtb in EM. cbn [fltb] in EM. unfold Rlt_b in EM.
        destruct (Rlt_dec 0 M); [discriminate | lra]. }
      unfold peak_within. apply Forall_impl with (2 := Hall).
      intros y (r & -> & Hr). exists r. split; [reflexivity | lra].
Qed.

Section Enhancer.

Context {L : Lib}.

(** C5, amended.  When the low-pass filter runs and returns finite
    samples, every sample of the enhancer's output is at most 0.8 in
    absolute value.  When the filter design or the filter raises, the
    enhancer returns its input as it is. *)
Theorem enhancer_peak_bound :
  forall (audio : waveform) (sr : Z),
    (forall filtered : waveform,
        lowpass audio sr = Some filtered -> all_finite filtered ->
        peak_within 0.8 (enhance_voice_quality audio sr))
    /\
    (lowpass audio sr = None -> enhance_voice_quality audio sr = audio).
Proof.
  intros audio sr. split.
  - intros filtered Hlow Hfin. unfold enhance_voice_quality. rewrite Hlow.
    now apply compress_and_normalise_peak.
  - intros Hlow. unfold enhance_voice_quality. now rewrite Hlow.
Qed.

End Enhancer.

(** At 22050 Hz the cutoff is 8000 Hz, the design succeeds, and the
    instance's filter needs more than 15 samples. *)
Lemma demo_lowpass (audio : waveform) :
  @lowpass demo_lib audio SR =
    if (length audio <=? 15)%nat then None else Some audio.
Proof.
  unfold lowpass, py_truediv, of_int, SR. cbn [feqb].
  rewrite (Req_b_false 2 0) by lra. cbn [bind fdiv].
  rewrite (Req_b_false 2 0) by lra.
  unfold py_min. cbn [fmul fltb]. rewrite Rlt_b_false by lra.
  cbn [feqb]. rewrite (Req_b_false (22050 / 2) 0) by lra. cbn [bind fdiv].
  rewrite (Req_b_false (22050 / 2) 0) by lra.
  cbn [scipy_butter demo_lib demo_lib_with]. unfold demo_butter. cbn [fltb].
  rewrite !Rlt_b_true by lra.
  cbn [andb bind scipy_filtfilt demo_lib demo_lib_with]. unfold demo_filtfilt.
  reflexivity.
Qed.

Lemma fold_maximum_nan (l : array) : fold_left np_maximum l NaN = NaN.
Proof. induction l as [| x l IH]; [reflexivity | exact IH]. Qed.

(** A NaN sample stays NaN through the compressor and keeps the
    normalisation from running. *)
Lemma compress_and_normalise_nan (rest : waveform) :
  exists tail, compress_and_normalise (NaN :: rest) = Some (NaN :: tail).
Proof.
  unfold compress_and_normalise, fgtb.
  cbn [compress map np_abs np_max bind fabs fltb].
  rewrite fold_maximum_nan. cbn [fltb]. eexists. reflexivity.
Qed.

(** C5, as stated, fails.  The filter rejects a one-sample waveform, the
    handler returns the input, and its peak of 1.0 exceeds 0.8.  And a
    waveform with a NaN sample that passes the filter comes out with the
    NaN in it. *)
Lemma enhancer_peak_not_bounded :
  (@enhance_voice_quality demo_lib [Fin 1] SR = [Fin 1]
   /\ ~ peak_within 0.8 (@enhance_voice_quality demo_lib [Fin 1] SR))
  /\ ~ peak_within 0.8
        (@enhance_voice_quality demo_lib (NaN :: repeat (Fin 1) 15) SR).
Proof.
  assert (He : @enhance_voice_quality demo_lib [Fin 1] SR = [Fin 1]).
  { unfold enhance_voice_quality. rewrite demo_lowpass. reflexivity. }
  split; [split; [exact He |] |].
  - rewrite He. intros H.
    inversion H as [| x l (r & Hr & Hle) _]; subst.
    injection Hr as <-. rewrite Rabs_R1 in Hle. lra.
  - unfold enhance_voice_quality. rewrite demo_lowpass.
    cbn [length repeat Nat.leb].
    destruct (compress_and_normalise_nan (repeat (Fin 1) 15)) as (tail & Ht).
    cbn [repeat] in Ht. rewrite Ht. cbn [try_except]. intros H.
    inversion H as [| x l (r & Hr & _) _]. discriminate.
Qed.

(** Sixteen samples of 2.0 pass the filter and come out within 0.8; one
    sample does not pass and comes back as it is. *)
Lemma enhancer_peak_bound_witness :
  peak_within 0.8 (@enhance_voice_quality demo_lib (repeat (Fin 2) 16) SR)
  /\ @enhance_voice_quality demo_lib [Fin 2] SR = [Fin 2].
Proof.
  split.
  - apply (proj1 (@enhancer_peak_bound demo_lib (repeat (Fin 2) 16) SR)
             (repeat (Fin 2) 16)).
    + rewrite demo_lowpass. reflexivity.
    + unfold all_finite. apply Forall_forall. intros x Hx.
      apply repeat_spec in Hx. subst. eauto.
  - apply (proj2 (@enhancer_peak_bound demo_lib [Fin 2] SR)).
    rewrite demo_lowpass. reflexivity.
Defined.

(** ** Exceptions inside a stage *)

Section StageFailures.

Context {L : Lib}.

Lemma lowpass_keeps_length (audio filtered : waveform) (sr : Z) :
  filtfilt_keeps_length ->
  lowpass audio sr = Some filtered -> length filtered = length audio.
Proof.
  intros Hshape. unfold lowpass.
  destruct (py_truediv (of_int sr) (Fin 2)) as [nyquist |]; [| discriminate].
  cbn [bind].
  destruct (py_truediv _ nyquist) as [wn |]; [| discriminate]. cbn [bind].
  destruct (scipy_butter 4 wn) as [[b a] |]; [| discriminate]. cbn [bind].
  apply Hshape.
Qed.

(** The statements after the filter raise on an empty signal only. *)
Lemma compress_and_normalise_raises (filtered : waveform) :
  compress_and_normalise filtered = None -> filtered = [].
Proof.
  destruct filtered as [| x rest]; [reflexivity |].
  unfold compress_and_normalise. cbn [compress map np_abs np_max bind].
  destruct (fgtb _ (Fin 0)); discriminate.
Qed.

(** C3.  A stage whose computation raises returns its input: the pitch,
    spectral envelope, formant and texture stages at any raising library
    call or dictionary read; the enhancer when the filter design or the
    filter raises, and also when the maximum of the filtered signal
    raises, given that [filtfilt] returns a signal as long as its input.
    The dynamics stage has no operation that raises.  A stage returns a
    waveform in every case. *)
Theorem stage_failure_returns_input :
  (forall (audio : waveform) (sr : Z) (tf : Features),
      apply_pitch_transformation_body audio sr tf = None ->
      apply_pitch_transformation audio sr tf = audio)
  /\
  (forall (audio : waveform) (sr : Z) (tf : Features),
      modify_spectral_envelope_body audio sr tf = None ->
      modify_spectral_envelope audio sr tf = audio)
  /\
  (forall (audio : waveform) (sr : Z) (tf : Features),
      apply_formant_shifting_body audio sr tf = None ->
      apply_formant_shifting audio sr tf = audio)
  /\
  (forall (audio : waveform) (sr : Z) (tf : Features),
      adjust_voice_texture_body audio sr tf = None ->
      adjust_voice_texture audio sr tf = audio)
  /\
  (filtfilt_keeps_length ->
   forall (audio : waveform) (sr : Z),
     lowpass audio sr = None
     \/ (exists filtered, lowpass audio sr = Some filtered
                          /\ compress_and_normalise filtered = None) ->
     enhance_voice_quality audio sr = audio).
Proof.
  split; [| split; [| split; [| split]]].
  - intros audio sr tf H. unfold apply_pitch_transformation. now rewrite H.
  - intros audio sr tf H. unfold modify_spectral_envelope. now rewrite H.
  - intros audio sr tf H. unfold apply_formant_shifting. now rewrite H.
  - intros audio sr tf H. unfold adjust_voice_texture. now rewrite H.
  - intros Hshape audio sr [H | (filtered & Hlow & Hraise)];
      unfold enhance_voice_quality.
    + now rewrite H.
    + rewrite Hlow, Hraise. cbn [try_except].
      pose proof (compress_and_normalise_raises filtered Hraise) as ->.
      pose proof (lowpass_keeps_length audio [] sr Hshape Hlow) as Hlen.
      cbn [length] in Hlen. symmetry. now apply length_zero_iff_nil.
Qed.

End StageFailures.

Lemma demo_filtfilt_keeps_length : @filtfilt_keeps_length demo_lib.
Proof.
  intros b a x y. cbn [scipy_filtfilt demo_lib demo_lib_with]. unfold demo_filtfilt.
  destruct (length x <=? 3 * Nat.max (length a) (length b))%nat; [discriminate |].
  now intros [= ->].
Qed.

(** An empty signal makes the pitch tracker and the transform raise, a
    dictionary without [spectral_centroid_mean] makes the envelope stage
    raise, a one-sample signal makes the filter raise: each stage returns
    what it was given. *)
Lemma stage_failure_returns_input_witness :
  @apply_pitch_transformation demo_lib [] SR demo_features_150 = []
  /\ @modify_spectral_envelope demo_lib [Fin 1] SR
       (mkFeatures None None None None None None None None None) = [Fin 1]
  /\ @apply_formant_shifting demo_lib [] SR demo_features_150 = []
  /\ @adjust_voice_texture demo_lib [] SR demo_features_150 = []
  /\ @enhance_voice_quality demo_lib [Fin 1] SR = [Fin 1].
Proof.
  destruct (@stage_failure_returns_input demo_lib)
    as (Hpitch & Henv & Hformant & Htexture & Henh).
  split; [| split; [| split; [| split]]].
  - apply Hpitch. reflexivity.
  - apply Henv. reflexivity.
  - apply Hformant. reflexivity.
  - apply Htexture. reflexivity.
  - apply (Henh demo_filtfilt_keeps_length). left.
    rewrite demo_lowpass. reflexivity.
Defined.

(** ** Text *)

Lemma lstrip_all_space (s : string) :
  all_space s = true -> lstrip s = EmptyString.
Proof.
  unfold all_space. induction s as [| c s IH]; [reflexivity |].
  cbn [list_ascii_of_string forallb lstrip]. intros H.
  apply andb_true_iff in H as [Hc Hs]. rewrite Hc. now apply IH.
Qed.

Lemma strip_all_space (s : string) :
  all_space s = true -> strip s = EmptyString.
Proof. intros H. unfold strip. now rewrite lstrip_all_space. Qed.

Lemma rstrip_keeps_head (c : ascii) (s : string) :
  py_isspace c = false -> rstrip (String c s) <> EmptyString.
Proof.
  intros Hc. cbn [rstrip]. destruct (rstrip s); [rewrite Hc |]; discriminate.
Qed.

(** Only blank text strips to the empty string. *)
Lemma strip_empty_all_space (s : string) :
  strip s = EmptyString -> all_space s = true.
Proof.
  unfold strip, all_space. induction s as [| c s IH]; [reflexivity |].
  cbn [lstrip list_ascii_of_string forallb]. destruct (py_isspace c) eqn:Hc.
  - intros H. now rewrite IH.
  - intros H. now apply rstrip_keeps_head in H.
Qed.

(** ** Paths *)

Lemma path_eqb_refl (p : path) : path_eqb p p = true.
Proof. destruct p; cbn; [apply String.eqb_refl | apply Nat.eqb_refl]. Qed.

Lemma path_eqb_eq (p q : path) : path_eqb p q = true -> p = q.
Proof.
  destruct p, q; cbn; intros H; try discriminate.
  - apply String.eqb_eq in H. now subst.
  - apply Nat.eqb_eq in H. now subst.
Qed.

Lemma same_path_iff (p : path) (o : option path) :
  same_path p o = true <-> o = Some p.
Proof.
  destruct o as [q |]; cbn; split; intros H; try discriminate.
  - apply path_eqb_eq in H. now subst.
  - injection H as ->. apply path_eqb_refl.
Qed.

Lemma temp_path_next (n : nat) : path_eqb (TempPath n) (TempPath (S n)) = false.
Proof. cbn. apply Nat.eqb_neq. lia. Qed.

Section Orchestrator.

Context {L : Lib}.

(** ** Loading a reference *)

(** The dictionary that extraction builds has every key. *)
Lemma extraction_result_complete (w : World) (p : path)
  (f : Features) (a : waveform) (sr : Z) :
  extract_voice_features_body w p = Some (f, a, sr) ->
  dict_truthy f = true
  /\ (exists v, f0_mean f = Some v)
  /\ (exists v, spectral_centroid_mean f = Some v).
Proof.
  unfold extract_voice_features_body.
  destruct (librosa_load w p) as [[audio sr0] |]; [| discriminate]. cbn [bind].
  destruct (librosa_pyin audio) as [[f0 vf] |]; [| discriminate]. cbn [bind].
  destruct (librosa_spectral_centroid audio sr0); [| discriminate]. cbn [bind].
  destruct (librosa_spectral_rolloff audio sr0); [| discriminate]. cbn [bind].
  destruct (librosa_zero_crossing_rate audio); [| discriminate]. cbn [bind].
  destruct (librosa_mfcc audio sr0 13); [| discriminate]. cbn [bind].
  destruct (py_truediv _ _); [| discriminate]. cbn [bind].
  intros [= <- <- <-]. cbn. eauto.
Qed.

(** Extraction reads the files and nothing else of the world. *)
Lemma extraction_reads_files (w w' : World) (p : path) :
  files w' = files w ->
  extract_voice_features_body w' p = extract_voice_features_body w p.
Proof.
  intros H. unfold extract_voice_features_body, librosa_load. now rewrite H.
Qed.

Lemma load_reference_voice_success (e : Engine) (w : World) (p : path)
  (f : Features) (a : waveform) (sr : Z) :
  extract_voice_features_body w p = Some (f, a, sr) ->
  load_reference_voice e w p =
    (true,
     mkEngine (Some f) (Some a) (Some sr) (pyttsx3_engine e) (last_reference_path e),
     note_extraction p w).
Proof.
  intros H. unfold load_reference_voice, extract_voice_features. rewrite H.
  destruct (extraction_result_complete w p f a sr H) as (-> & _). reflexivity.
Qed.

Lemma load_reference_voice_failure (e : Engine) (w : World) (p : path) :
  extract_voice_features_body w p = None ->
  load_reference_voice e w p =
    (false, e,
     show (UiError "Error extracting voice features") (note_extraction p w)).
Proof.
  intros H. unfold load_reference_voice, extract_voice_features. now rewrite H.
Qed.

(** Every call of [load_reference_voice] runs the extraction. *)
Lemma load_reference_voice_extracts (e : Engine) (w : World) (p : path) :
  extract_calls (snd (load_reference_voice e w p)) = p :: extract_calls w.
Proof.
  destruct (extract_voice_features_body w p) as [[[f a] sr] |] eqn:E.
  - now rewrite (load_reference_voice_success e w p f a sr E).
  - now rewrite (load_reference_voice_failure e w p E).
Qed.

(** ** Synthesis and transformation *)

Lemma synthesize_base_speech_log (e : Engine) (w : World) (text : string) :
  extract_calls (snd (synthesize_base_speech e w text)) = extract_calls w.
Proof.
  unfold synthesize_base_speech. destruct (pyttsx3_engine e); [| reflexivity].
  cbn [negb named_temporary_file]. destruct (pyttsx3_render text); [| reflexivity].
  match goal with |- context [if ?c then _ else _] => destruct c end; reflexivity.
Qed.

Lemma apply_voice_transformation_log (w : World) (p : path) (tf : option Features) :
  extract_calls (snd (apply_voice_transformation w p tf)) = extract_calls w.
Proof.
  unfold apply_voice_transformation.
  destruct (librosa_load w p) as [[a sr] |]; reflexivity.
Qed.

(** The part of [clone_voice] after the reference is loaded leaves the
    engine as it is and runs no extraction. *)
Lemma synthesize_and_transform_frame (e : Engine) (w : World) (text : string) :
  snd (fst (synthesize_and_transform e w text)) = e
  /\ extract_calls (snd (synthesize_and_transform e w text)) = extract_calls w.
Proof.
  unfold synthesize_and_transform.
  pose proof (synthesize_base_speech_log e w text) as Hlog.
  destruct (synthesize_base_speech e w text) as [[base |] w1]; cbn [snd] in Hlog;
    [| split; [reflexivity | exact Hlog]].
  pose proof (apply_voice_transformation_log w1 base (reference_features e)) as Hx.
  destruct (apply_voice_transformation w1 base (reference_features e))
    as [[[cloned sr] |] w2];
    cbn [snd] in Hx; [| split; [reflexivity | cbn; congruence]].
  cbn [named_temporary_file].
  destruct (sf_write cloned sr); split; try reflexivity; cbn; congruence.
Qed.

Lemma synthesize_base_speech_success (e : Engine) (w : World) (text data : string) :
  pyttsx3_engine e = true ->
  pyttsx3_render text = Some data -> data <> EmptyString ->
  synthesize_base_speech e w text =
    (Some (TempPath (next_temp w)),
     write_file (TempPath (next_temp w)) data (snd (named_temporary_file w))).
Proof.
  intros He Hr Hd. unfold synthesize_base_speech. rewrite He.
  cbn [negb named_temporary_file snd]. rewrite Hr.
  unfold exists_nonempty. cbn [write_file files]. rewrite path_eqb_refl.
  destruct data; [contradiction | reflexivity].
Qed.

Lemma apply_voice_transformation_success (w : World) (p : path)
  (tf : option Features) (data : string) (audio : waveform) :
  files w p = Some data -> librosa_decode data = Some audio ->
  apply_voice_transformation w p tf =
    (Some (transformation_cascade audio SR tf, SR), w).
Proof.
  intros Hf Hd. unfold apply_voice_transformation, librosa_load.
  rewrite Hf. cbn [bind]. rewrite Hd. reflexivity.
Qed.

Lemma apply_voice_transformation_failure (w : World) (p : path)
  (tf : option Features) (data : string) :
  files w p = Some data -> librosa_decode data = None ->
  apply_voice_transformation w p tf =
    (None, show (UiWarning "Voice transformation failed") w).
Proof.
  intros Hf Hd. unfold apply_voice_transformation, librosa_load.
  rewrite Hf. cbn [bind]. rewrite Hd. cbn [bind show files].
  rewrite Hf. cbn [bind]. rewrite Hd. reflexivity.
Qed.

Lemma after_base_file (w : World) (data : string) :
  files (after_base w data) (TempPath (next_temp w)) = Some data.
Proof. cbn. now rewrite Nat.eqb_refl. Qed.

(** The success path: the output is written and the base file removed. *)
Lemma synthesize_and_transform_written (e : Engine) (w : World)
  (text data out : string) (audio : waveform) :
  pyttsx3_engine e = true ->
  pyttsx3_render text = Some data -> data <> EmptyString ->
  librosa_decode data = Some audio ->
  sf_write (transformation_cascade audio SR (reference_features e)) SR = Written out ->
  synthesize_and_transform e w text =
    (Some (TempPath (S (next_temp w))), e,
     show (UiSuccess "Advanced voice cloning completed!")
       (unlink (TempPath (next_temp w))
          (write_file (TempPath (S (next_temp w))) out
             (snd (named_temporary_file (after_base w data)))))).
Proof.
  intros He Hr Hd Hdec Hw. unfold synthesize_and_transform.
  rewrite (synthesize_base_speech_success e w text data He Hr Hd).
  fold (after_base w data).
  rewrite (apply_voice_transformation_success _ _ _ data audio
             (after_base_file w data) Hdec).
  cbn [named_temporary_file after_base write_file next_temp snd].
  rewrite Hw. reflexivity.
Qed.

(** A failure path: the write of the output raises. *)
Lemma synthesize_and_transform_write_failed (e : Engine) (w : World)
  (text data partial : string) (audio : waveform) :
  pyttsx3_engine e = true ->
  pyttsx3_render text = Some data -> data <> EmptyString ->
  librosa_decode data = Some audio ->
  sf_write (transformation_cascade audio SR (reference_features e)) SR
    = WriteFailed partial ->
  synthesize_and_transform e w text =
    (None, e,
     show (UiError "Voice cloning failed")
       (write_file (TempPath (S (next_temp w))) partial
          (snd (named_temporary_file (after_base w data))))).
Proof.
  intros He Hr Hd Hdec Hw. unfold synthesize_and_transform.
  rewrite (synthesize_base_speech_success e w text data He Hr Hd).
  fold (after_base w data).
  rewrite (apply_voice_transformation_success _ _ _ data audio
             (after_base_file w data) Hdec).
  cbn [named_temporary_file after_base write_file next_temp snd].
  rewrite Hw. reflexivity.
Qed.

(** Another failure path: the base file does not decode. *)
Lemma synthesize_and_transform_decode_failed (e : Engine) (w : World)
  (text data : string) :
  pyttsx3_engine e = true ->
  pyttsx3_render text = Some data -> data <> EmptyString ->
  librosa_decode data = None ->
  synthesize_and_transform e w text =
    (None, e,
     show (UiError "Voice cloning failed")
       (show (UiWarning "Voice transformation failed") (after_base w data))).
Proof.
  intros He Hr Hd Hdec. unfold synthesize_and_transform.
  rewrite (synthesize_base_speech_success e w text data He Hr Hd).
  fold (after_base w data).
  rewrite (apply_voice_transformation_failure _ _ _ data
             (after_base_file w data) Hdec).
  reflexivity.
Qed.

(** On both failure paths the base file is still there afterwards, and
    after a failed write so is the output file. *)
Lemma failure_paths_leave_files (e : Engine) (w : World)
  (text data partial : string) (audio : waveform) :
  pyttsx3_engine e = true ->
  pyttsx3_render text = Some data -> data <> EmptyString ->
  (librosa_decode data = None ->
   fst (fst (synthesize_and_transform e w text)) = None
   /\ files (snd (synthesize_and_transform e w text)) (TempPath (next_temp w))
      = Some data)
  /\
  (librosa_decode data = Some audio ->
   sf_write (transformation_cascade audio SR (reference_features e)) SR
     = WriteFailed partial ->
   fst (fst (synthesize_and_transform e w text)) = None
   /\ files (snd (synthesize_and_transform e w text)) (TempPath (next_temp w))
      = Some data
   /\ files (snd (synthesize_and_transform e w text)) (TempPath (S (next_temp w)))
      = Some partial).
Proof.
  intros He Hr Hd. split.
  - intros Hdec.
    rewrite (synthesize_and_transform_decode_failed e w text data He Hr Hd Hdec).
    split; [reflexivity |]. cbn. now rewrite Nat.eqb_refl.
  - intros Hdec Hw.
    rewrite (synthesize_and_transform_write_failed e w text data partial audio
               He Hr Hd Hdec Hw).
    split; [reflexivity |]. cbn -[Nat.eqb]. rewrite !Nat.eqb_refl.
    destruct (Nat.eqb_spec (next_temp w) (S (next_temp w))); [lia | auto].
Qed.

(** On the success path the base file is removed and the output kept. *)
Lemma success_path_removes_base (e : Engine) (w : World)
  (text data out : string) (audio : waveform) :
  pyttsx3_engine e = true ->
  pyttsx3_render text = Some data -> data <> EmptyString ->
  librosa_decode data = Some audio ->
  sf_write (transformation_cascade audio SR (reference_features e)) SR = Written out ->
  fst (fst (synthesize_and_transform e w text)) = Some (TempPath (S (next_temp w)))
  /\ files (snd (synthesize_and_transform e w text)) (TempPath (next_temp w)) = None
  /\ files (snd (synthesize_and_transform e w text)) (TempPath (S (next_temp w)))
     = Some out.
Proof.
  intros He Hr Hd Hdec Hw.
  rewrite (synthesize_and_transform_written e w text data out audio He Hr Hd Hdec Hw).
  split; [reflexivity |]. cbn -[Nat.eqb]. rewrite !Nat.eqb_refl.
  destruct (Nat.eqb_spec (S (next_temp w)) (next_temp w)); [lia | auto].
Qed.

End Orchestrator.

Section CloneOperation.

Context {L : Lib}.

(** C6.  A text that is empty or consists of whitespace only is rejected
    at once: [clone_voice] returns no path, the engine is as before, and of
    the world only the message list has changed, by the one error message.
    No file is made and no extraction runs. *)
Theorem blank_text_rejected :
  forall (e : Engine) (w : World) (text : string) (p : path),
    all_space text = true ->
    clone_voice e w text p =
      (None, e, show (UiError "Please enter text to synthesize") w)
    /\ files (snd (clone_voice e w text p)) = files w
    /\ next_temp (snd (clone_voice e w text p)) = next_temp w
    /\ extract_calls (snd (clone_voice e w text p)) = extract_calls w.
Proof.
  intros e w text p H.
  assert (Hc : clone_voice e w text p =
               (None, e, show (UiError "Please enter text to synthesize") w)).
  { unfold clone_voice. rewrite (strip_all_space text H). reflexivity. }
  rewrite Hc. repeat split.
Qed.

(** C10.  When feature extraction fails, [load_reference_voice] returns
    false and the engine, with its cached features, audio, sample rate and
    last reference path, is as before; the same holds for the engine after
    a [clone_voice] that had to load the reference. *)
Theorem failed_load_keeps_cache :
  forall (e : Engine) (w : World) (p : path),
    extract_voice_features_body w p = None ->
    fst (load_reference_voice e w p) = (false, e)
    /\ (forall text : string,
           str_truthy (strip text) = true ->
           negb (features_truthy (reference_features e))
           || negb (same_path p (last_reference_path e)) = true ->
           fst (clone_voice e w text p) = (None, e)).
Proof.
  intros e w p H. split.
  - now rewrite (load_reference_voice_failure e w p H).
  - intros text Ht Hneed. unfold clone_voice. rewrite Ht, Hneed. cbn [negb].
    now rewrite (load_reference_voice_failure e w p H).
Qed.

(** A call of [clone_voice] that returns a path leaves the reference in
    the cache under the path it was given. *)
Lemma clone_voice_success_caches (e e1 : Engine) (w w1 : World)
  (text : string) (p out : path) :
  clone_voice e w text p = (Some out, e1, w1) ->
  features_truthy (reference_features e1) = true
  /\ last_reference_path e1 = Some p.
Proof.
  unfold clone_voice. destruct (negb (str_truthy (strip text))); [discriminate |].
  destruct (negb (features_truthy (reference_features e))
            || negb (same_path p (last_reference_path e))) eqn:Hneed.
  - destruct (extract_voice_features_body w p) as [[[f a] sr] |] eqn:E.
    + rewrite (load_reference_voice_success e w p f a sr E).
      destruct (extraction_result_complete w p f a sr E) as (Htruthy & _).
      intros H.
      pose proof (synthesize_and_transform_frame
                    (set_last_reference_path
                       (mkEngine (Some f) (Some a) (Some sr)
                                 (pyttsx3_engine e) (last_reference_path e)) p)
                    (show (UiSuccess "Reference voice analyzed!") (note_extraction p w))
                    text) as (He & _).
      rewrite H in He. cbn [fst snd] in He. subst e1. cbn. auto.
    + rewrite (load_reference_voice_failure e w p E). discriminate.
  - apply orb_false_iff in Hneed as [Hf Hp].
    apply negb_false_iff in Hf, Hp. apply same_path_iff in Hp.
    intros H. pose proof (synthesize_and_transform_frame e w text) as (He & _).
    rewrite H in He. cbn [fst snd] in He. subst e1. auto.
Qed.

Lemma clone_voice_cache_hit (e : Engine) (w : World) (text : string) (p : path) :
  features_truthy (reference_features e) = true ->
  last_reference_path e = Some p ->
  snd (fst (clone_voice e w text p)) = e
  /\ extract_calls (snd (clone_voice e w text p)) = extract_calls w.
Proof.
  intros Hf Hp. unfold clone_voice.
  destruct (negb (str_truthy (strip text))); [split; reflexivity |].
  rewrite Hf, (proj2 (same_path_iff p _) Hp). cbn [negb orb].
  apply synthesize_and_transform_frame.
Qed.

(** C9, amended.  When the engine holds reference features and its last
    reference path is the path given, [clone_voice] runs no feature
    extraction and leaves the engine, with the cached features and the
    path, as it is.  So does a second [clone_voice] with the path of a
    first one that returned an output. *)
Theorem cached_reference_not_extracted_again :
  forall (e : Engine) (w : World) (text : string) (p : path),
    (features_truthy (reference_features e) = true ->
     last_reference_path e = Some p ->
     snd (fst (clone_voice e w text p)) = e
     /\ extract_calls (snd (clone_voice e w text p)) = extract_calls w)
    /\
    (forall (out : path) (e1 : Engine) (w1 : World) (text2 : string),
        clone_voice e w text p = (Some out, e1, w1) ->
        snd (fst (clone_voice e1 w1 text2 p)) = e1
        /\ extract_calls (snd (clone_voice e1 w1 text2 p)) = extract_calls w1).
Proof.
  intros e w text p. split.
  - apply clone_voice_cache_hit.
  - intros out e1 w1 text2 H.
    destruct (clone_voice_success_caches e e1 w w1 text p out H) as (Hf & Hp).
    now apply clone_voice_cache_hit.
Qed.

End CloneOperation.

(** ** The clone operation on concrete inputs *)

Lemma demo_decode_nonempty (data : string) :
  data <> EmptyString ->
  exists x rest, demo_decode data = Some (x :: rest).
Proof.
  destruct data as [| c s]; [contradiction |]. intros _.
  cbn [demo_decode list_ascii_of_string map]. eauto.
Qed.

(** With the small instance every file that is not empty can be analysed. *)
Lemma demo_extraction_succeeds (write : waveform -> Z -> write_result)
  (w : World) (p : path) (data : string) :
  files w p = Some data -> data <> EmptyString ->
  exists f a,
    @extract_voice_features_body (demo_lib_with write) w p = Some (f, a, SR).
Proof.
  intros Hf Hd. destruct (demo_decode_nonempty data Hd) as (x & rest & Hdec).
  unfold extract_voice_features_body, librosa_load. rewrite Hf.
  cbn [bind librosa_decode demo_lib_with]. rewrite Hdec.
  cbn [bind librosa_pyin librosa_spectral_centroid librosa_spectral_rolloff
       librosa_zero_crossing_rate librosa_mfcc demo_lib_with demo_pyin
       demo_features].
  unfold py_truediv, of_int, SR. cbn [feqb].
  rewrite (Req_b_false 22050 0) by lra. cbn [bind]. eauto.
Qed.

(** With the small instance, an engine whose speech engine is initialised
    and which has to load the reference clones a file that is not empty:
    the call returns an output, caches the path, runs one extraction and
    leaves the caller's files as they are. *)
Lemma demo_clone_loads (e : Engine) (w : World) (p : path) (data : string) :
  pyttsx3_engine e = true ->
  negb (features_truthy (reference_features e))
  || negb (same_path p (last_reference_path e)) = true ->
  files w p = Some data -> data <> EmptyString ->
  exists out e1 w1,
    @clone_voice demo_lib e w "hello"%string p = (Some out, e1, w1)
    /\ pyttsx3_engine e1 = true
    /\ features_truthy (reference_features e1) = true
    /\ last_reference_path e1 = Some p
    /\ extract_calls w1 = p :: extract_calls w
    /\ (forall name, files w1 (UserPath name) = files w (UserPath name)).
Proof.
  intros He Hneed Hf Hd.
  destruct (demo_extraction_succeeds (fun _ _ => Written "RIFFWAVE") w p data Hf Hd)
    as (f & a & Hbody).
  fold demo_lib in Hbody.
  destruct (@extraction_result_complete demo_lib w p f a SR Hbody) as (Htruthy & _).
  destruct (demo_decode_nonempty "RIFFhello" ltac:(discriminate))
    as (x & rest & Hdec).
  unfold clone_voice.
  replace (strip "hello") with "hello"%string by reflexivity.
  cbn [str_truthy negb]. rewrite Hneed.
  rewrite (@load_reference_voice_success demo_lib e w p f a SR Hbody).
  rewrite (@synthesize_and_transform_written demo_lib _ _ "hello" "RIFFhello"
             "RIFFWAVE" (x :: rest));
    [| exact He | reflexivity | discriminate | exact Hdec | reflexivity].
  do 3 eexists. split; [reflexivity |].
  cbn [set_last_reference_path pyttsx3_engine reference_features
       last_reference_path features_truthy].
  repeat split; auto.
Qed.

(** C6 on three blanks. *)
Lemma blank_text_rejected_witness :
  @clone_voice demo_lib demo_engine_fresh demo_world "   " reference_wav =
    (None, demo_engine_fresh,
     show (UiError "Please enter text to synthesize") demo_world)
  /\ files (snd (@clone_voice demo_lib demo_engine_fresh demo_world "   "
                   reference_wav)) = files demo_world
  /\ next_temp (snd (@clone_voice demo_lib demo_engine_fresh demo_world "   "
                       reference_wav)) = next_temp demo_world
  /\ extract_calls (snd (@clone_voice demo_lib demo_engine_fresh demo_world "   "
                           reference_wav)) = extract_calls demo_world.
Proof.
  apply (@blank_text_rejected demo_lib). reflexivity.
Defined.

(** C10 on a file that does not exist, with a reference in the cache. *)
Lemma failed_load_keeps_cache_witness :
  fst (@load_reference_voice demo_lib demo_engine_cached demo_world
         (UserPath "missing.wav")) = (false, demo_engine_cached)
  /\ fst (@clone_voice demo_lib demo_engine_cached demo_world "hello"
            (UserPath "missing.wav")) = (None, demo_engine_cached).
Proof.
  destruct (@failed_load_keeps_cache demo_lib demo_engine_cached demo_world
              (UserPath "missing.wav") eq_refl) as (Hload & Hclone).
  split; [exact Hload |]. apply Hclone; reflexivity.
Defined.

(** C9, amended, on an engine with the reference in its cache, and on the
    state that a first call leaves behind. *)
Lemma cached_reference_not_extracted_again_witness :
  (snd (fst (@clone_voice demo_lib demo_engine_cached demo_world "hello"
               reference_wav)) = demo_engine_cached
   /\ extract_calls (snd (@clone_voice demo_lib demo_engine_cached demo_world
                            "hello" reference_wav)) = [])
  /\
  (exists out e1 w1,
      @clone_voice demo_lib demo_engine_fresh demo_world "hello" reference_wav
        = (Some out, e1, w1)
      /\ snd (fst (@clone_voice demo_lib e1 w1 "again"%string reference_wav)) = e1
      /\ extract_calls (snd (@clone_voice demo_lib e1 w1 "again"%string reference_wav))
         = [reference_wav]).
Proof.
  split.
  - apply (proj1 (@cached_reference_not_extracted_again demo_lib
                    demo_engine_cached demo_world "hello" reference_wav));
      reflexivity.
  - destruct (demo_clone_loads demo_engine_fresh demo_world reference_wav
                "reference" eq_refl eq_refl eq_refl ltac:(discriminate))
      as (out & e1 & w1 & Hclone & _ & _ & _ & Hlog & _).
    exists out, e1, w1. split; [exact Hclone |].
    destruct (proj2 (@cached_reference_not_extracted_again demo_lib
                       demo_engine_fresh demo_world "hello" reference_wav)
                out e1 w1 "again"%string Hclone) as (He & Hx).
    split; [exact He |]. rewrite Hx. exact Hlog.
Defined.

(** C9, as stated, fails.  [load_reference_voice] has no cache test: two
    calls with one path run the extraction twice.  And the cache of
    [clone_voice] holds one reference: cloning against [a.wav], then
    [b.wav], then [a.wav] again runs the extraction three times, twice for
    [a.wav]. *)
Lemma reference_extracted_more_than_once :
  (exists e1 w1 e2 w2,
      @load_reference_voice demo_lib demo_engine_fresh demo_world reference_wav
        = (true, e1, w1)
      /\ @load_reference_voice demo_lib e1 w1 reference_wav = (true, e2, w2)
      /\ extract_calls w2 = [reference_wav; reference_wav])
  /\
  (exists o1 e1 w1 o2 e2 w2 o3 e3 w3,
      @clone_voice demo_lib demo_engine_fresh two_voices_world "hello"%string voice_a
        = (Some o1, e1, w1)
      /\ @clone_voice demo_lib e1 w1 "hello"%string voice_b = (Some o2, e2, w2)
      /\ @clone_voice demo_lib e2 w2 "hello"%string voice_a = (Some o3, e3, w3)
      /\ extract_calls w3 = [voice_a; voice_b; voice_a]).
Proof.
  split.
  - destruct (demo_extraction_succeeds (fun _ _ => Written "RIFFWAVE")
                demo_world reference_wav "reference" eq_refl ltac:(discriminate))
      as (f & a & Hbody).
    fold demo_lib in Hbody.
    do 4 eexists. split; [| split].
    + apply (@load_reference_voice_success demo_lib _ _ _ f a SR Hbody).
    + apply (@load_reference_voice_success demo_lib _ _ _ f a SR).
      rewrite <- Hbody. now apply extraction_reads_files.
    + reflexivity.
  - destruct (demo_clone_loads demo_engine_fresh two_voices_world voice_a
                "voice a" eq_refl eq_refl eq_refl ltac:(discriminate))
      as (o1 & e1 & w1 & Hc1 & Ht1 & _ & Hl1 & Hx1 & Hf1).
    assert (Hneed1 : negb (features_truthy (reference_features e1))
                     || negb (same_path voice_b (last_reference_path e1)) = true).
    { rewrite Hl1. apply orb_true_r. }
    destruct (demo_clone_loads e1 w1 voice_b "voice b" Ht1 Hneed1
                ltac:(unfold voice_b; rewrite Hf1; reflexivity) ltac:(discriminate))
      as (o2 & e2 & w2 & Hc2 & Ht2 & _ & Hl2 & Hx2 & Hf2).
    assert (Hneed2 : negb (features_truthy (reference_features e2))
                     || negb (same_path voice_a (last_reference_path e2)) = true).
    { rewrite Hl2. apply orb_true_r. }
    destruct (demo_clone_loads e2 w2 voice_a "voice a" Ht2 Hneed2
                ltac:(unfold voice_a; rewrite Hf2, Hf1; reflexivity)
                ltac:(discriminate))
      as (o3 & e3 & w3 & Hc3 & _ & _ & _ & Hx3 & _).
    exists o1, e1, w1, o2, e2, w2, o3, e3, w3.
    repeat split; try assumption.
    rewrite Hx3, Hx2, Hx1. reflexivity.
Qed.

(** C7: the failure paths of [clone_voice] after base synthesis.  With an
    output write that raises, the call returns no path, and both the base
    file (the first temporary file) and the empty output file (the second)
    are still there. *)
Lemma failed_write_leaves_temporary_files :
  fst (fst (@clone_voice full_disk_lib demo_engine_cached demo_world "hello"
              reference_wav)) = None
  /\ files (snd (@clone_voice full_disk_lib demo_engine_cached demo_world "hello"
                   reference_wav)) (TempPath 0) = Some "RIFFhello"%string
  /\ files (snd (@clone_voice full_disk_lib demo_engine_cached demo_world "hello"
                   reference_wav)) (TempPath 1) = Some EmptyString.
Proof.
  destruct (demo_decode_nonempty "RIFFhello" ltac:(discriminate))
    as (x & rest & Hdec).
  assert (Hc : @clone_voice full_disk_lib demo_engine_cached demo_world "hello"
                 reference_wav
               = @synthesize_and_transform full_disk_lib demo_engine_cached
                   demo_world "hello") by reflexivity.
  rewrite Hc.
  apply (proj2 (@failure_paths_leave_files full_disk_lib demo_engine_cached
                  demo_world "hello" "RIFFhello" "" (x :: rest)
                  eq_refl eq_refl ltac:(discriminate)));
    [exact Hdec | reflexivity].
Qed.

(** The sibling path: when the write succeeds, the base file is removed. *)
Lemma successful_write_removes_base_file :
  fst (fst (@clone_voice demo_lib demo_engine_cached demo_world "hello"
              reference_wav)) = Some (TempPath 1)
  /\ files (snd (@clone_voice demo_lib demo_engine_cached demo_world "hello"
                   reference_wav)) (TempPath 0) = None
  /\ files (snd (@clone_voice demo_lib demo_engine_cached demo_world "hello"
                   reference_wav)) (TempPath 1) = Some "RIFFWAVE"%string.
Proof.
  destruct (demo_decode_nonempty "RIFFhello" ltac:(discriminate))
    as (x & rest & Hdec).
  assert (Hc : @clone_voice demo_lib demo_engine_cached demo_world "hello"
                 reference_wav
               = @synthesize_and_transform demo_lib demo_engine_cached
                   demo_world "hello") by reflexivity.
  rewrite Hc.
  apply (@success_path_removes_base demo_lib demo_engine_cached
           demo_world "hello" "RIFFhello" "RIFFWAVE" (x :: rest)
           eq_refl eq_refl ltac:(discriminate) Hdec eq_refl).
Qed.

(** ** The similarity score *)

Lemma fsub_nan_l (b : fnum) : fsub NaN b = NaN.
Proof. reflexivity. Qed.

Lemma fsub_nan_r (a : fnum) : fsub a NaN = NaN.
Proof. destruct a; reflexivity. Qed.

Lemma fabs_fsub_comm (a b : fnum) : fabs (fsub a b) = fabs (fsub b a).
Proof.
  destruct a as [| | |x], b as [| | |y]; try reflexivity.
  cbn [fsub fneg fadd fabs]. apply Fin_eq.
  replace (y + - x) with (- (x + - y)) by ring. now rewrite Rabs_Ropp.
Qed.

Lemma py_max_comm (a b : fnum) :
  isnan a = false -> isnan b = false -> py_max a b = py_max b a.
Proof.
  destruct a as [| | |x], b as [| | |y]; try discriminate; intros _ _;
    try reflexivity.
  unfold py_max, fgtb. cbn [fltb]. real_cases; try reflexivity.
  apply Fin_eq. lra.
Qed.

Lemma closeness_comm (a b : fnum) : closeness a b = closeness b a.
Proof.
  unfold closeness. rewrite (fabs_fsub_comm a b).
  destruct (isnan a) eqn:Ea.
  - destruct a; try discriminate. rewrite fsub_nan_r. reflexivity.
  - destruct (isnan b) eqn:Eb.
    + destruct b; try discriminate. reflexivity.
    + now rewrite (py_max_comm a b).
Qed.

(** The closeness of a value to itself is 1, or NaN when the value is
    zero or not finite. *)
Lemma closeness_self (a : fnum) : closeness a a = Fin 1 \/ closeness a a = NaN.
Proof.
  destruct a as [| | |x]; try (right; reflexivity).
  unfold closeness, py_max, fgtb. cbn [fltb fsub fneg fadd fabs].
  rewrite (Rlt_b_false x x) by lra.
  replace (x + - x) with 0 by ring. rewrite Rabs_R0.
  destruct (Req_dec_T x 0) as [-> | Hx].
  - right. now rewrite fdiv_zero_zero.
  - left. rewrite fdiv_Fin by assumption. cbn [fneg fadd]. apply Fin_eq.
    unfold Rdiv. ring.
Qed.

(** [max(0.0, min(1.0, s))] is a number between 0 and 1, whatever [s]. *)
Lemma clamp_unit (s : fnum) :
  exists r, py_max (Fin 0) (py_min (Fin 1) s) = Fin r /\ 0 <= r <= 1.
Proof.
  unfold py_max, py_min, fgtb.
  destruct s as [| | |x]; cbn [fltb].
  - exists 1. rewrite Rlt_b_true by lra. split; [reflexivity | lra].
  - exists 1. rewrite Rlt_b_true by lra. split; [reflexivity | lra].
  - exists 0. split; [reflexivity | lra].
  - destruct (Rlt_dec x 1) as [Hlt | Hge].
    + rewrite (Rlt_b_true x 1 Hlt). cbn [fltb].
      destruct (Rlt_dec 0 x) as [Hpos | Hneg].
      * rewrite (Rlt_b_true 0 x Hpos). exists x. split; [reflexivity | lra].
      * rewrite (Rlt_b_false 0 x Hneg). exists 0. split; [reflexivity | lra].
    + rewrite (Rlt_b_false x 1 Hge). cbn [fltb]. rewrite Rlt_b_true by lra.
      exists 1. split; [reflexivity | lra].
Qed.

Lemma clamp_unit_one : py_max (Fin 0) (py_min (Fin 1) (Fin 1)) = Fin 1.
Proof.
  unfold py_max, py_min, fgtb. cbn [fltb]. rewrite (Rlt_b_false 1 1) by lra.
  cbn [fltb]. now rewrite Rlt_b_true by lra.
Qed.

Lemma clamp_unit_nan : py_max (Fin 0) (py_min (Fin 1) NaN) = Fin 1.
Proof.
  unfold py_max, py_min, fgtb. cbn [fltb]. now rewrite Rlt_b_true by lra.
Qed.

Lemma similarity_body_comm (f g : Features) :
  similarity_body f g = similarity_body g f.
Proof.
  unfold similarity_body.
  destruct (f0_mean f), (f0_mean g), (spectral_centroid_mean f),
    (spectral_centroid_mean g); cbn [dict_item bind]; try reflexivity.
  now rewrite (closeness_comm f0 f1), (closeness_comm f2 f3).
Qed.

Lemma similarity_body_range (f g : Features) :
  exists r, try_except (similarity_body f g) (Fin 0) = Fin r /\ 0 <= r <= 1.
Proof.
  unfold similarity_body.
  destruct (f0_mean f), (f0_mean g), (spectral_centroid_mean f),
    (spectral_centroid_mean g); cbn [dict_item bind try_except];
    try (exists 0; split; [reflexivity | lra]).
  apply clamp_unit.
Qed.

Lemma similarity_body_self (f : Features) (v c : fnum) :
  f0_mean f = Some v -> spectral_centroid_mean f = Some c ->
  similarity_body f f = Some (Fin 1).
Proof.
  intros Hv Hc. unfold similarity_body. rewrite Hv, Hc. cbn [dict_item bind].
  f_equal.
  destruct (closeness_self v) as [-> | ->], (closeness_self c) as [-> | ->];
    cbn [fadd fdiv]; try apply clamp_unit_nan.
  rewrite Req_b_false by lra.
  replace ((1 + 1) / 2) with 1 by field. apply clamp_unit_one.
Qed.

(** 150 Hz against 120 Hz and 1500 Hz against 1000 Hz: the closeness of
    the pitches is 0.8, that of the centroids 2/3, the score 11/15. *)
Example similarity_body_example :
  similarity_body demo_features_150
    (mkFeatures (Some (Fin 120)) None (Some (Fin 1000)) None None None None
                None None)
  = Some (Fin ((1 + - (30 / 150) + (1 + - (500 / 1500))) / 2)).
Proof.
  unfold similarity_body, closeness, py_max, fgtb.
  cbn [demo_features_150 f0_mean spectral_centroid_mean dict_item bind
       fsub fneg fadd fabs fltb].
  rewrite (Rlt_b_false 150 120), (Rlt_b_false 1500 1000) by lra.
  rewrite (Rabs_right (150 + - (120))), (Rabs_right (1500 + - (1000))) by lra.
  replace (150 + - (120)) with 30 by lra.
  replace (1500 + - (1000)) with 500 by lra.
  rewrite !fdiv_Fin by lra. cbn [fneg fadd]. rewrite fdiv_Fin by lra.
  unfold py_min. cbn [fltb]. rewrite Rlt_b_true by lra.
  cbn [fltb]. rewrite Rlt_b_true by lra. reflexivity.
Qed.

Section Similarity.

Context {L : Lib}.

(** The score in terms of the two extractions. *)
Lemma similarity_score_value (w : World) (cloned reference : path) :
  fst (get_voice_similarity_score w cloned reference) =
    match extract_voice_features_body w reference,
          extract_voice_features_body w cloned with
    | Some (rf, _, _), Some (cf, _, _) =>
        try_except (similarity_body rf cf) (Fin 0)
    | _, _ => Fin 0
    end.
Proof.
  unfold get_voice_similarity_score, extract_voice_features.
  destruct (extract_voice_features_body w reference) as [[[rf ra] rsr] |] eqn:Er.
  - rewrite (extraction_reads_files w (note_extraction reference w) cloned eq_refl).
    destruct (extract_voice_features_body w cloned) as [[[cf ca] csr] |] eqn:Ec;
      [| reflexivity].
    destruct (extraction_result_complete w reference rf ra rsr Er) as (-> & _).
    destruct (extraction_result_complete w cloned cf ca csr Ec) as (-> & _).
    reflexivity.
  - rewrite (extraction_reads_files w
               (show (UiError "Error extracting voice features")
                     (note_extraction reference w)) cloned eq_refl).
    destruct (extract_voice_features_body w cloned) as [[[cf ca] csr] |];
      reflexivity.
Qed.

(** C8.  The similarity score does not depend on the order of its two
    paths, it is a number between 0 and 1, it is 1 for a recording against
    itself when the extraction succeeds, and it is 0 when the extraction
    fails for either path. *)
Theorem similarity_score_properties :
  forall (w : World) (a b : path),
    fst (get_voice_similarity_score w a b) = fst (get_voice_similarity_score w b a)
    /\ (exists r, fst (get_voice_similarity_score w a b) = Fin r /\ 0 <= r <= 1)
    /\ (extract_voice_features_body w a <> None ->
        fst (get_voice_similarity_score w a a) = Fin 1)
    /\ (extract_voice_features_body w a = None
        \/ extract_voice_features_body w b = None ->
        fst (get_voice_similarity_score w a b) = Fin 0).
Proof.
  intros w a b. rewrite !similarity_score_value.
  split; [| split; [| split]].
  - destruct (extract_voice_features_body w a) as [[[fa ?] ?] |],
      (extract_voice_features_body w b) as [[[fb ?] ?] |]; try reflexivity.
    now rewrite similarity_body_comm.
  - destruct (extract_voice_features_body w b) as [[[fb ?] ?] |],
      (extract_voice_features_body w a) as [[[fa ?] ?] |];
      try (exists 0; split; [reflexivity | lra]).
    apply similarity_body_range.
  - intros Ha.
    destruct (extract_voice_features_body w a) as [[[fa aa] sra] |] eqn:Ea;
      [| contradiction].
    destruct (extraction_result_complete w a fa aa sra Ea)
      as (_ & (v & Hv) & (c & Hc)).
    now rewrite (similarity_body_self fa v c Hv Hc).
  - intros [Ha | Hb].
    + rewrite Ha. destruct (extract_voice_features_body w b) as [[[? ?] ?] |];
        reflexivity.
    + rewrite Hb. reflexivity.
Qed.

End Similarity.

(** The score of the reference recording against itself and against a
    file that does not exist. *)
Lemma similarity_score_properties_witness :
  fst (@get_voice_similarity_score demo_lib demo_world reference_wav reference_wav)
    = Fin 1
  /\ fst (@get_voice_similarity_score demo_lib demo_world
            (UserPath "missing.wav") reference_wav) = Fin 0.
Proof.
  split.
  - apply (@similarity_score_properties demo_lib demo_world reference_wav
             reference_wav).
    destruct (demo_extraction_succeeds (fun _ _ => Written "RIFFWAVE")
                demo_world reference_wav "reference" eq_refl ltac:(discriminate))
      as (f & a & Hbody).
    fold demo_lib in Hbody. rewrite Hbody. discriminate.
  - apply (@similarity_score_properties demo_lib demo_world
             (UserPath "missing.wav") reference_wav).
    left. reflexivity.
Defined.

(** ** Checks of the definitions on concrete inputs *)

(** Rewrites every comparison of real constants to its value. *)
Ltac decide_reals :=
  repeat first
    [ rewrite Rlt_b_true by lra | rewrite Rlt_b_false by lra
    | rewrite Rle_b_true by lra | rewrite Rle_b_false by lra
    | rewrite Req_b_true by lra | rewrite Req_b_false by lra ].

Example strip_example : strip "  hello world  " = "hello world"%string.
Proof. reflexivity. Qed.

Example strip_blank_example :
  strip (String (ascii_of_nat 9) (String (ascii_of_nat 10) " ")) = EmptyString.
Proof. reflexivity. Qed.

Example np_clip_examples :
  np_clip (Fin 10) (Fin 0.5) (Fin 2) = Fin 2
  /\ np_clip (Fin 0.1) (Fin 0.5) (Fin 2) = Fin 0.5
  /\ np_clip (Fin 1.25) (Fin 0.5) (Fin 2) = Fin 1.25
  /\ np_clip PInf (Fin 0.5) (Fin 2) = Fin 2
  /\ np_clip NaN (Fin 0.5) (Fin 2) = NaN.
Proof.
  unfold np_clip, np_maximum, np_minimum. cbn [isnan fltb].
  repeat split; decide_reals; cbn [isnan fltb]; decide_reals; reflexivity.
Qed.

Lemma local_maxima_from_step (x : array) (i_max i fuel : nat) :
  local_maxima_from x i_max i (S fuel) =
    if (i <? i_max)%nat then
      if fltb (nth (i - 1) x NaN) (nth i x NaN) then
        let i_ahead := plateau_end x i_max (nth i x NaN) (S i) (length x) in
        if fltb (nth i_ahead x NaN) (nth i x NaN)
        then ((i + (i_ahead - 1)) / 2)%nat
               :: local_maxima_from x i_max (S i_ahead) fuel
        else local_maxima_from x i_max (S i) fuel
      else local_maxima_from x i_max (S i) fuel
    else [].
Proof. reflexivity. Qed.

Lemma plateau_end_step (x : array) (i_max : nat) (v : fnum) (i_ahead fuel : nat) :
  plateau_end x i_max v i_ahead (S fuel) =
    if (i_ahead <? i_max)%nat && feqb (nth i_ahead x NaN) v
    then plateau_end x i_max v (S i_ahead) fuel
    else i_ahead.
Proof. reflexivity. Qed.

(** One round of the loop of the peak search on a concrete signal. *)
Ltac peak_step :=
  rewrite local_maxima_from_step;
  cbn [Nat.ltb Nat.leb nth Nat.sub fltb]; decide_reals; cbv zeta;
  cbn [length];
  repeat (rewrite plateau_end_step; cbn [Nat.ltb Nat.leb nth andb feqb];
          decide_reals; cbn [andb]);
  cbn [nth fltb Nat.add Nat.sub Nat.div Nat.divmod fst]; decide_reals.

(** A sharp maximum at index 1, a flat one over the indices 3 and 4 that
    counts once, at index 3, and no maximum at the last sample; the flat
    one alone is at least 1.5 high. *)
Example find_peaks_example :
  local_maxima_1d [Fin 0; Fin 1; Fin 0; Fin 2; Fin 2; Fin 0; Fin 3]
    = [1%nat; 3%nat]
  /\ find_peaks [Fin 0; Fin 1; Fin 0; Fin 2; Fin 2; Fin 0; Fin 3] (Fin 1.5)
     = [3%nat].
Proof.
  assert (H : local_maxima_1d [Fin 0; Fin 1; Fin 0; Fin 2; Fin 2; Fin 0; Fin 3]
              = [1%nat; 3%nat]).
  { unfold local_maxima_1d. cbn [length Nat.sub].
    peak_step. peak_step. peak_step. reflexivity. }
  split; [exact H |]. unfold find_peaks. rewrite H.
  cbn [filter nth fleb]. decide_reals. reflexivity.
Qed.

(** The compressor leaves 0.05 alone and brings 0.4 and -0.4 to 0.2 and
    -0.2. *)
Example compress_example :
  compress (Fin 0.1) (Fin 3) [Fin 0.05; Fin 0.4; Fin (-0.4)]
  = [Fin 0.05; Fin (1 * (0.1 + (Rabs 0.4 + - (0.1)) / 3));
     Fin (-1 * (0.1 + (Rabs (-0.4) + - (0.1)) / 3))]
  /\ 1 * (0.1 + (Rabs 0.4 + - (0.1)) / 3) = 0.2
  /\ -1 * (0.1 + (Rabs (-0.4) + - (0.1)) / 3) = -0.2.
Proof.
  assert (H1 : Rabs 0.05 = 0.05) by (apply Rabs_right; lra).
  assert (H2 : Rabs 0.4 = 0.4) by (apply Rabs_right; lra).
  assert (H3 : Rabs (-0.4) = 0.4) by (rewrite Rabs_left; lra).
  split; [| split; [rewrite H2; lra | rewrite H3; lra]].
  unfold compress, fgtb. cbn [map fabs fltb np_sign fsub fneg fadd fdiv].
  rewrite H1, H2, H3. decide_reals. cbn [fadd fmul]. reflexivity.
Qed.

(* ------------------------------------------------------------------ *)
(** * Further properties of the engine and of the applications        *)
(* ------------------------------------------------------------------ *)

(** ** The level of the dynamics stage's output *)

Lemma sum_squares_nonneg (a : array) : 0 <= sum_squares a.
Proof.
  induction a as [| x a IH]; cbn [sum_squares]; [lra |].
  destruct x; try exact IH. nra.
Qed.

Lemma np_sum_squares (a : array) (acc : R) :
  all_finite a ->
  fold_left fadd (np_square a) (Fin acc) = Fin (acc + sum_squares a).
Proof.
  intros H. revert acc. induction H as [| x a (r & ->) _ IH]; intros acc.
  - cbn. apply Fin_eq. lra.
  - cbn [np_square map fold_left fmul fadd sum_squares].
    fold (np_square a). rewrite IH. apply Fin_eq. lra.
Qed.

(** The mean square of a finite signal that is not empty. *)
Lemma mean_square_finite (a : array) :
  all_finite a -> a <> [] ->
  np_mean (np_square a) = Fin (sum_squares a / INR (length a)).
Proof.
  intros H Hne. unfold np_mean, np_sum. rewrite (np_sum_squares a 0 H).
  unfold np_square. rewrite length_map. unfold of_nat.
  rewrite fdiv_Fin.
  - apply Fin_eq. f_equal. lra.
  - apply INR_nonzero. destruct a; [contradiction | discriminate].
Qed.

Lemma scale_finite (a : array) (c : R) :
  all_finite a -> all_finite (scale a (Fin c)).
Proof.
  unfold all_finite, scale. intros H. apply Forall_map.
  apply Forall_impl with (2 := H). intros x (r & ->). cbn. eauto.
Qed.


Lemma divide_finite (a : array) (c : R) :
  c <> 0 -> all_finite a -> all_finite (divide a (Fin c)).
Proof.
  unfold all_finite, divide. intros Hc H. apply Forall_map.
  apply Forall_impl with (2 := H). intros x (r & ->).
  rewrite fdiv_Fin by assumption. eauto.
Qed.


Lemma scale_length (a : array) (c : fnum) : length (scale a c) = length a.
Proof. unfold scale. apply length_map. Qed.

Lemma divide_length (a : array) (c : fnum) : length (divide a c) = length a.
Proof. unfold divide. apply length_map. Qed.








(** ** The compressor and the peak of the enhancer's output *)

(** What the compressor does to one finite sample. *)
Lemma compress_sample (r : R) :
  exists s,
    compress (Fin 0.1) (Fin 3) [Fin r] = [Fin s]
    /\ Rabs s <= Rabs r
    /\ 0 <= r * s
    /\ (Rabs r <= 0.1 -> s = r)
    /\ (0.1 < Rabs r -> Rabs s = 0.1 + (Rabs r - 0.1) / 3)
    /\ (s = 0 -> r = 0).
Proof.
  unfold compress, fgtb. cbn [map fabs fltb].
  destruct (Rlt_dec 0.1 (Rabs r)) as [Hbig | Hsmall].
  - rewrite (Rlt_b_true _ _ Hbig). cbn [np_sign fsub fneg fadd fdiv].
    rewrite Req_b_false by lra. cbn [fadd].
    destruct (Rlt_dec 0 r) as [Hpos | Hnpos].
    + rewrite (Rlt_b_true _ _ Hpos). cbn [fmul]. eexists. split; [reflexivity |].
      rewrite (Rabs_right r) in * by lra.
      rewrite Rabs_right by lra. repeat split; intros; try lra; nra.
    + rewrite (Rlt_b_false _ _ Hnpos).
      assert (Hneg : r < 0).
      { destruct (Req_dec_T r 0) as [-> | Hne]; [rewrite Rabs_R0 in Hbig; lra | lra]. }
      rewrite (Rlt_b_true _ _ Hneg). cbn [fmul]. eexists. split; [reflexivity |].
      rewrite (Rabs_left r) in * by lra.
      rewrite Rabs_left by lra. repeat split; intros; try lra; nra.
  - rewrite (Rlt_b_false _ _ Hsmall). exists r. split; [reflexivity |].
    repeat split; intros; try lra. nra.
Qed.

Lemma compress_cons (x : fnum) (a : array) :
  compress (Fin 0.1) (Fin 3) (x :: a) =
    compress (Fin 0.1) (Fin 3) [x] ++ compress (Fin 0.1) (Fin 3) a.
Proof. reflexivity. Qed.

(** X2.  The compressor works sample by sample.  It never raises the
    magnitude of a sample and keeps its sign; it leaves a sample of
    magnitude up to 0.1 as it is and brings a larger magnitude [m] to
    [0.1 + (m - 0.1) / 3]; only a zero sample comes out as zero. *)
Theorem compressor_behaviour :
  forall audio : waveform,
    all_finite audio ->
    Forall2
      (fun x y =>
         exists r s,
           x = Fin r /\ y = Fin s
           /\ Rabs s <= Rabs r
           /\ 0 <= r * s
           /\ (Rabs r <= 0.1 -> s = r)
           /\ (0.1 < Rabs r -> Rabs s = 0.1 + (Rabs r - 0.1) / 3)
           /\ (s = 0 -> r = 0))
      audio (compress (Fin 0.1) (Fin 3) audio).
Proof.
  induction 1 as [| x a (r & ->) _ IH]; [constructor |].
  rewrite compress_cons.
  destruct (compress_sample r) as (s & -> & Hs).
  cbn [app]. constructor; [| exact IH]. exists r, s. auto.
Qed.

Lemma compressor_behaviour_witness :
  Forall2
    (fun x y =>
       exists r s,
         x = Fin r /\ y = Fin s
         /\ Rabs s <= Rabs r
         /\ 0 <= r * s
         /\ (Rabs r <= 0.1 -> s = r)
         /\ (0.1 < Rabs r -> Rabs s = 0.1 + (Rabs r - 0.1) / 3)
         /\ (s = 0 -> r = 0))
    [Fin 0.05; Fin (-0.7)] (compress (Fin 0.1) (Fin 3) [Fin 0.05; Fin (-0.7)]).
Proof.
  apply compressor_behaviour. repeat constructor; eauto.
Defined.

Lemma fold_maximum_attained (l : array) (r0 : R) :
  all_finite l ->
  exists M, fold_left np_maximum l (Fin r0) = Fin M
            /\ (M = r0 \/ In (Fin M) l)
            /\ r0 <= M
            /\ (forall r, In (Fin r) l -> r <= M).
Proof.
  revert r0. induction l as [| x l IH]; intros r0 Hfin.
  - exists r0. cbn [fold_left]. repeat split; auto; [lra | intros r []].
  - inversion Hfin as [| x' l' (r & ->) Hl]; subst.
    cbn [fold_left]. unfold np_maximum at 2. cbn [isnan fltb].
    destruct (Rlt_dec r0 r) as [Hlt | Hge].
    + rewrite (Rlt_b_true _ _ Hlt).
      destruct (IH r Hl) as (M & HM & Hat & Hle & Hall).
      exists M. split; [exact HM |]. split; [| split; [lra |]].
      * right. destruct Hat as [-> | Hin]; [now left | now right].
      * intros r' [H | H]; [injection H as <-; lra | now apply Hall].
    + rewrite (Rlt_b_false _ _ Hge).
      destruct (IH r0 Hl) as (M & HM & Hat & Hle & Hall).
      exists M. split; [exact HM |]. split; [| split; [lra |]].
      * destruct Hat as [-> | Hin]; [now left | right; now right].
      * intros r' [H | H]; [injection H as <-; lra | now apply Hall].
Qed.

(** The maximum of a finite array that is not empty is one of its entries
    and bounds them all. *)
Lemma np_max_finite (a : array) :
  all_finite a -> a <> [] ->
  exists M, np_max a = Some (Fin M)
            /\ In (Fin M) a
            /\ (forall r, In (Fin r) a -> r <= M).
Proof.
  intros Hfin Hne. destruct a as [| x a]; [contradiction |].
  inversion Hfin as [| x' a' (r & ->) Ha]; subst.
  destruct (fold_maximum_attained a r Ha) as (M & HM & Hat & Hle & Hall).
  exists M. cbn [np_max]. split; [now f_equal |]. split.
  - destruct Hat as [-> | Hin]; [now left | now right].
  - intros r' [H | H]; [injection H as <-; lra | now apply Hall].
Qed.

Lemma np_max_value (a : array) (v : R) :
  all_finite a ->
  (exists r, In (Fin r) a /\ r = v) ->
  (forall r, In (Fin r) a -> r <= v) ->
  np_max a = Some (Fin v).
Proof.
  intros Hfin (r & Hin & Hr) Hall.
  assert (Hne : a <> []) by (intros ->; contradiction).
  destruct (np_max_finite a Hfin Hne) as (M & -> & HinM & HallM).
  do 2 f_equal. specialize (Hall M HinM). specialize (HallM r Hin). lra.
Qed.

Lemma np_abs_finite (a : array) : all_finite a -> all_finite (np_abs a).
Proof.
  unfold all_finite, np_abs. intros H. apply Forall_map.
  apply Forall_impl with (2 := H). intros y (s & ->). cbn [fabs]. eauto.
Qed.

Lemma in_np_abs (a : array) (m : R) :
  all_finite a -> In (Fin m) (np_abs a) ->
  exists r, In (Fin r) a /\ Rabs r = m.
Proof.
  intros Hfin Hin. unfold np_abs in Hin. apply in_map_iff in Hin as (x & Hx & Hin).
  unfold all_finite in Hfin. rewrite Forall_forall in Hfin.
  destruct (Hfin x Hin) as (r & ->).
  cbn [fabs] in Hx. injection Hx as <-. eauto.
Qed.

Lemma compress_sounding (a : array) :
  all_finite a -> Exists (fun x => x <> Fin 0) a ->
  Exists (fun x => x <> Fin 0) (compress (Fin 0.1) (Fin 3) a).
Proof.
  intros Hfin Hex. induction Hfin as [| x a (r & ->) Ha IH]; [inversion Hex |].
  rewrite compress_cons. destruct (compress_sample r) as (s & -> & _ & _ & _ & _ & Hz).
  cbn [app]. inversion Hex as [? ? Hx | ? ? Hrest]; subst.
  - apply Exists_cons_hd. intros H. injection H as ->. apply Hx.
    now rewrite Hz.
  - apply Exists_cons_tl. now apply IH.
Qed.

Lemma compress_silent (a : array) :
  Forall (fun x => x = Fin 0) a -> compress (Fin 0.1) (Fin 3) a = a.
Proof.
  induction 1 as [| x a -> _ IH]; [reflexivity |].
  rewrite compress_cons, IH.
  destruct (compress_sample 0) as (s & -> & _ & _ & Hid & _).
  rewrite Hid by (rewrite Rabs_R0; lra). reflexivity.
Qed.

(** The statements after the filter, on a finite signal with a sample that
    is not zero: the result has a peak of exactly 0.8. *)
Lemma compress_and_normalise_peak_exact (filtered : waveform) :
  all_finite filtered -> Exists (fun x => x <> Fin 0) filtered ->
  exists out,
    compress_and_normalise filtered = Some out
    /\ length out = length filtered
    /\ np_max (np_abs out) = Some (Fin 0.8).
Proof.
  intros Hfin Hex. unfold compress_and_normalise.
  set (c := compress (Fin 0.1) (Fin 3) filtered).
  assert (Hc : all_finite c) by now apply compress_finite.
  assert (Hcex : Exists (fun x => x <> Fin 0) c) by now apply compress_sounding.
  assert (Hclen : length c = length filtered) by (unfold c, compress; apply length_map).
  assert (Hcne : c <> []) by (intros E; rewrite E in Hcex; inversion Hcex).
  assert (Hane : np_abs c <> []).
  { unfold np_abs. destruct c; [contradiction | discriminate]. }
  destruct (np_max_finite (np_abs c) (np_abs_finite c Hc) Hane)
    as (M & HM & HinM & HallM).
  rewrite HM. cbn [bind].
  assert (HMpos : 0 < M).
  { apply Exists_exists in Hcex as (x & Hin & Hx).
    pose proof Hc as Hc'. unfold all_finite in Hc'.
    rewrite Forall_forall in Hc'.
    destruct (Hc' x Hin) as (r & ->).
    assert (Hr : r <> 0) by (intros ->; now apply Hx).
    assert (Hle : Rabs r <= M).
    { apply HallM. unfold np_abs. apply in_map_iff. exists (Fin r). auto. }
    pose proof (Rabs_pos_lt r Hr). lra. }
  rewrite (proj2 (fgtb_Fin M 0) HMpos).
  eexists. split; [reflexivity |]. split.
  { now rewrite scale_length, divide_length. }
  assert (Hout : all_finite (scale (divide c (Fin M)) (Fin 0.8))).
  { apply scale_finite, divide_finite; [lra | assumption]. }
  assert (Helem : forall v, In (Fin v) (np_abs (scale (divide c (Fin M)) (Fin 0.8))) ->
                            exists r, In (Fin r) c /\ v = Rabs (r / M * 0.8)).
  { intros v Hin. unfold np_abs, scale, divide in Hin. rewrite !map_map in Hin.
    apply in_map_iff in Hin as (x & Hx & Hin).
    pose proof Hc as Hc'. unfold all_finite in Hc'.
    rewrite Forall_forall in Hc'.
    destruct (Hc' x Hin) as (r & ->).
    rewrite fdiv_Fin in Hx by lra. cbn [fmul fabs] in Hx. injection Hx as <-. eauto. }
  apply np_max_value.
  - now apply np_abs_finite.
  - destruct (in_np_abs c M Hc HinM) as (r & Hin & Hr).
    exists (Rabs (r / M * 0.8)). split.
    + unfold np_abs, scale, divide. rewrite !map_map. apply in_map_iff.
      exists (Fin r). split; [| exact Hin].
      rewrite fdiv_Fin by lra. reflexivity.
    + unfold Rdiv. rewrite !Rabs_mult, Hr.
      rewrite (Rabs_right (/ M)) by (left; now apply Rinv_0_lt_compat).
      rewrite (Rabs_right 0.8) by lra. field. lra.
  - intros v Hin. destruct (Helem v Hin) as (r & Hr & ->).
    apply scaled_within; [exact HMpos |].
    apply HallM. unfold np_abs. apply in_map_iff. exists (Fin r). auto.
Qed.

Section EnhancerPeak.

Context {L : Lib}.

(** X3.  When the low-pass filter runs and returns finite samples, the
    enhancer normalises the peak to exactly 0.8 if a filtered sample is not
    zero, and returns the filtered signal, all zeros, if none is; the
    output is as long as the filtered signal. *)
Theorem enhancer_peak_exact :
  forall (audio filtered : waveform) (sr : Z),
    lowpass audio sr = Some filtered -> all_finite filtered ->
    (Exists (fun x => x <> Fin 0) filtered ->
     np_max (np_abs (enhance_voice_quality audio sr)) = Some (Fin 0.8)
     /\ length (enhance_voice_quality audio sr) = length filtered)
    /\ (Forall (fun x => x = Fin 0) filtered ->
        enhance_voice_quality audio sr = filtered).
Proof.
  intros audio filtered sr Hlow Hfin. unfold enhance_voice_quality.
  rewrite Hlow. split.
  - intros Hex.
    destruct (compress_and_normalise_peak_exact filtered Hfin Hex)
      as (out & -> & Hlen & Hpeak).
    cbn [try_except]. auto.
  - intros Hsil. unfold compress_and_normalise.
    rewrite (compress_silent filtered Hsil).
    destruct filtered as [| x rest]; [reflexivity |].
    inversion Hsil as [| ? ? Hx Hrest]; subst.
    assert (Hz : np_max (np_abs (Fin 0 :: rest)) = Some (Fin 0)).
    { apply np_max_value.
      - now apply np_abs_finite.
      - exists (Rabs 0). split; [now left | apply Rabs_R0].
      - intros r Hin. destruct (in_np_abs _ r Hfin Hin) as (r' & Hin' & <-).
        rewrite Forall_forall in Hsil. specialize (Hsil _ Hin').
        injection Hsil as ->. rewrite Rabs_R0. lra. }
    rewrite Hz. cbn [bind]. unfold fgtb. cbn [fltb].
    rewrite Rlt_b_false by lra. reflexivity.
Qed.

End EnhancerPeak.

(** Sixteen samples of 2.0, and sixteen of 0. *)
Lemma enhancer_peak_exact_witness :
  (np_max (np_abs (@enhance_voice_quality demo_lib (repeat (Fin 2) 16) SR))
   = Some (Fin 0.8)
   /\ length (@enhance_voice_quality demo_lib (repeat (Fin 2) 16) SR) = 16%nat)
  /\ @enhance_voice_quality demo_lib (repeat (Fin 0) 16) SR = repeat (Fin 0) 16.
Proof.
  split.
  - apply (proj1 (@enhancer_peak_exact demo_lib (repeat (Fin 2) 16)
                    (repeat (Fin 2) 16) SR
                    ltac:(rewrite demo_lowpass; reflexivity)
                    ltac:(apply Forall_forall; intros x Hx;
                          apply repeat_spec in Hx; subst; eauto))).
    cbn [repeat]. apply Exists_cons_hd. intros H. injection H as H. lra.
  - apply (proj2 (@enhancer_peak_exact demo_lib (repeat (Fin 0) 16)
                    (repeat (Fin 0) 16) SR
                    ltac:(rewrite demo_lowpass; reflexivity)
                    ltac:(apply Forall_forall; intros x Hx;
                          apply repeat_spec in Hx; subst; eauto))).
    apply Forall_forall. intros x Hx. now apply repeat_spec in Hx.
Defined.

(** ** The gains of the spectral stages *)

Lemma exp_nonpositive (x : R) : x <= 0 -> 0 < exp x <= 1.
Proof.
  intros [Hlt | ->].
  - split; [apply exp_pos |]. rewrite <- exp_0. left. now apply exp_increasing.
  - rewrite exp_0. lra.
Qed.

Lemma exp_nonnegative (x : R) : 0 <= x -> 1 <= exp x.
Proof.
  intros [Hlt | <-].
  - rewrite <- exp_0. left. now apply exp_increasing.
  - rewrite exp_0. lra.
Qed.

(** A Gaussian weight around a positive centre is a number in (0, 1]. *)
Lemma gaussian_weights_range (freqs : array) (centre width : R) :
  all_finite freqs -> 0 < centre -> 0 < width ->
  Forall (fun wgt => exists v, wgt = Fin v /\ 0 < v <= 1)
         (gaussian_weights freqs (Fin centre) (Fin width)).
Proof.
  intros Hfin Hc Hw. unfold gaussian_weights. apply Forall_map.
  apply Forall_impl with (2 := Hfin). intros x (f & ->).
  cbn [fsub fneg fadd fmul].
  assert (Hcw : centre * width <> 0) by nra.
  rewrite fdiv_Fin by assumption. cbn [fpow2 fmul fexp].
  eexists. split; [reflexivity |]. apply exp_nonpositive.
  set (z := (f + - centre) / (centre * width)). nra.
Qed.

Lemma envelope_gain_range (ratio : R) (weights : array) :
  0.8 <= ratio <= 1.2 ->
  Forall (fun wgt => exists v, wgt = Fin v /\ 0 < v <= 1) weights ->
  Forall (fun g => exists v, g = Fin v /\ 0.94 <= v <= 1.06
                             /\ (1 <= ratio -> 1 <= v) /\ (ratio <= 1 -> v <= 1))
         (envelope_gain (Fin ratio) weights).
Proof.
  intros Hr Hw. unfold envelope_gain. apply Forall_map.
  apply Forall_impl with (2 := Hw). intros x (v & -> & Hv).
  cbn [fsub fneg fadd fmul]. eexists. split; [reflexivity |].
  repeat split; intros; nra.
Qed.

Lemma formant_gain_range (weights : array) :
  Forall (fun wgt => exists v, wgt = Fin v /\ 0 < v <= 1) weights ->
  Forall (fun g => exists v, g = Fin v /\ 1 <= v <= 1.2) (formant_gain weights).
Proof.
  intros Hw. unfold formant_gain. apply Forall_map.
  apply Forall_impl with (2 := Hw). intros x (v & -> & Hv).
  cbn [fadd fmul]. eexists. split; [reflexivity |]. lra.
Qed.

(** The tilt raises every bin when the target centroid is above the
    current one and lowers every bin when it is below. *)
Lemma spectral_tilt_range (t c : R) (freqs : array) :
  0 < t -> 0 < c -> frequencies freqs ->
  Forall (fun g => exists v, g = Fin v /\ 0 < v
                             /\ (c <= t -> 1 <= v) /\ (t <= c -> v <= 1))
         (spectral_tilt (fmul (flog (fdiv (Fin t) (Fin c))) (Fin 0.1)) freqs).
Proof.
  intros Ht Hc Hf. unfold spectral_tilt. apply Forall_map.
  apply Forall_impl with (2 := Hf). intros x (f & -> & Hfpos).
  rewrite fdiv_Fin by lra.
  assert (Hq : 0 < t / c) by now apply Rdiv_lt_0_compat.
  cbn [flog]. rewrite (Rlt_b_false (t / c) 0), (Req_b_false (t / c) 0) by lra.
  cbn [fmul fadd flog]. rewrite (Rlt_b_false (f + 1) 0), (Req_b_false (f + 1) 0) by lra.
  cbn [fmul fexp]. eexists. split; [reflexivity |].
  assert (Hl : 0 <= ln (f + 1)).
  { rewrite <- ln_1. apply ln_monotone; lra. }
  split; [apply exp_pos |]. split.
  - intros Hle. apply exp_nonnegative.
    assert (0 <= ln (t / c)).
    { rewrite <- ln_1. apply ln_monotone; [lra |].
      apply Rmult_le_reg_r with c; [lra |]. unfold Rdiv.
      rewrite Rmult_assoc, Rinv_l by lra. lra. }
    nra.
  - intros Hle. apply exp_nonpositive.
    assert (ln (t / c) <= 0).
    { rewrite <- ln_1. apply ln_monotone; [lra |].
      apply Rmult_le_reg_r with c; [lra |]. unfold Rdiv.
      rewrite Rmult_assoc, Rinv_l by lra. lra. }
    nra.
Qed.

(** ** Scaling the rows of a magnitude matrix *)

Lemma scale_row_entrywise (Q : R -> Prop) (row : array) (v : R) :
  Forall (fun x => exists a, x = Fin a /\ 0 <= a) row -> Q v ->
  Forall2 (fun x y => exists a b, x = Fin a /\ y = Fin b
                                  /\ 0 <= a /\ exists v, Q v /\ b = a * v)
          row (scale row (Fin v)).
Proof.
  intros Hrow HQ. unfold scale.
  induction Hrow as [| x row (a & -> & Ha) _ IH]; cbn [map]; constructor; auto.
  cbn [fmul]. exists a, (a * v). repeat split; eauto.
Qed.

Lemma scale_each_row_entrywise (Q : R -> Prop) (m : matrix) (gains : array) :
  magnitudes m ->
  Forall (fun g => exists v, g = Fin v /\ Q v) gains ->
  length gains = length m ->
  entrywise (fun a b => 0 <= a /\ exists v, Q v /\ b = a * v)
            m (scale_each_row m gains).
Proof.
  intros Hm. revert gains.
  induction Hm as [| row m Hrow _ IH]; intros gains Hg Hlen.
  - destruct gains; [constructor | discriminate].
  - destruct gains as [| g gains]; [discriminate |].
    inversion Hg as [| ? ? (v & -> & Hv) Hg']; subst.
    cbn [scale_each_row]. constructor.
    + now apply scale_row_entrywise.
    + apply IH; [assumption |]. cbn [length] in Hlen. lia.
Qed.

(** Gains in the range [Q], one for each row, scale a magnitude matrix
    without raising, and every entry by a factor in [Q]. *)
Lemma scale_rows_entrywise (Q : R -> Prop) (m : matrix) (gains : array) :
  magnitudes m ->
  Forall (fun g => exists v, g = Fin v /\ Q v) gains ->
  length gains = length m ->
  exists m', scale_rows m gains = Some m'
             /\ entrywise (fun a b => 0 <= a /\ exists v, Q v /\ b = a * v) m m'.
Proof.
  intros Hm Hg Hlen. unfold scale_rows. rewrite Hlen, Nat.eqb_refl.
  eexists. split; [reflexivity |]. now apply scale_each_row_entrywise.
Qed.

Lemma entrywise_impl (P P' : R -> R -> Prop) (m m' : matrix) :
  (forall a b, P a b -> P' a b) -> entrywise P m m' -> entrywise P' m m'.
Proof.
  intros H Hm. unfold entrywise in *.
  induction Hm as [| r r' m m' Hr _ IH]; constructor; [| exact IH].
  induction Hr as [| x y r r' (a & b & -> & -> & Hab) _ IHr]; constructor; eauto 6.
Qed.

Lemma entrywise_trans (P P' P'' : R -> R -> Prop) (m1 m2 m3 : matrix) :
  (forall a b c, P a b -> P' b c -> P'' a c) ->
  entrywise P m1 m2 -> entrywise P' m2 m3 -> entrywise P'' m1 m3.
Proof.
  intros H H12. unfold entrywise in *. revert m3.
  induction H12 as [| r1 r2 m1 m2 Hr _ IH]; intros m3 H23;
    inversion H23 as [| ? r3 ? m3' Hr' H23']; subst; constructor; [| now apply IH].
  clear - H Hr Hr'. revert r3 Hr'.
  induction Hr as [| x y r1 r2 (a & b & -> & -> & Hab) _ IHr]; intros r3 Hr';
    inversion Hr' as [| ? z ? r3' (b' & c & Eb & -> & Hbc) Hr'']; subst;
    constructor; [| now apply IHr].
  injection Eb as <-. eauto 6.
Qed.

Lemma entrywise_magnitudes (P : R -> R -> Prop) (m m' : matrix) :
  (forall a b, P a b -> 0 <= b) -> entrywise P m m' -> magnitudes m'.
Proof.
  intros H Hm. unfold entrywise, magnitudes in *.
  induction Hm as [| r r' m m' Hr _ IH]; constructor; [| exact IH].
  induction Hr as [| x y r r' (a & b & -> & -> & Hab) _ IHr]; constructor; eauto.
Qed.

Lemma entrywise_length (P : R -> R -> Prop) (m m' : matrix) :
  entrywise P m m' -> length m' = length m.
Proof. intros H. symmetry. exact (Forall2_length H). Qed.

Lemma entrywise_refl (P : R -> R -> Prop) (m : matrix) :
  (forall a, 0 <= a -> P a a) -> magnitudes m -> entrywise P m m.
Proof.
  intros H Hm. unfold entrywise, magnitudes in *.
  induction Hm as [| r m Hr _ IH]; constructor; [| exact IH].
  induction Hr as [| x r (a & -> & Ha) _ IHr]; constructor; eauto 6.
Qed.

Lemma ratio_above_one (t c : R) : 0 < c -> c <= t -> 1 <= t / c.
Proof.
  intros Hc Hle. apply Rmult_le_reg_r with c; [lra |]. unfold Rdiv.
  rewrite Rmult_assoc, Rinv_l by lra. lra.
Qed.

Lemma ratio_below_one (t c : R) : 0 < c -> t <= c -> t / c <= 1.
Proof.
  intros Hc Hle. apply Rmult_le_reg_r with c; [lra |]. unfold Rdiv.
  rewrite Rmult_assoc, Rinv_l by lra. lra.
Qed.

Lemma clamp_keeps_side (x lo hi : R) :
  lo <= 1 <= hi ->
  (1 <= x -> 1 <= Rmin (Rmax x lo) hi) /\ (x <= 1 -> Rmin (Rmax x lo) hi <= 1).
Proof.
  intros H. unfold Rmin, Rmax.
  destruct (Rle_dec x lo); destruct (Rle_dec _ hi); split; intros; lra.
Qed.

Lemma all_finite_firstn (n : nat) (a : array) :
  all_finite a -> all_finite (firstn n a).
Proof.
  unfold all_finite. intros H. revert n.
  induction H as [| x a Hx _ IH]; intros [| n]; cbn [firstn];
    try apply Forall_nil.
  apply Forall_cons; [exact Hx | apply IH].
Qed.

(** A chain of formant emphases raises every magnitude, each by a factor
    of at most 1.2. *)
Lemma emphasise_formants_boost (freqs fs : array) :
  all_finite freqs -> all_finite fs ->
  forall m : matrix,
    magnitudes m -> length freqs = length m ->
    exists m',
      emphasise_formants m freqs fs = Some m'
      /\ entrywise (fun a b => 0 <= a /\ a <= b <= 1.2 ^ length fs * a) m m'.
Proof.
  intros Hfreqs Hfs. induction Hfs as [| x fs (f & ->) _ IH]; intros m Hm Hlen.
  - exists m. split; [reflexivity |]. apply entrywise_refl; [| assumption].
    intros a Ha. cbn [length pow]. lra.
  - cbn [emphasise_formants length].
    assert (Hp : 1 <= 1.2 ^ length fs) by (apply pow_R1_Rle; lra).
    destruct (fgtb (Fin f) (Fin 0)) eqn:Ef.
    + apply fgtb_Fin in Ef.
      pose proof (formant_gain_range _
                    (gaussian_weights_range freqs f 0.1 Hfreqs Ef ltac:(lra))) as Hg.
      assert (Hgl : length (formant_gain (gaussian_weights freqs (Fin f) (Fin 0.1)))
                    = length m).
      { unfold formant_gain, gaussian_weights. now rewrite !length_map. }
      destruct (scale_rows_entrywise (fun v => 1 <= v <= 1.2) m _ Hm Hg Hgl)
        as (m1 & -> & H1).
      cbn [bind].
      assert (Hm1 : magnitudes m1).
      { apply (entrywise_magnitudes _ m m1) with (2 := H1).
        intros a b (Ha & v & Hv & ->). nra. }
      assert (Hl1 : length freqs = length m1)
        by (rewrite (entrywise_length _ _ _ H1); exact Hlen).
      destruct (IH m1 Hm1 Hl1) as (m' & -> & H2).
      exists m'. split; [reflexivity |].
      apply (entrywise_trans _ _ _ m m1 m') with (2 := H1) (3 := H2).
      intros a b c (Ha & v & Hv & ->) (Hb & Hc). cbn [pow].
      split; [assumption |]. split; nra.
    + destruct (IH m Hm Hlen) as (m' & -> & H2).
      exists m'. split; [reflexivity |].
      apply (entrywise_impl _ _ m m') with (2 := H2).
      intros a b (Ha & Hb). cbn [pow]. split; [assumption |]. split; nra.
Qed.

Section SpectralGains.

Context {L : Lib}.

(** X4.  With positive finite centroids, magnitudes that are finite and
    not negative and one finite frequency for each row, the spectral
    envelope stage resynthesises from magnitudes that lie between 0.94 and
    1.06 times the original ones; they are not lowered when the target
    centroid is at or above the current one, and not raised when it is at
    or below. *)
Theorem envelope_stage_gain_bound :
  forall (audio : waveform) (sr : Z) (tf : Features) (t c : R)
         (S : cmatrix) (cents : array),
    spectral_centroid_mean tf = Some (Fin t) -> 0 < t ->
    librosa_stft audio N_FFT HOP_LENGTH = Some S ->
    librosa_spectral_centroid audio sr = Some cents ->
    np_mean cents = Fin c -> 0 < c ->
    magnitudes (magnitude_of S) ->
    all_finite (librosa_fft_frequencies sr N_FFT) ->
    length (librosa_fft_frequencies sr N_FFT) = length (magnitude_of S) ->
    exists m',
      entrywise (fun a b => 0 <= a /\ 0.94 * a <= b <= 1.06 * a
                            /\ (c <= t -> a <= b) /\ (t <= c -> b <= a))
                (magnitude_of S) m'
      /\ modify_spectral_envelope audio sr tf =
           try_except (librosa_istft (from_polar m' (phase_of S)) HOP_LENGTH) audio.
Proof.
  intros audio sr tf t c S cents Ht Htpos HS Hcents Hc Hcpos Hm Hfreqs Hlen.
  rewrite (envelope_stage_positive audio sr tf t c S cents) by assumption.
  rewrite fdiv_Fin by lra. rewrite np_clip_Fin by lra.
  set (r := Rmin (Rmax (t / c) 0.8) 1.2).
  assert (Hr : 0.8 <= r <= 1.2) by (apply Rmin_Rmax_bounds; lra).
  pose proof (clamp_keeps_side (t / c) 0.8 1.2 ltac:(lra)) as (Hup & Hdown).
  fold r in Hup, Hdown.
  pose proof (envelope_gain_range r _ Hr
                (gaussian_weights_range _ t 0.3 Hfreqs Htpos ltac:(lra))) as Hg.
  assert (Hgl : length (envelope_gain (Fin r)
                          (gaussian_weights (librosa_fft_frequencies sr N_FFT)
                                            (Fin t) (Fin 0.3)))
                = length (magnitude_of S)).
  { unfold envelope_gain, gaussian_weights. now rewrite !length_map. }
  destruct (scale_rows_entrywise _ _ _ Hm Hg Hgl) as (m' & -> & H1).
  exists m'. split; [| reflexivity].
  apply (entrywise_impl _ _ _ _) with (2 := H1).
  intros a b (Ha & v & (Hv & Hv1 & Hv2) & ->).
  split; [assumption |]. split; [nra |]. split; intros Hle.
  - assert (1 <= v) by (apply Hv1, Hup; now apply ratio_above_one). nra.
  - assert (v <= 1) by (apply Hv2, Hdown; now apply ratio_below_one). nra.
Qed.

(** X5.  With finite formants, magnitudes that are finite and not negative
    and one finite frequency for each row, the formant stage resynthesises
    from magnitudes that are nowhere below the original ones and at most
    1.728 times them (three emphases of at most 1.2 each). *)
Theorem formant_stage_gain_bound :
  forall (audio : waveform) (sr : Z) (tf : Features) (fs : array) (S : cmatrix),
    formants tf = Some fs -> all_finite fs ->
    librosa_stft audio 2048 512 = Some S ->
    magnitudes (magnitude_of S) ->
    all_finite (librosa_fft_frequencies sr 2048) ->
    length (librosa_fft_frequencies sr 2048) = length (magnitude_of S) ->
    exists m',
      entrywise (fun a b => 0 <= a /\ a <= b <= 1.728 * a) (magnitude_of S) m'
      /\ apply_formant_shifting audio sr tf =
           try_except (librosa_istft (from_polar m' (phase_of S)) 512) audio.
Proof.
  intros audio sr tf fs S Hf Hfs HS Hm Hfreqs Hlen.
  unfold apply_formant_shifting, apply_formant_shifting_body.
  rewrite HS, Hf. cbn [bind].
  destruct (0 <? length fs)%nat.
  - assert (Hfs3 : all_finite (firstn 3 fs)).
    { now apply all_finite_firstn. }
    destruct (emphasise_formants_boost _ _ Hfreqs Hfs3 _ Hm Hlen) as (m' & -> & H1).
    exists m'. split; [| reflexivity].
    apply (entrywise_impl _ _ _ _) with (2 := H1).
    intros a b (Ha & Hb). split; [assumption |].
    assert (Hpow : 1.2 ^ length (firstn 3 fs) <= 1.728).
    { replace 1.728 with (1.2 ^ 3) by (cbn [pow]; lra).
      apply Rle_pow; [lra |]. rewrite length_firstn. lia. }
    assert (0 < 1.2 ^ length (firstn 3 fs)) by (apply pow_lt; lra).
    nra.
  - exists (magnitude_of S). split; [| reflexivity].
    apply entrywise_refl; [| assumption]. intros a Ha. lra.
Qed.

(** X6.  With a positive finite target centroid (2000 Hz when the key is
    absent) and a positive finite current centroid, magnitudes that are
    finite and not negative and one finite frequency that is not negative
    for each row, the texture stage resynthesises from magnitudes that are
    nowhere lowered when the target is at or above the current centroid,
    and nowhere raised when it is at or below. *)
Theorem texture_stage_tilt_direction :
  forall (audio : waveform) (sr : Z) (tf : Features) (t c : R)
         (S : cmatrix) (cents : array),
    dict_get (spectral_centroid_mean tf) (Fin 2000) = Fin t -> 0 < t ->
    librosa_stft audio N_FFT HOP_LENGTH = Some S ->
    librosa_spectral_centroid audio sr = Some cents ->
    np_mean cents = Fin c -> 0 < c ->
    magnitudes (magnitude_of S) ->
    frequencies (librosa_fft_frequencies sr N_FFT) ->
    length (librosa_fft_frequencies sr N_FFT) = length (magnitude_of S) ->
    exists m',
      entrywise (fun a b => 0 <= a /\ 0 <= b
                            /\ (c <= t -> a <= b) /\ (t <= c -> b <= a))
                (magnitude_of S) m'
      /\ adjust_voice_texture audio sr tf =
           try_except (librosa_istft (from_polar m' (phase_of S)) HOP_LENGTH) audio.
Proof.
  intros audio sr tf t c S cents Ht Htpos HS Hcents Hc Hcpos Hm Hfreqs Hlen.
  unfold adjust_voice_texture, adjust_voice_texture_body.
  rewrite HS. cbn [bind]. rewrite Ht, Hcents. cbn [bind]. rewrite Hc.
  rewrite (proj2 (fgtb_Fin c 0) Hcpos), (proj2 (fgtb_Fin t 0) Htpos). cbn [andb].
  pose proof (spectral_tilt_range t c _ Htpos Hcpos Hfreqs) as Hg.
  assert (Hgl : length (spectral_tilt (fmul (flog (fdiv (Fin t) (Fin c))) (Fin 0.1))
                          (librosa_fft_frequencies sr N_FFT))
                = length (magnitude_of S)).
  { unfold spectral_tilt. now rewrite length_map. }
  destruct (scale_rows_entrywise _ _ _ Hm Hg Hgl) as (m' & -> & H1).
  exists m'. split; [| reflexivity].
  apply (entrywise_impl _ _ _ _) with (2 := H1).
  intros a b (Ha & v & (Hv & Hv1 & Hv2) & ->).
  split; [assumption |]. split; [nra |]. split; intros Hle.
  - specialize (Hv1 Hle). nra.
  - specialize (Hv2 Hle). nra.
Qed.

End SpectralGains.

Lemma demo_magnitudes_one : magnitudes [np_abs [Fin 1]].
Proof.
  repeat constructor. cbn [fabs]. exists (Rabs 1). split; [reflexivity |].
  apply Rabs_pos.
Qed.

(** One sample of 1.0 and the target centroid 1500 Hz against the current
    1000 Hz. *)
Lemma envelope_stage_gain_bound_witness :
  exists m',
    entrywise (fun a b => 0 <= a /\ 0.94 * a <= b <= 1.06 * a
                          /\ ((0 + 1000) / 1 <= 1500 -> a <= b)
                          /\ (1500 <= (0 + 1000) / 1 -> b <= a))
              [np_abs [Fin 1]] m'
    /\ @modify_spectral_envelope demo_lib [Fin 1] SR demo_features_150 =
         try_except (demo_istft (m', [map demo_phase [Fin 1]]) HOP_LENGTH) [Fin 1].
Proof.
  apply (@envelope_stage_gain_bound demo_lib [Fin 1] SR demo_features_150
           1500 ((0 + 1000) / 1)
           ([np_abs [Fin 1]], [map demo_phase [Fin 1]]) [Fin 1000]).
  - reflexivity.
  - lra.
  - reflexivity.
  - reflexivity.
  - apply demo_mean_singleton.
  - lra.
  - exact demo_magnitudes_one.
  - repeat constructor. now exists 0.
  - reflexivity.
Defined.

(** One sample of 1.0 and the formants 500, 1500, 2500 and 3500 Hz. *)
Lemma formant_stage_gain_bound_witness :
  exists m',
    entrywise (fun a b => 0 <= a /\ a <= b <= 1.728 * a) [np_abs [Fin 1]] m'
    /\ @apply_formant_shifting demo_lib [Fin 1] SR demo_features_150 =
         try_except (demo_istft (m', [map demo_phase [Fin 1]]) 512) [Fin 1].
Proof.
  apply (@formant_stage_gain_bound demo_lib [Fin 1] SR demo_features_150
           fallback_formants ([np_abs [Fin 1]], [map demo_phase [Fin 1]])).
  - reflexivity.
  - unfold fallback_formants. repeat constructor; eexists; reflexivity.
  - reflexivity.
  - exact demo_magnitudes_one.
  - repeat constructor. now exists 0.
  - reflexivity.
Defined.

Lemma texture_stage_tilt_direction_witness :
  exists m',
    entrywise (fun a b => 0 <= a /\ 0 <= b
                          /\ ((0 + 1000) / 1 <= 1500 -> a <= b)
                          /\ (1500 <= (0 + 1000) / 1 -> b <= a))
              [np_abs [Fin 1]] m'
    /\ @adjust_voice_texture demo_lib [Fin 1] SR demo_features_150 =
         try_except (demo_istft (m', [map demo_phase [Fin 1]]) HOP_LENGTH) [Fin 1].
Proof.
  apply (@texture_stage_tilt_direction demo_lib [Fin 1] SR demo_features_150
           1500 ((0 + 1000) / 1)
           ([np_abs [Fin 1]], [map demo_phase [Fin 1]]) [Fin 1000]).
  - reflexivity.
  - lra.
  - reflexivity.
  - reflexivity.
  - apply demo_mean_singleton.
  - lra.
  - exact demo_magnitudes_one.
  - repeat constructor. exists 0. split; [reflexivity | lra].
  - reflexivity.
Defined.

(** ** The footprint of the clone operation *)

Ltac older_files :=
  let name := fresh "name" in
  let n := fresh "n" in
  let Hq := fresh "Hq" in
  intros [name | n] Hq; cbn -[Nat.eqb] in Hq |- *;
  [ reflexivity
  | repeat (rewrite (proj2 (Nat.eqb_neq _ _)) by lia); reflexivity ].

Section Footprint.

Context {L : Lib}.

Lemma synthesize_and_transform_footprint (e : Engine) (w : World) (text : string) :
  (forall q, older_path w q ->
             files (snd (synthesize_and_transform e w text)) q = files w q)
  /\ (next_temp w <= next_temp (snd (synthesize_and_transform e w text))
      <= next_temp w + 2)%nat
  /\ (forall out,
         fst (fst (synthesize_and_transform e w text)) = Some out ->
         out = TempPath (S (next_temp w))
         /\ next_temp (snd (synthesize_and_transform e w text)) = (next_temp w + 2)%nat
         /\ files (snd (synthesize_and_transform e w text)) (TempPath (next_temp w))
            = None
         /\ exists data,
              files (snd (synthesize_and_transform e w text)) out = Some data).
Proof.
  unfold synthesize_and_transform, synthesize_base_speech.
  destruct (pyttsx3_engine e); cbn [negb].
  2: { cbn. split; [reflexivity |]. split; [lia |]. intros out H. discriminate. }
  cbn [named_temporary_file].
  destruct (pyttsx3_render text) as [data |].
  2: { cbn -[Nat.eqb]. split; [older_files |]. split; [lia |].
       intros out H. discriminate. }
  set (w1 := write_file _ data _).
  destruct (exists_nonempty w1 (TempPath (next_temp w))).
  2: { subst w1. cbn -[Nat.eqb]. split; [older_files |]. split; [lia |].
       intros out H. discriminate. }
  unfold apply_voice_transformation, librosa_load.
  assert (Hfile : files w1 (TempPath (next_temp w)) = Some data).
  { subst w1. cbn -[Nat.eqb]. now rewrite Nat.eqb_refl. }
  rewrite Hfile. cbn [bind show files].
  destruct (librosa_decode data) as [audio |] eqn:Hdec; cbn [bind].
  2: { rewrite Hfile. cbn [bind]. rewrite Hdec. cbn [bind].
       subst w1. cbn -[Nat.eqb]. split; [older_files |]. split; [lia |].
       intros out H. discriminate. }
  cbn [named_temporary_file].
  destruct (sf_write _ SR) as [out_data | partial].
  - subst w1. cbn -[Nat.eqb]. split; [older_files |]. split; [lia |].
    intros out [= <-]. split; [reflexivity |]. split; [lia |].
    rewrite Nat.eqb_refl. split; [reflexivity |].
    exists out_data. cbn -[Nat.eqb]. rewrite (proj2 (Nat.eqb_neq _ _)) by lia.
    now rewrite Nat.eqb_refl.
  - subst w1. cbn -[Nat.eqb]. split; [older_files |]. split; [lia |].
    intros out H. discriminate.
Qed.

Lemma load_reference_voice_world (e : Engine) (w : World) (p : path) :
  files (snd (load_reference_voice e w p)) = files w
  /\ next_temp (snd (load_reference_voice e w p)) = next_temp w
  /\ pyttsx3_engine (snd (fst (load_reference_voice e w p))) = pyttsx3_engine e.
Proof.
  unfold load_reference_voice, extract_voice_features.
  destruct (extract_voice_features_body w p) as [[[f a] sr] |]; cbn.
  - destruct (dict_truthy f); cbn; auto.
  - auto.
Qed.

(** The path that [clone_voice] returns. *)
Lemma clone_voice_output (e : Engine) (w : World) (text : string) (p out : path) :
  fst (fst (clone_voice e w text p)) = Some out ->
  out = TempPath (S (next_temp w))
  /\ next_temp (snd (clone_voice e w text p)) = (next_temp w + 2)%nat
  /\ files (snd (clone_voice e w text p)) (TempPath (next_temp w)) = None
  /\ exists data, files (snd (clone_voice e w text p)) out = Some data.
Proof.
  unfold clone_voice.
  destruct (negb (str_truthy (strip text))); [discriminate |].
  destruct (negb (features_truthy (reference_features e))
            || negb (same_path p (last_reference_path e))).
  - destruct (load_reference_voice_world e w p) as (Hf & Hn & _).
    destruct (load_reference_voice e w p) as [[[|] e1] w1]; cbn [fst snd] in *;
      [| discriminate].
    set (e2 := set_last_reference_path e1 p).
    set (w2 := show (UiSuccess "Reference voice analyzed!") w1).
    destruct (synthesize_and_transform_footprint e2 w2 text) as (_ & _ & Hout).
    assert (Hn2 : next_temp w2 = next_temp w) by exact Hn.
    rewrite Hn2 in Hout. apply Hout.
  - destruct (synthesize_and_transform_footprint e w text) as (_ & _ & Hout).
    apply Hout.
Qed.


(** X8.  With no speech engine (its initialisation failed) and a text that
    is not blank, [clone_voice] returns no path and makes no file.  When
    it had to load the reference and the extraction succeeded, the new
    reference stays in the cache under its path although the call failed. *)
Theorem clone_voice_without_speech_engine :
  forall (e : Engine) (w : World) (text : string) (p : path),
    pyttsx3_engine e = false -> str_truthy (strip text) = true ->
    fst (fst (clone_voice e w text p)) = None
    /\ files (snd (clone_voice e w text p)) = files w
    /\ next_temp (snd (clone_voice e w text p)) = next_temp w
    /\ (forall (f : Features) (a : waveform) (sr : Z),
           negb (features_truthy (reference_features e))
           || negb (same_path p (last_reference_path e)) = true ->
           extract_voice_features_body w p = Some (f, a, sr) ->
           snd (fst (clone_voice e w text p)) =
             mkEngine (Some f) (Some a) (Some sr) false (Some p)
           /\ ui (snd (clone_voice e w text p)) =
                UiError "Failed to generate base speech"
                  :: UiSuccess "Reference voice analyzed!" :: ui w).
Proof.
  intros e w text p Htts Htext. unfold clone_voice. rewrite Htext. cbn [negb].
  destruct (negb (features_truthy (reference_features e))
            || negb (same_path p (last_reference_path e))) eqn:Hmiss.
  - destruct (extract_voice_features_body w p) as [[[f a] sr] |] eqn:Hx.
    + rewrite (load_reference_voice_success e w p f a sr Hx).
      unfold synthesize_and_transform, synthesize_base_speech,
        set_last_reference_path.
      cbn [pyttsx3_engine]. rewrite Htts. cbn.
      split; [reflexivity |]. split; [reflexivity |]. split; [reflexivity |].
      intros f' a' sr' _ [= <- <- <-]. auto.
    + rewrite (load_reference_voice_failure e w p Hx). cbn.
      split; [reflexivity |]. split; [reflexivity |]. split; [reflexivity |].
      intros f a sr _ H. discriminate.
  - unfold synthesize_and_transform, synthesize_base_speech.
    rewrite Htts. cbn.
    split; [reflexivity |]. split; [reflexivity |]. split; [reflexivity |].
    intros f a sr H. discriminate.
Qed.

End Footprint.


(** An engine without speech engine and without cache, asked to clone from
    [reference.wav]. *)
Lemma clone_voice_without_speech_engine_witness :
  fst (fst (@clone_voice demo_lib (mkEngine None None None false None) demo_world
              "hello" reference_wav)) = None
  /\ files (snd (@clone_voice demo_lib (mkEngine None None None false None)
                   demo_world "hello" reference_wav)) = files demo_world
  /\ last_reference_path
       (snd (fst (@clone_voice demo_lib (mkEngine None None None false None)
                    demo_world "hello" reference_wav))) = Some reference_wav.
Proof.
  destruct (@clone_voice_without_speech_engine demo_lib
              (mkEngine None None None false None) demo_world "hello"
              reference_wav eq_refl eq_refl) as (Hnone & Hfiles & _ & Hcache).
  split; [exact Hnone |]. split; [exact Hfiles |].
  destruct (@demo_extraction_succeeds (fun _ _ => Written "RIFFWAVE")
              demo_world reference_wav "reference" eq_refl
              ltac:(discriminate)) as (f & a & Hx).
  destruct (Hcache f a SR eq_refl Hx) as (-> & _). reflexivity.
Defined.

(** ** The pitch stage on a base without voiced pitch *)

Lemma drop_nan_undefined (a : array) :
  Forall (fun x => x = NaN) a -> drop_nan a = [].
Proof.
  unfold drop_nan. induction 1 as [| x a -> _ IH]; [reflexivity |].
  cbn [filter isnan negb]. exact IH.
Qed.

Lemma mask_unvoiced (f0 : array) (voiced : list bool) :
  forallb negb voiced = true -> mask f0 voiced = [].
Proof.
  revert voiced. induction f0 as [| x f0 IH]; intros [| [|] voiced];
    cbn [forallb negb andb mask]; try reflexivity; try discriminate.
  apply IH.
Qed.

Lemma np_nanmean_undefined (a : array) :
  Forall (fun x => x = NaN) a -> np_nanmean a = NaN.
Proof.
  intros H. unfold np_nanmean. rewrite (drop_nan_undefined a H).
  unfold np_mean, np_sum. cbn [fold_left length of_nat INR].
  now apply fdiv_zero_zero.
Qed.

Section UnvoicedBase.

Context {L : Lib}.

(** X9.  When the pitch tracker reports no defined pitch among the voiced
    frames of the base audio (in particular when it reports no voiced
    frame), the pitch stage returns its input, whatever the target
    features are. *)
Theorem pitch_stage_unvoiced_base :
  forall (audio : waveform) (sr : Z) (tf : Features)
         (f0 : array) (voiced : list bool),
    librosa_pyin audio = Some (f0, voiced) ->
    (Forall (fun x => x = NaN) (mask f0 voiced) \/ forallb negb voiced = true) ->
    apply_pitch_transformation audio sr tf = audio.
Proof.
  intros audio sr tf f0 voiced Hpyin Hun.
  assert (Hnan : np_nanmean (mask f0 voiced) = NaN).
  { destruct Hun as [H | H].
    - now apply np_nanmean_undefined.
    - rewrite (mask_unvoiced f0 voiced H). now apply np_nanmean_undefined. }
  unfold apply_pitch_transformation, apply_pitch_transformation_body, dict_item.
  destruct (f0_mean tf) as [t |]; [| reflexivity]. cbn [bind].
  destruct (isnan t); [reflexivity |].
  rewrite Hpyin. cbn [bind]. rewrite Hnan. reflexivity.
Qed.

End UnvoicedBase.

Lemma pitch_stage_unvoiced_base_witness :
  @apply_pitch_transformation unvoiced_lib [Fin 1] SR demo_features_150 = [Fin 1].
Proof.
  apply (@pitch_stage_unvoiced_base unvoiced_lib [Fin 1] SR demo_features_150
           [NaN] [false] eq_refl).
  right. reflexivity.
Defined.

(** ** The similarity of positive features *)

Lemma ratio_min_max (a b : R) :
  0 < a -> 0 < b ->
  0 < Rmin a b / Rmax a b <= 1
  /\ (Rmin a b / Rmax a b = 1 <-> a = b).
Proof.
  intros Ha Hb. unfold Rmin, Rmax. destruct (Rle_dec a b) as [Hle | Hgt].
  - assert (H1 : a / b <= 1) by now apply ratio_below_one.
    assert (H0 : 0 < a / b) by now apply Rdiv_lt_0_compat.
    split; [lra |]. split.
    + intros H. apply (f_equal (fun x => x * b)) in H.
      unfold Rdiv in H. rewrite Rmult_assoc, Rinv_l in H by lra. lra.
    + intros ->. apply Rdiv_diag. lra.
  - assert (H1 : b / a <= 1) by (apply ratio_below_one; lra).
    assert (H0 : 0 < b / a) by now apply Rdiv_lt_0_compat.
    split; [lra |]. split.
    + intros H. apply (f_equal (fun x => x * a)) in H.
      unfold Rdiv in H. rewrite Rmult_assoc, Rinv_l in H by lra. lra.
    + intros ->. apply Rdiv_diag. lra.
Qed.

(** For positive values the closeness is the smaller over the larger. *)
Lemma closeness_positive (a b : R) :
  0 < a -> 0 < b -> closeness (Fin a) (Fin b) = Fin (Rmin a b / Rmax a b).
Proof.
  intros Ha Hb. unfold closeness, py_max, fgtb.
  cbn [fltb fsub fneg fadd fabs]. unfold Rmin, Rmax.
  destruct (Rle_dec a b) as [Hle | Hgt].
  - destruct (Rlt_dec a b) as [Hlt | Heq].
    + rewrite (Rlt_b_true a b Hlt). rewrite fdiv_Fin by lra.
      cbn [fneg fadd]. apply Fin_eq.
      rewrite Rabs_left by lra. field. lra.
    + rewrite (Rlt_b_false a b Heq). assert (a = b) by lra. subst b.
      rewrite fdiv_Fin by lra. cbn [fneg fadd]. apply Fin_eq.
      replace (a + - a) with 0 by ring. rewrite Rabs_R0. field. lra.
  - rewrite (Rlt_b_false a b) by lra. rewrite fdiv_Fin by lra.
    cbn [fneg fadd]. apply Fin_eq.
    rewrite Rabs_right by lra. field. lra.
Qed.

Lemma clamp_unit_inside (s : R) :
  0 < s <= 1 -> py_max (Fin 0) (py_min (Fin 1) (Fin s)) = Fin s.
Proof.
  intros Hs. unfold py_max, py_min, fgtb. cbn [fltb].
  destruct (Rlt_dec s 1) as [Hlt | Hge].
  - rewrite (Rlt_b_true s 1 Hlt). cbn [fltb]. now rewrite Rlt_b_true by lra.
  - rewrite (Rlt_b_false s 1 Hge). cbn [fltb]. rewrite Rlt_b_true by lra.
    apply Fin_eq. lra.
Qed.

(** X10.  For two feature dictionaries with positive finite pitches [a],
    [b] and centroids [c], [d], the similarity is the mean of the two
    ratios of the smaller to the larger value: a positive number, at most
    1, and 1 only when the pitches are equal and the centroids are equal. *)
Theorem similarity_of_positive_features :
  forall (f g : Features) (a b c d : R),
    f0_mean f = Some (Fin a) -> f0_mean g = Some (Fin b) ->
    spectral_centroid_mean f = Some (Fin c) ->
    spectral_centroid_mean g = Some (Fin d) ->
    0 < a -> 0 < b -> 0 < c -> 0 < d ->
    similarity_body f g =
      Some (Fin ((Rmin a b / Rmax a b + Rmin c d / Rmax c d) / 2))
    /\ 0 < (Rmin a b / Rmax a b + Rmin c d / Rmax c d) / 2 <= 1
    /\ ((Rmin a b / Rmax a b + Rmin c d / Rmax c d) / 2 = 1 <-> a = b /\ c = d).
Proof.
  intros f g a b c d Hfa Hgb Hfc Hgd Ha Hb Hc Hd.
  destruct (ratio_min_max a b Ha Hb) as (Hp & Hp1).
  destruct (ratio_min_max c d Hc Hd) as (Hs & Hs1).
  set (p := Rmin a b / Rmax a b) in *. set (s := Rmin c d / Rmax c d) in *.
  assert (Hrange : 0 < (p + s) / 2 <= 1) by lra.
  split; [| split; [exact Hrange |]].
  - unfold similarity_body, dict_item. rewrite Hfa, Hgb, Hfc, Hgd. cbn [bind].
    rewrite (closeness_positive a b Ha Hb), (closeness_positive c d Hc Hd).
    fold p s. cbn [fadd]. rewrite fdiv_Fin by lra.
    now rewrite clamp_unit_inside.
  - split.
    + intros H. assert (p = 1) by lra. assert (s = 1) by lra.
      split; [now apply Hp1 | now apply Hs1].
    + intros [Hab Hcd]. apply Hp1 in Hab. apply Hs1 in Hcd. lra.
Qed.

(** 150 Hz against 120 Hz and 1500 Hz against 1000 Hz. *)
Lemma similarity_of_positive_features_witness :
  similarity_body demo_features_150
    (mkFeatures (Some (Fin 120)) None (Some (Fin 1000)) None None None None
                None None)
  = Some (Fin ((Rmin 150 120 / Rmax 150 120 + Rmin 1500 1000 / Rmax 1500 1000) / 2)).
Proof.
  apply (similarity_of_positive_features demo_features_150
           (mkFeatures (Some (Fin 120)) None (Some (Fin 1000)) None None None
                       None None None)
           150 120 1500 1000 eq_refl eq_refl eq_refl eq_refl);
    lra.
Defined.

(** ** The similarity of a recording without pitch *)

Lemma closeness_undefined (b : fnum) : closeness NaN b = NaN.
Proof. reflexivity. Qed.

Lemma similarity_body_undefined_pitch (f g : Features) (c d : fnum) :
  spectral_centroid_mean f = Some c -> spectral_centroid_mean g = Some d ->
  (f0_mean f = Some NaN /\ f0_mean g <> None)
  \/ (f0_mean g = Some NaN /\ f0_mean f <> None) ->
  similarity_body f g = Some (Fin 1).
Proof.
  intros Hc Hd [[Hf Hg] | [Hg Hf]].
  - unfold similarity_body, dict_item. rewrite Hf, Hc, Hd.
    destruct (f0_mean g) as [b |]; [| contradiction]. cbn [bind].
    rewrite closeness_undefined. cbn [fadd fdiv]. now rewrite clamp_unit_nan.
  - rewrite similarity_body_comm.
    unfold similarity_body, dict_item. rewrite Hg, Hc, Hd.
    destruct (f0_mean f) as [b |]; [| contradiction]. cbn [bind].
    rewrite closeness_undefined. cbn [fadd fdiv]. now rewrite clamp_unit_nan.
Qed.

Section SimilarityWithoutPitch.

Context {L : Lib}.

(** X11.  When both extractions succeed and the mean pitch of one of the
    two recordings is undefined (the tracker found no pitch in it), the
    similarity score is 1, however different the recordings are. *)
Theorem undefined_pitch_scores_one :
  forall (w : World) (cloned reference : path)
         (rf cf : Features) (ra ca : waveform) (rsr csr : Z),
    extract_voice_features_body w reference = Some (rf, ra, rsr) ->
    extract_voice_features_body w cloned = Some (cf, ca, csr) ->
    f0_mean rf = Some NaN \/ f0_mean cf = Some NaN ->
    fst (get_voice_similarity_score w cloned reference) = Fin 1.
Proof.
  intros w cloned reference rf cf ra ca rsr csr Hr Hc Hnan.
  rewrite similarity_score_value, Hr, Hc.
  destruct (extraction_result_complete _ _ _ _ _ Hr) as (_ & (rv & Hrv) & (rc & Hrc)).
  destruct (extraction_result_complete _ _ _ _ _ Hc) as (_ & (cv & Hcv) & (cc & Hcc)).
  rewrite (similarity_body_undefined_pitch rf cf rc cc Hrc Hcc); [reflexivity |].
  destruct Hnan as [H | H]; [left | right]; split; try exact H; congruence.
Qed.

End SimilarityWithoutPitch.

(** ** What feature extraction returns *)

Section Extraction.

Context {L : Lib}.

(** Extraction succeeds when the file decodes and the five analyses do:
    the division by the sample rate never raises. *)
Lemma extraction_runs (w : World) (p : path) (data : string) (a : waveform)
  (f0 : array) (vf : list bool) (cents roll zcr : array) (mfccs : matrix) :
  files w p = Some data -> librosa_decode data = Some a ->
  librosa_pyin a = Some (f0, vf) ->
  librosa_spectral_centroid a SR = Some cents ->
  librosa_spectral_rolloff a SR = Some roll ->
  librosa_zero_crossing_rate a = Some zcr ->
  librosa_mfcc a SR 13 = Some mfccs ->
  extract_voice_features_body w p =
    Some (mkFeatures (Some (np_nanmean f0)) (Some (np_nanstd f0))
                     (Some (np_mean cents)) (Some (np_mean roll))
                     (Some (np_mean zcr)) (Some (map np_mean mfccs))
                     (Some (estimate_formants a SR 4))
                     (Some (Fin (INR (length a) / 22050)))
                     (Some (np_mean (np_square a))),
          a, SR).
Proof.
  intros Hf Hd Hp Hc Hr Hz Hm.
  unfold extract_voice_features_body, librosa_load.
  rewrite Hf. cbn [bind]. rewrite Hd. cbn [bind].
  rewrite Hp. cbn [bind]. rewrite Hc. cbn [bind]. rewrite Hr. cbn [bind].
  rewrite Hz. cbn [bind]. rewrite Hm. cbn [bind].
  unfold py_truediv, of_int, of_nat, SR. cbn [feqb].
  rewrite (Req_b_false 22050 0) by lra. cbn [bind].
  rewrite fdiv_Fin by lra. reflexivity.
Qed.

(** Every load is at the rate 22050. *)
Lemma load_rate (w : World) (p : path) (audio : waveform) (sr : Z) :
  librosa_load w p = Some (audio, sr) -> sr = SR.
Proof.
  unfold librosa_load. destruct (files w p) as [data |]; [| discriminate].
  cbn [bind]. destruct (librosa_decode data); [| discriminate].
  now intros [= _ <-].
Qed.

Lemma extraction_inversion (w : World) (p : path)
  (f : Features) (a : waveform) (sr : Z) :
  extract_voice_features_body w p = Some (f, a, sr) ->
  exists data f0 vf cents roll zcr mfccs,
    files w p = Some data /\ librosa_decode data = Some a
    /\ librosa_pyin a = Some (f0, vf)
    /\ librosa_spectral_centroid a SR = Some cents
    /\ librosa_spectral_rolloff a SR = Some roll
    /\ librosa_zero_crossing_rate a = Some zcr
    /\ librosa_mfcc a SR 13 = Some mfccs.
Proof.
  unfold extract_voice_features_body, librosa_load.
  destruct (files w p) as [data |]; [| discriminate]. cbn [bind].
  destruct (librosa_decode data) as [audio |] eqn:Hd; [| discriminate].
  cbn [bind].
  destruct (librosa_pyin audio) as [[f0 vf] |] eqn:Hp; [| discriminate].
  cbn [bind].
  destruct (librosa_spectral_centroid audio SR) as [cents |] eqn:Hc;
    [| discriminate]. cbn [bind].
  destruct (librosa_spectral_rolloff audio SR) as [roll |] eqn:Hr;
    [| discriminate]. cbn [bind].
  destruct (librosa_zero_crossing_rate audio) as [zcr |] eqn:Hz;
    [| discriminate]. cbn [bind].
  destruct (librosa_mfcc audio SR 13) as [mfccs |] eqn:Hm; [| discriminate].
  cbn [bind].
  destruct (py_truediv _ _); [| discriminate]. cbn [bind].
  intros [= <- <- <-]. exists data, f0, vf, cents, roll, zcr, mfccs. auto 10.
Qed.

Lemma estimate_formants_at_most (audio : waveform) (n : nat) :
  (4 <= n)%nat -> (length (estimate_formants audio SR n) <= n)%nat.
Proof.
  intros Hn. destruct (Nat.lt_ge_cases (length audio) 2) as [Hshort | Hlong].
  - rewrite estimate_formants_short by assumption. cbn. exact Hn.
  - rewrite estimate_formants_count by (assumption || discriminate).
    apply Nat.le_min_l.
Qed.

(** X12.  What a successful extraction returns: the sample rate is 22050,
    the waveform is the decoded file, the duration is the number of samples
    over 22050, there are at most four formants, and for a finite waveform
    that is not empty the energy is a finite number that is not
    negative. *)
Theorem extraction_postconditions :
  forall (w : World) (p : path) (f : Features) (a : waveform) (sr : Z),
    extract_voice_features_body w p = Some (f, a, sr) ->
    sr = 22050%Z
    /\ (exists data, files w p = Some data /\ librosa_decode data = Some a)
    /\ duration f = Some (Fin (INR (length a) / 22050))
    /\ (exists fs, formants f = Some fs /\ (length fs <= 4)%nat)
    /\ (all_finite a -> a <> [] ->
        exists v, energy f = Some (Fin v) /\ 0 <= v).
Proof.
  intros w p f a sr H.
  destruct (extraction_inversion w p f a sr H)
    as (data & f0 & vf & cents & roll & zcr & mfccs
        & Hf & Hd & Hp & Hc & Hr & Hz & Hm).
  rewrite (extraction_runs w p data a f0 vf cents roll zcr mfccs) in H
    by assumption.
  injection H as <- <-. cbn [duration formants energy].
  split; [reflexivity |]. split; [eauto |]. split; [reflexivity |]. split.
  - eexists. split; [reflexivity |]. now apply estimate_formants_at_most.
  - intros Hfin Hne. rewrite (mean_square_finite a Hfin Hne).
    eexists. split; [reflexivity |].
    apply Rmult_le_pos; [apply sum_squares_nonneg |].
    left. apply Rinv_0_lt_compat. apply lt_0_INR.
    destruct a; [contradiction | cbn; lia].
Qed.

End Extraction.

Lemma demo_reference_finite :
  all_finite (map demo_sample (list_ascii_of_string "reference")).
Proof.
  apply Forall_map, Forall_forall. intros c _. unfold demo_sample. eauto.
Qed.

(** The extraction of [reference.wav], nine samples. *)
Lemma extraction_postconditions_witness :
  exists (f : Features) (v : R),
    @extract_voice_features_body demo_lib demo_world reference_wav
      = Some (f, map demo_sample (list_ascii_of_string "reference"), SR)
    /\ duration f = Some (Fin (INR 9 / 22050))
    /\ energy f = Some (Fin v) /\ 0 <= v.
Proof.
  pose proof (@extraction_runs demo_lib demo_world reference_wav "reference"
                (map demo_sample (list_ascii_of_string "reference"))
                [Fin 120] [true] [Fin 1000] [Fin 3000] [Fin 0.1]
                (repeat [Fin 0] 13)
                eq_refl eq_refl eq_refl eq_refl eq_refl eq_refl eq_refl) as Hrun.
  destruct (@extraction_postconditions demo_lib demo_world reference_wav _ _ _ Hrun)
    as (_ & _ & Hdur & _ & Hen).
  destruct (Hen demo_reference_finite ltac:(discriminate)) as (v & Hv & Hpos).
  eexists. exists v. split; [exact Hrun |]. split; [exact Hdur |].
  split; [exact Hv | exact Hpos].
Defined.

(** Two different recordings, analysed with a tracker that finds no voiced
    frame. *)
Lemma undefined_pitch_scores_one_witness :
  fst (@get_voice_similarity_score unvoiced_lib two_voices_world voice_a voice_b)
  = Fin 1.
Proof.
  apply (@undefined_pitch_scores_one unvoiced_lib two_voices_world voice_a voice_b
           _ _ _ _ _ _
           (@extraction_runs unvoiced_lib two_voices_world voice_b "voice b"
              (map demo_sample (list_ascii_of_string "voice b"))
              [NaN] [false] [Fin 1000] [Fin 3000] [Fin 0.1] (repeat [Fin 0] 13)
              eq_refl eq_refl eq_refl eq_refl eq_refl eq_refl eq_refl)
           (@extraction_runs unvoiced_lib two_voices_world voice_a "voice a"
              (map demo_sample (list_ascii_of_string "voice a"))
              [NaN] [false] [Fin 1000] [Fin 3000] [Fin 0.1] (repeat [Fin 0] 13)
              eq_refl eq_refl eq_refl eq_refl eq_refl eq_refl eq_refl)).
  left. cbn [f0_mean]. f_equal. apply np_nanmean_undefined.
  repeat constructor.
Defined.

(** ** The quality score of the applications *)

Ltac split_tests :=
  repeat match goal with
         | |- context [if ?c then _ else _] => destruct c
         end.

Section QualityScore.

Context {L : Lib}.

Lemma duration_never_raises (n : nat) :
  py_truediv (of_nat n) (of_int SR) = Some (Fin (INR n / 22050)).
Proof.
  unfold py_truediv, of_int, of_nat, SR. cbn [feqb].
  rewrite (Req_b_false 22050 0) by lra. now rewrite fdiv_Fin by lra.
Qed.

(** X13.  [check_audio_quality] either fails, which happens exactly when
    the file cannot be loaded or the zero crossing rate raises, and then
    returns the score 0 with the one analysis error; or it returns a score
    and a list of issues with 25 points lost for each issue: the score is
    25, 50, 75 or 100, and the application offers to continue exactly when
    there are at most two issues. *)
Theorem quality_score_counts_issues :
  forall (w : World) (p : path),
    ((librosa_load w p = None
      \/ exists audio, librosa_load w p = Some (audio, SR)
                       /\ librosa_zero_crossing_rate audio = None)
     /\ check_audio_quality w p = (0%nat, [AnalysisError])
     /\ continue_offered (fst (check_audio_quality w p)) = false)
    \/
    ((exists audio zcr, librosa_load w p = Some (audio, SR)
                        /\ librosa_zero_crossing_rate audio = Some zcr)
     /\ (fst (check_audio_quality w p)
         + 25 * length (snd (check_audio_quality w p)) = 100)%nat
     /\ ~ In AnalysisError (snd (check_audio_quality w p))
     /\ (continue_offered (fst (check_audio_quality w p)) = true
         <-> (length (snd (check_audio_quality w p)) <= 2)%nat)).
Proof.
  intros w p. unfold check_audio_quality, check_audio_quality_body.
  destruct (librosa_load w p) as [[audio sr] |] eqn:Hload.
  2: { left. cbn. auto. }
  pose proof (load_rate _ _ _ _ Hload) as ->.
  cbn [bind]. rewrite duration_never_raises. cbn [bind].
  destruct (librosa_zero_crossing_rate audio) as [zcr |] eqn:Hz.
  2: { left. cbn. split; [right; eauto | auto]. }
  right. split; [eauto |]. cbn [bind].
  split_tests; cbn; (split; [reflexivity |]);
    (split; [intros H; repeat destruct H as [H | H]; discriminate || exact H |]);
    split; intros H; try reflexivity; try lia; try discriminate.
Qed.

(** X14.  The platform's [check_audio_quality] has four tests and no base
    score: when it does not fail it returns the four measurements and a
    score with 25 points lost for each issue, so that four issues give the
    score 0; when it fails it returns 0, the one analysis error and no
    measurement. *)
Theorem platform_quality_score_counts_issues :
  forall (w : World) (p : path),
    (platform_check_audio_quality_body w p = None
     /\ platform_check_audio_quality w p = (0%nat, [AnalysisError], None))
    \/
    (exists (score : nat) (issues : list quality_issue)
            (audio : waveform) (zcr cents : array),
        librosa_load w p = Some (audio, SR)
        /\ librosa_zero_crossing_rate audio = Some zcr
        /\ librosa_spectral_centroid audio SR = Some cents
        /\ platform_check_audio_quality w p =
             (score, issues,
              Some (Fin (INR (length audio) / 22050),
                    fsqrt (np_mean (np_square audio)),
                    np_mean zcr, np_mean cents))
        /\ (score + 25 * length issues = 100)%nat
        /\ ~ In AnalysisError issues).
Proof.
  intros w p. unfold platform_check_audio_quality, platform_check_audio_quality_body.
  destruct (librosa_load w p) as [[audio sr] |] eqn:Hload.
  2: { left. cbn. auto. }
  pose proof (load_rate _ _ _ _ Hload) as ->.
  cbn [bind]. rewrite duration_never_raises. cbn [bind].
  destruct (librosa_zero_crossing_rate audio) as [zcr |] eqn:Hz.
  2: { left. cbn. auto. }
  cbn [bind].
  destruct (librosa_spectral_centroid audio SR) as [cents |] eqn:Hc.
  2: { left. cbn. auto. }
  right. cbn [bind].
  split_tests; cbn [try_except app Nat.add];
    do 2 eexists; exists audio, zcr, cents;
    (split; [reflexivity || exact Hload |]); (split; [exact Hz |]);
    (split; [exact Hc |]);
    (split; [reflexivity |]); (split; [reflexivity |]);
    intros H; cbn in H; repeat destruct H as [H | H]; discriminate || exact H.
Qed.

(** X15.  For one file the platform's score is never above the score of
    the simple application. *)
Theorem platform_score_not_above :
  forall (w : World) (p : path),
    (fst (fst (platform_check_audio_quality w p))
     <= fst (check_audio_quality w p))%nat.
Proof.
  intros w p.
  unfold platform_check_audio_quality, platform_check_audio_quality_body,
    check_audio_quality, check_audio_quality_body.
  destruct (librosa_load w p) as [[audio sr] |]; [| cbn; lia].
  cbn [bind].
  destruct (py_truediv (of_nat (length audio)) (of_int sr)) as [duration |];
    [| cbn; lia].
  cbn [bind].
  destruct (librosa_zero_crossing_rate audio) as [zcr |]; [| cbn; lia].
  cbn [bind].
  destruct (librosa_spectral_centroid audio sr) as [cents |].
  - cbn [bind]. split_tests; cbn; lia.
  - cbn [bind]. split_tests; cbn; lia.
Qed.

End QualityScore.

(** A file that does not exist. *)
Lemma quality_score_counts_issues_witness :
  @check_audio_quality demo_lib demo_world (UserPath "missing.wav")
  = (0%nat, [AnalysisError]).
Proof.
  destruct (@quality_score_counts_issues demo_lib demo_world
              (UserPath "missing.wav")) as [(_ & H & _) | ((a & z & H & _) & _)].
  - exact H.
  - discriminate H.
Defined.

Lemma platform_quality_score_counts_issues_witness :
  @platform_check_audio_quality demo_lib demo_world (UserPath "missing.wav")
  = (0%nat, [AnalysisError], None).
Proof.
  destruct (@platform_quality_score_counts_issues demo_lib demo_world
              (UserPath "missing.wav"))
    as [(_ & H) | (s & i & a & z & c & H & _)].
  - exact H.
  - discriminate H.
Defined.

(** ** Blocked words *)

Lemma starts_with_spec (prefix s : string) :
  starts_with prefix s = true <-> exists rest, s = String.append prefix rest.
Proof.
  revert s. induction prefix as [| a prefix IH]; intros s.
  - cbn. split; [intros _; now exists s | reflexivity].
  - destruct s as [| b s]; cbn [starts_with String.append].
    + split; [discriminate | intros (rest & H); discriminate].
    + rewrite andb_true_iff, Ascii.eqb_eq, IH. split.
      * intros (-> & rest & ->). now exists rest.
      * intros (rest & [= -> ->]). eauto.
Qed.

(** [needle in hay] holds exactly when [hay] is [needle] between two
    strings. *)
Lemma contains_spec (needle hay : string) :
  contains needle hay = true
  <-> exists before rest,
        hay = String.append before (String.append needle rest).
Proof.
  induction hay as [| c hay IH]; cbn [contains]; rewrite orb_true_iff.
  - rewrite starts_with_spec. split.
    + intros [(rest & H) | H]; [| discriminate]. now exists EmptyString, rest.
    + intros ([| b before] & rest & H); [left; now exists rest | discriminate].
  - rewrite starts_with_spec, IH. split.
    + intros [(rest & ->) | (before & rest & ->)].
      * now exists EmptyString, rest.
      * now exists (String c before), rest.
    + intros ([| b before] & rest & H).
      * left. now exists rest.
      * right. cbn [String.append] in H. injection H as -> ->. eauto.
Qed.

Lemma py_lower_char_idempotent (c : ascii) :
  py_lower_char (py_lower_char c) = py_lower_char c.
Proof. destruct c as [[] [] [] [] [] [] [] []]; reflexivity. Qed.

Lemma py_lower_idempotent (s : string) : py_lower (py_lower s) = py_lower s.
Proof.
  induction s as [| c s IH]; [reflexivity |].
  cbn [py_lower]. now rewrite py_lower_char_idempotent, IH.
Qed.

Lemma py_lower_append (s t : string) :
  py_lower (String.append s t) = String.append (py_lower s) (py_lower t).
Proof.
  induction s as [| c s IH]; [reflexivity |].
  cbn [py_lower String.append]. now rewrite IH.
Qed.

Lemma append_assoc (s t u : string) :
  String.append (String.append s t) u = String.append s (String.append t u).
Proof.
  induction s as [| c s IH]; [reflexivity |].
  cbn [String.append]. now rewrite IH.
Qed.

Lemma blocked_words_distinct : NoDup BLOCKED_WORDS.
Proof.
  unfold BLOCKED_WORDS.
  repeat (apply NoDup_cons;
          [intros H; cbn in H; repeat destruct H as [H | H]; discriminate || exact H |]).
  apply NoDup_nil.
Qed.

(** X16.  [check_profanity] reports a word exactly when it is a blocked
    word that occurs somewhere in the lower-cased text, inside a longer
    word or not; it reports no word twice. *)
Theorem check_profanity_finds_substrings :
  forall (text word : string),
    (In word (check_profanity text)
     <-> In word BLOCKED_WORDS
         /\ exists before rest,
              py_lower text = String.append before (String.append word rest))
    /\ NoDup (check_profanity text).
Proof.
  intros text word. unfold check_profanity. split.
  - rewrite filter_In, contains_spec. reflexivity.
  - apply NoDup_filter, blocked_words_distinct.
Qed.

(** The word "lie" inside "Believe". *)
Lemma check_profanity_finds_substrings_witness :
  In "lie"%string (check_profanity "I Believe").
Proof.
  apply (proj1 (check_profanity_finds_substrings "I Believe" "lie")).
  split.
  - unfold BLOCKED_WORDS. cbn. auto 10.
  - exists "i be"%string, "ve"%string. reflexivity.
Defined.

(** X17.  [check_profanity] does not depend on the case of the letters,
    and text added before or after never removes a reported word. *)
Theorem check_profanity_case_and_context :
  forall (text before rest : string),
    check_profanity (py_lower text) = check_profanity text
    /\ incl (check_profanity text)
            (check_profanity (String.append before (String.append text rest))).
Proof.
  intros text before rest. split.
  - unfold check_profanity. now rewrite py_lower_idempotent.
  - intros word. unfold check_profanity. rewrite !filter_In, !contains_spec.
    intros (Hin & b & r & H). split; [exact Hin |].
    exists (String.append (py_lower before) b),
           (String.append r (py_lower rest)).
    rewrite !py_lower_append, H, !append_assoc. reflexivity.
Qed.

(** ** The watermark *)

Lemma watermark_sample_bound (a x : R) :
  Rabs (a + 0.001 * sin x - a) <= 0.001.
Proof.
  replace (a + 0.001 * sin x - a) with (0.001 * sin x) by ring.
  pose proof (SIN_bound x) as [Hl Hu].
  apply Rabs_le. lra.
Qed.

Lemma add_tone_bounded (audio : waveform) (k : nat) (s : R) :
  all_finite audio ->
  Forall2 (fun x y => exists a b, x = Fin a /\ y = Fin b /\ Rabs (b - a) <= 0.001)
    audio
    (add_arrays audio
       (map (fun ti => fmul (Fin 0.001) (fsin (fmul (Fin (2 * PI * 18000)) ti)))
          (map (fun i => fadd (fmul (of_nat i) (Fin s)) (Fin 0))
               (seq k (length audio))))).
Proof.
  intros Hfin. revert k.
  induction Hfin as [| x audio (a & ->) _ IH]; intros k;
    cbn [length seq map add_arrays]; constructor.
  - unfold of_nat. cbn [fmul fadd fsin]. do 2 eexists.
    split; [reflexivity |]. split; [reflexivity |]. apply watermark_sample_bound.
  - apply IH.
Qed.

(** X18.  The watermarked signal has the length of the audio, and each of
    its samples differs from the sample of the audio by at most 0.001. *)
Theorem watermark_changes_little :
  forall (audio : waveform) (d : R),
    all_finite audio ->
    Forall2 (fun x y => exists a b, x = Fin a /\ y = Fin b /\ Rabs (b - a) <= 0.001)
            audio (watermarked audio (Fin d))
    /\ length (watermarked audio (Fin d)) = length audio.
Proof.
  intros audio d Hfin.
  assert (H : Forall2 (fun x y => exists a b, x = Fin a /\ y = Fin b
                                              /\ Rabs (b - a) <= 0.001)
                audio (watermarked audio (Fin d))).
  { unfold watermarked, watermark_signal, np_linspace.
    destruct audio as [| x audio]; [constructor |].
    unfold fsub, of_nat. cbn [fneg fadd].
    rewrite fdiv_Fin by (apply INR_nonzero; discriminate).
    now apply add_tone_bounded. }
  split; [exact H |]. symmetry. exact (Forall2_length H).
Qed.

Lemma watermark_changes_little_witness :
  length (watermarked [Fin 0.5; Fin (- (0.5))] (Fin 1)) = 2%nat.
Proof.
  apply (watermark_changes_little [Fin 0.5; Fin (- (0.5))] 1).
  repeat constructor; eexists; reflexivity.
Defined.

(** X19.  At the sample rate 22050 the samples of the watermark tone of
    18000 Hz are those of a tone of 4050 Hz with the opposite sign: the
    tone lies above half the sample rate. *)
Theorem watermark_tone_aliases :
  forall n : nat,
    n <> 0%nat ->
    watermark_signal (Fin (INR n / 22050)) n =
      map (fun i => Fin (- (0.001 * sin (2 * PI * 4050 * (INR i / 22050)))))
          (seq 0 n).
Proof.
  intros n Hn. unfold watermark_signal, np_linspace. rewrite map_map.
  apply map_ext. intros i.
  assert (Hn' : INR n <> 0) by now apply INR_nonzero.
  unfold fsub, of_nat. cbn [fneg fadd]. rewrite fdiv_Fin by assumption.
  cbn [fmul fadd fsin]. apply Fin_eq.
  replace (2 * PI * 18000 * (INR i * ((INR n / 22050 + - 0) / INR n) + 0))
    with (- (2 * PI * 4050 * (INR i / 22050)) + 2 * INR i * PI)
    by (field; assumption).
  rewrite sin_period, sin_neg. ring.
Qed.

Lemma watermark_tone_aliases_witness :
  watermark_signal (Fin (INR 2 / 22050)) 2 =
    [Fin (- (0.001 * sin (2 * PI * 4050 * (INR 0 / 22050))));
     Fin (- (0.001 * sin (2 * PI * 4050 * (INR 1 / 22050))))].
Proof.
  apply (watermark_tone_aliases 2). discriminate.
Defined.

Section Watermarking.

Context {L : Lib}.

Lemma add_watermark_frame (w : World) (p : path) (timestamp user_id : string) :
  forall q, older_path w q ->
            files (snd (add_watermark w p timestamp user_id)) q = files w q.
Proof.
  unfold add_watermark.
  destruct (librosa_load w p) as [[audio sr] |]; [| reflexivity].
  destruct (py_truediv _ _); [| reflexivity].
  cbn [named_temporary_file].
  destruct (sf_write _ sr); cbn -[Nat.eqb]; older_files.
Qed.

Lemma add_watermark_path (w : World) (p : path) (timestamp user_id : string) :
  fst (fst (add_watermark w p timestamp user_id)) = p
  \/ fst (fst (add_watermark w p timestamp user_id)) = TempPath (next_temp w).
Proof.
  unfold add_watermark.
  destruct (librosa_load w p) as [[audio sr] |]; [| now left].
  destruct (py_truediv _ _); [| now left].
  cbn [named_temporary_file].
  destruct (sf_write _ sr); [now right | now left].
Qed.

(** X20.  [add_watermark] leaves the caller's files and the older
    temporary files as they are.  When loading fails it returns the path
    it was given and makes no file; when the write succeeds it returns a
    new temporary file that holds the written data, and a text that begins
    with CLONED_; when the write fails it returns the path it was given,
    the text WATERMARK_FAILED, and leaves the new temporary file behind. *)
Theorem add_watermark_outcome :
  forall (w : World) (p : path) (timestamp user_id : string),
    (forall q, older_path w q ->
               files (snd (add_watermark w p timestamp user_id)) q = files w q)
    /\ (librosa_load w p = None ->
        add_watermark w p timestamp user_id = (p, "WATERMARK_FAILED"%string, w))
    /\ (forall (audio : waveform) (sr : Z),
           librosa_load w p = Some (audio, sr) ->
           sr = 22050%Z
           /\ (forall data,
                  sf_write (watermarked audio (Fin (INR (length audio) / 22050))) sr
                    = Written data ->
                  fst (add_watermark w p timestamp user_id) =
                    (TempPath (next_temp w),
                     String.append "CLONED_"
                       (String.append timestamp (String.append "_" user_id)))
                  /\ files (snd (add_watermark w p timestamp user_id))
                           (TempPath (next_temp w)) = Some data)
           /\ (forall partial,
                  sf_write (watermarked audio (Fin (INR (length audio) / 22050))) sr
                    = WriteFailed partial ->
                  fst (add_watermark w p timestamp user_id) =
                    (p, "WATERMARK_FAILED"%string)
                  /\ files (snd (add_watermark w p timestamp user_id))
                           (TempPath (next_temp w)) = Some partial
                  /\ next_temp (snd (add_watermark w p timestamp user_id)) =
                       S (next_temp w))).
Proof.
  intros w p timestamp user_id.
  split; [apply add_watermark_frame |]. unfold add_watermark.
  destruct (librosa_load w p) as [[audio sr] |] eqn:Hload.
  2: { split; [reflexivity |]. intros a s H. discriminate. }
  apply load_rate in Hload as ->.
  rewrite duration_never_raises. cbn [named_temporary_file].
  split; [intros H; discriminate |].
  intros a s [= <- <-]. split; [reflexivity |]. split.
  - intros data ->. cbn -[Nat.eqb]. now rewrite Nat.eqb_refl.
  - intros partial ->. cbn -[Nat.eqb]. now rewrite Nat.eqb_refl.
Qed.

(** X21.  When cloning followed by watermarking keeps a path, the file
    that [clone_voice] wrote, without watermark, is still there: it is
    either the path kept itself (the watermark failed) or a file beside
    the watermarked one. *)
Theorem unmarked_clone_stays :
  forall (e : Engine) (w : World) (text : string) (sample : path)
         (timestamp user_id : string) (kept : path),
    fst (fst (clone_and_watermark e w text sample timestamp user_id)) = Some kept ->
    exists data,
      files (snd (clone_voice e w text sample)) (TempPath (S (next_temp w)))
        = Some data
      /\ files (snd (clone_and_watermark e w text sample timestamp user_id))
               (TempPath (S (next_temp w))) = Some data
      /\ (kept = TempPath (S (next_temp w))
          \/ kept = TempPath (S (S (next_temp w)))).
Proof.
  intros e w text sample timestamp user_id kept. unfold clone_and_watermark.
  pose proof (clone_voice_output e w text sample) as Hout.
  destruct (clone_voice e w text sample) as [[[cloned |] e1] w1];
    cbn [fst snd] in *; [| discriminate].
  destruct (Hout cloned eq_refl) as (-> & Hnext & _ & data & Hdata).
  pose proof (add_watermark_frame w1 (TempPath (S (next_temp w))) timestamp
                user_id (TempPath (S (next_temp w)))) as Hold.
  pose proof (add_watermark_path w1 (TempPath (S (next_temp w))) timestamp
                user_id) as Hpath.
  destruct (add_watermark w1 (TempPath (S (next_temp w))) timestamp user_id)
    as [[wp tag] w2].
  cbn [fst snd] in *. intros [= <-].
  exists data. split; [exact Hdata |]. split.
  - rewrite Hold; [exact Hdata | cbn; lia].
  - destruct Hpath as [-> | ->]; [now left |].
    right. f_equal. lia.
Qed.

(** Whenever [clone_voice] returns a path, a path is kept. *)
Lemma clone_and_watermark_keeps (e e1 : Engine) (w w1 : World)
  (text : string) (sample out : path) (timestamp user_id : string) :
  clone_voice e w text sample = (Some out, e1, w1) ->
  exists kept,
    fst (fst (clone_and_watermark e w text sample timestamp user_id)) = Some kept.
Proof.
  intros H. unfold clone_and_watermark. rewrite H.
  destruct (add_watermark w1 out timestamp user_id) as [[wp tag] w2].
  now exists wp.
Qed.

End Watermarking.

(** The watermark of [reference.wav]. *)
Lemma add_watermark_outcome_witness :
  files (snd (@add_watermark demo_lib demo_world reference_wav
                "2024-01-01T00:00:00" "anonymous")) reference_wav
  = files demo_world reference_wav.
Proof.
  apply (proj1 (@add_watermark_outcome demo_lib demo_world reference_wav
                  "2024-01-01T00:00:00" "anonymous")).
  exact I.
Defined.

(** A fresh engine clones from [reference.wav] and watermarks the clone. *)
Lemma unmarked_clone_stays_witness :
  exists data,
    files (snd (@clone_and_watermark demo_lib demo_engine_fresh demo_world
                  "hello" reference_wav "2024-01-01T00:00:00" "anonymous"))
          (TempPath 1) = Some data.
Proof.
  destruct (demo_clone_loads demo_engine_fresh demo_world reference_wav
              "reference" eq_refl eq_refl eq_refl ltac:(discriminate))
    as (out & e1 & w1 & Hclone & _).
  destruct (@clone_and_watermark_keeps demo_lib _ _ _ _ _ _ _
              "2024-01-01T00:00:00" "anonymous" Hclone) as (kept & Hkept).
  destruct (@unmarked_clone_stays demo_lib _ _ _ _ _ _ kept Hkept)
    as (data & _ & H & _).
  exists data. exact H.
Defined.

(** ** Where the estimated formants lie *)

Lemma plateau_end_bounds (x : array) (i_max : nat) (v : fnum) (fuel i : nat) :
  (i <= plateau_end x i_max v i fuel)%nat
  /\ ((i <= i_max)%nat -> (plateau_end x i_max v i fuel <= i_max)%nat).
Proof.
  revert i. induction fuel as [| fuel IH]; intros i; cbn [plateau_end].
  - split; [apply Nat.le_refl | auto].
  - destruct (i <? i_max)%nat eqn:Hlt; cbn [andb];
      [destruct (feqb (nth i x NaN) v) |]; try (split; [apply Nat.le_refl | auto]).
    apply Nat.ltb_lt in Hlt. destruct (IH (S i)) as (Hlow & Hup).
    split; [lia | intros _; apply Hup; lia].
Qed.

(** A local maximum is never the first or the last sample. *)
Lemma local_maxima_from_range (x : array) (i_max fuel i : nat) :
  (1 <= i)%nat ->
  Forall (fun p => (1 <= p < i_max)%nat) (local_maxima_from x i_max i fuel).
Proof.
  revert i. induction fuel as [| fuel IH]; intros i Hi; cbn [local_maxima_from].
  - apply Forall_nil.
  - destruct (i <? i_max)%nat eqn:Hlt; [| apply Forall_nil].
    apply Nat.ltb_lt in Hlt.
    destruct (fltb (nth (i - 1) x NaN) (nth i x NaN)); [| apply IH; lia].
    destruct (plateau_end_bounds x i_max (nth i x NaN) (length x) (S i))
      as (Hlow & Hup).
    specialize (Hup ltac:(lia)).
    set (i_ahead := plateau_end x i_max (nth i x NaN) (S i) (length x)) in *.
    destruct (fltb (nth i_ahead x NaN) (nth i x NaN)); [| apply IH; lia].
    apply Forall_cons; [| apply IH; lia]. split.
    + apply Nat.div_le_lower_bound; lia.
    + apply Nat.Div0.div_lt_upper_bound. lia.
Qed.

Lemma find_peaks_range (x : array) (height : fnum) :
  Forall (fun p => (1 <= p < length x - 1)%nat) (find_peaks x height).
Proof.
  unfold find_peaks, local_maxima_1d. apply Forall_forall. intros p Hp.
  apply filter_In in Hp as [Hp _].
  pose proof (local_maxima_from_range x (length x - 1) (length x) 1
                (Nat.le_refl 1)) as H.
  rewrite Forall_forall in H. now apply H.
Qed.

Lemma insert_by_range (key : nat -> fnum) (n i : nat) (l : list nat) :
  (i < n)%nat -> Forall (fun j => (j < n)%nat) l ->
  Forall (fun j => (j < n)%nat) (insert_by key i l).
Proof.
  intros Hi Hl. induction Hl as [| j l Hj Hl IH]; cbn [insert_by].
  - now apply Forall_cons.
  - destruct (sort_le (key j) (key i)); repeat apply Forall_cons; auto.
Qed.

Lemma fold_insert_by_range (key : nat -> fnum) (n : nat) (todo acc : list nat) :
  Forall (fun j => (j < n)%nat) todo -> Forall (fun j => (j < n)%nat) acc ->
  Forall (fun j => (j < n)%nat)
         (fold_left (fun acc i => insert_by key i acc) todo acc).
Proof.
  intros Htodo. revert acc.
  induction Htodo as [| i todo Hi _ IH]; intros acc Hacc; cbn [fold_left].
  - exact Hacc.
  - apply IH. now apply insert_by_range.
Qed.

(** The indices that [np.argsort] returns are indices of its argument. *)
Lemma np_argsort_range (a : array) :
  Forall (fun j => (j < length a)%nat) (np_argsort a).
Proof.
  unfold np_argsort. apply fold_insert_by_range; [| apply Forall_nil].
  apply Forall_forall. intros j Hj. apply in_seq in Hj. lia.
Qed.

Lemma insert_sorted_In (x y : fnum) (l : array) :
  In y (insert_sorted x l) -> y = x \/ In y l.
Proof.
  induction l as [| z l IH]; cbn [insert_sorted].
  - intros [<- | []]. now left.
  - destruct (fltb x z).
    + intros [<- | H]; [now left | now right].
    + intros [<- | H]; [right; now left |].
      destruct (IH H) as [-> | H']; [now left | right; now right].
Qed.

Lemma py_sorted_In (a : array) (y : fnum) : In y (py_sorted a) -> In y a.
Proof.
  unfold py_sorted.
  assert (H : forall acc, In y (fold_left (fun acc x => insert_sorted x acc) a acc)
                          -> In y a \/ In y acc).
  { induction a as [| x a IH]; intros acc; cbn [fold_left].
    - now right.
    - intros Hin. destruct (IH _ Hin) as [H | H]; [left; now right |].
      destruct (insert_sorted_In x y acc H) as [-> | H']; [left; now left | now right]. }
  intros Hin. destruct (H [] Hin) as [H' | []]. exact H'.
Qed.

Lemma ascending_cons (x : fnum) (l : array) :
  ascending (x :: l) <->
  match l with [] => True | y :: _ => fleb x y = true end /\ ascending l.
Proof. reflexivity. Qed.

Lemma insert_sorted_head (x : fnum) (l : array) :
  exists rest, insert_sorted x l = x :: rest
               \/ exists y l', l = y :: l' /\ insert_sorted x l = y :: rest.
Proof.
  destruct l as [| y l']; cbn [insert_sorted].
  - exists []. now left.
  - destruct (fltb x y); eexists; [now left | right; eauto].
Qed.

(** Inserting a finite value into an ascending list of finite values
    keeps it ascending. *)
Lemma insert_sorted_ascending (x : R) (l : array) :
  all_finite l -> ascending l -> ascending (insert_sorted (Fin x) l).
Proof.
  intros Hfin. induction Hfin as [| y l (r & ->) Hfin IH]; intros Hasc.
  - cbn. auto.
  - cbn [insert_sorted fltb]. destruct (Rlt_dec x r) as [Hlt | Hge].
    + rewrite (Rlt_b_true x r Hlt). apply ascending_cons. split; [| exact Hasc].
      cbn [fleb]. apply Rle_b_true. lra.
    + rewrite (Rlt_b_false x r Hge).
      apply ascending_cons in Hasc as [Hhead Htail].
      apply ascending_cons. split; [| now apply IH].
      destruct l as [| z l']; cbn [insert_sorted].
      * cbn [fleb]. apply Rle_b_true. lra.
      * destruct (fltb (Fin x) z); [| exact Hhead].
        cbn [fleb]. apply Rle_b_true. lra.
Qed.

Lemma insert_sorted_finite (x : R) (l : array) :
  all_finite l -> all_finite (insert_sorted (Fin x) l).
Proof.
  intros Hfin. apply Forall_forall. intros y Hy.
  destruct (insert_sorted_In _ _ _ Hy) as [-> | H]; [eauto |].
  unfold all_finite in Hfin. rewrite Forall_forall in Hfin. now apply Hfin.
Qed.

(** [sorted] puts a list of finite values in ascending order. *)
Lemma py_sorted_ascending (a : array) :
  all_finite a -> ascending (py_sorted a).
Proof.
  unfold py_sorted. intros Hfin.
  assert (H : forall acc, all_finite acc -> ascending acc ->
                          ascending (fold_left (fun acc x => insert_sorted x acc) a acc)).
  { induction Hfin as [| x a (r & ->) _ IH]; intros acc Hacc Hasc; cbn [fold_left].
    - exact Hasc.
    - apply IH; [now apply insert_sorted_finite | now apply insert_sorted_ascending]. }
  apply H; [apply Forall_nil | exact I].
Qed.

Lemma take_indices_In (a : array) (idx : list nat) (y : fnum) :
  In y (take_indices a idx) -> exists i, In i idx /\ y = nth i a NaN.
Proof.
  unfold take_indices. intros H. apply in_map_iff in H as (i & <- & Hi). eauto.
Qed.

Lemma nth_take_indices (a : array) (idx : list nat) (j : nat) :
  (j < length idx)%nat ->
  exists i, In i idx /\ nth j (take_indices a idx) NaN = nth i a NaN.
Proof.
  intros Hj. apply take_indices_In. apply nth_In.
  unfold take_indices. now rewrite length_map.
Qed.

(** The first half of the bins of [fftfreq]. *)
Lemma positive_freqs_nth (audio : waveform) (sr : Z) (k : nat) :
  (k < length audio / 2)%nat ->
  nth k (positive_freqs_of audio sr) NaN
  = Fin (INR k * (1 / (INR (length audio) * (1 / IZR sr)))).
Proof.
  intros Hk. unfold positive_freqs_of. set (n := length audio) in *.
  assert (Hhalf : (n / 2 <= (n - 1) / 2 + 1)%nat).
  { destruct n as [| n]; [cbn; lia |].
    replace (S n - 1)%nat with n by lia.
    pose proof (Nat.div_mod_eq (S n) 2) as H1.
    pose proof (Nat.div_mod_eq n 2) as H2.
    pose proof (Nat.mod_upper_bound (S n) 2 ltac:(lia)) as H3.
    pose proof (Nat.mod_upper_bound n 2 ltac:(lia)) as H4. lia. }
  rewrite nth_firstn. rewrite (proj2 (Nat.ltb_lt _ _) Hk).
  rewrite map_app, app_nth1 by (rewrite !length_map, length_seq; lia).
  rewrite map_map.
  rewrite (nth_indep _ NaN (fmul (of_nat 0) (Fin (1 / (INR n * (1 / IZR sr))))))
    by (rewrite length_map, length_seq; lia).
  rewrite (map_nth (fun j => fmul (of_nat j) (Fin (1 / (INR n * (1 / IZR sr)))))).
  rewrite seq_nth by lia. reflexivity.
Qed.

(** With at least two samples and a sample rate that is not zero the body
    returns the chosen frequencies, sorted. *)
Lemma estimate_formants_body_value (audio : waveform) (sr : Z) (n_formants : nat) :
  (2 <= length audio)%nat -> sr <> 0%Z ->
  estimate_formants_body audio sr n_formants =
    Some (py_sorted (chosen_formants audio sr n_formants)).
Proof.
  intros Hlen Hsr. unfold estimate_formants_body, chosen_formants, positive_freqs_of.
  assert (Hr : IZR sr <> 0) by now apply IZR_nonzero.
  assert (Hn : INR (length audio) <> 0) by (apply INR_nonzero; lia).
  unfold py_truediv at 1. unfold of_int. cbn [feqb]. rewrite (Req_b_false _ _ Hr).
  cbn [bind]. rewrite fdiv_Fin by assumption.
  unfold np_fftfreq, py_truediv, of_nat at 1. cbn [fmul feqb].
  assert (Hprod : INR (length audio) * (1 / IZR sr) <> 0).
  { apply Rmult_integral_contrapositive_currified; [assumption |].
    unfold Rdiv. rewrite Rmult_1_l. now apply Rinv_neq_0_compat. }
  rewrite (Req_b_false _ _ Hprod). cbn [bind].
  change (fmul (of_nat (length audio)) (Fin (1 / IZR sr)))
    with (Fin (INR (length audio) * (1 / IZR sr))).
  rewrite fdiv_Fin by assumption.
  unfold np_fft. destruct audio as [| x audio']; [cbn in Hlen; lia |].
  set (audio := x :: audio') in *. cbn [bind].
  rewrite !length_map, length_app, !length_map, !length_seq.
  fold (positive_power_of audio).
  assert (Hpp : length (positive_power_of audio) = (length audio / 2)%nat).
  { unfold positive_power_of. rewrite length_firstn, !length_map, length_seq.
    apply Nat.min_l. apply Nat.Div0.div_le_upper_bound. lia. }
  assert (Hsum : ((length audio - 1) / 2 + 1 + length audio / 2 = length audio)%nat).
  { pose proof (Nat.div_mod_eq (length audio) 2) as H1.
    pose proof (Nat.div_mod_eq (length audio - 1) 2) as H2.
    pose proof (Nat.mod_upper_bound (length audio) 2 ltac:(lia)) as H3.
    pose proof (Nat.mod_upper_bound (length audio - 1) 2 ltac:(lia)) as H4.
    lia. }
  rewrite Hsum.
  unfold qualifying_peaks.
  destruct (positive_power_of audio) as [| p rest] eqn:Epp.
  - cbn [length] in Hpp. symmetry in Hpp.
    apply Nat.div_small_iff in Hpp; lia.
  - cbn [np_max bind]. reflexivity.
Qed.

Lemma qualifying_peaks_range (audio : waveform) :
  (2 <= length audio)%nat ->
  Forall (fun p => (1 <= p < length audio / 2)%nat) (qualifying_peaks audio).
Proof.
  intros Hlen.
  assert (Hpp : length (positive_power_of audio) = (length audio / 2)%nat).
  { unfold positive_power_of. rewrite length_firstn, !length_map, length_seq.
    apply Nat.min_l. apply Nat.Div0.div_le_upper_bound. lia. }
  unfold qualifying_peaks.
  destruct (np_max (positive_power_of audio)); [| apply Forall_nil].
  apply Forall_impl with (2 := find_peaks_range _ _).
  intros p Hp. rewrite Hpp in Hp. lia.
Qed.

Lemma bin_frequencies_In (n k : nat) (sr : Z) :
  (k < n / 2)%nat ->
  In (Fin (INR k * (1 / (INR n * (1 / IZR sr))))) (bin_frequencies n sr).
Proof.
  intros Hk. unfold bin_frequencies.
  apply (in_map (fun k => Fin (INR k * (1 / (INR n * (1 / IZR sr)))))).
  apply in_seq. lia.
Qed.

Lemma In_firstn {A : Type} (n : nat) (l : list A) (x : A) :
  In x (firstn n l) -> In x l.
Proof.
  revert l. induction n as [| n IH]; intros [| y l]; cbn [firstn];
    try contradiction.
  intros [<- | H]; [now left | right; now apply IH].
Qed.

(** Every chosen frequency is that of a bin that is neither the first nor
    beyond the first half. *)
Lemma chosen_formants_bins (audio : waveform) (sr : Z) (n_formants : nat) :
  (2 <= length audio)%nat ->
  Forall (fun x => exists k, (1 <= k < length audio / 2)%nat
                             /\ x = Fin (INR k * (1 / (INR (length audio)
                                                       * (1 / IZR sr)))))
         (chosen_formants audio sr n_formants).
Proof.
  intros Hlen. unfold chosen_formants. apply Forall_forall. intros x Hx.
  apply take_indices_In in Hx as (j & Hj & ->).
  apply In_firstn in Hj. apply in_rev in Hj.
  pose proof (np_argsort_range (take_indices (positive_power_of audio)
                                             (qualifying_peaks audio))) as Hrange.
  rewrite Forall_forall in Hrange. specialize (Hrange j Hj).
  unfold take_indices in Hrange at 1. rewrite length_map in Hrange.
  destruct (nth_take_indices (positive_freqs_of audio sr)
              (qualifying_peaks audio) j Hrange) as (k & Hk & ->).
  pose proof (qualifying_peaks_range audio Hlen) as Hpeaks.
  rewrite Forall_forall in Hpeaks. specialize (Hpeaks k Hk).
  exists k. split; [exact Hpeaks |].
  apply positive_freqs_nth. lia.
Qed.

(** X22.  For a waveform of at least two samples and a positive sample
    rate, the formants that [estimate_formants] returns are in ascending
    order, each is the frequency of a bin of the transform, and each lies
    strictly between 0 and half the sample rate. *)
Theorem formants_ascending_in_band :
  forall (audio : waveform) (sr : Z) (n_formants : nat),
    (2 <= length audio)%nat -> (0 < sr)%Z ->
    ascending (estimate_formants audio sr n_formants)
    /\ Forall (fun x => In x (bin_frequencies (length audio) sr)
                        /\ exists f, x = Fin f /\ 0 < f < IZR sr / 2)
              (estimate_formants audio sr n_formants).
Proof.
  intros audio sr n_formants Hlen Hsr.
  assert (Hsr' : sr <> 0%Z) by lia.
  pose proof (chosen_formants_bins audio sr n_formants Hlen) as Hbins.
  unfold estimate_formants.
  rewrite (estimate_formants_body_value audio sr n_formants Hlen Hsr').
  cbn [try_except]. split.
  - apply py_sorted_ascending.
    apply Forall_impl with (2 := Hbins). intros x (k & _ & ->). eauto.
  - rewrite Forall_forall in Hbins. apply Forall_forall. intros x Hx.
    apply py_sorted_In in Hx. destruct (Hbins x Hx) as (k & Hk & ->). split.
    + apply bin_frequencies_In. lia.
    + eexists. split; [reflexivity |].
      assert (Hr : 0 < IZR sr) by now apply IZR_lt.
      assert (Hn : 0 < INR (length audio)) by (apply lt_0_INR; lia).
      assert (Hk1 : 1 <= INR k) by (replace 1 with (INR 1) by reflexivity;
                                    apply le_INR; lia).
      assert (Hk2 : 2 * INR k < INR (length audio)).
      { replace 2 with (INR 2) by (cbn; lra). rewrite <- mult_INR.
        apply lt_INR.
        pose proof (Nat.div_mod_eq (length audio) 2). lia. }
      replace (1 / (INR (length audio) * (1 / IZR sr)))
        with (IZR sr / INR (length audio)) by (field; lra).
      assert (Hq : 0 < IZR sr / INR (length audio))
        by now apply Rdiv_lt_0_compat.
      split; [nra |].
      apply Rmult_lt_reg_r with (INR (length audio)); [assumption |].
      unfold Rdiv. rewrite !Rmult_assoc, Rinv_l by lra. nra.
Qed.

(** Eight samples of a wave with a period of four samples. *)
Lemma formants_ascending_in_band_witness :
  ascending (estimate_formants
               [Fin 0; Fin 1; Fin 0; Fin (-1); Fin 0; Fin 1; Fin 0; Fin (-1)]
               SR 4).
Proof.
  apply (formants_ascending_in_band
           [Fin 0; Fin 1; Fin 0; Fin (-1); Fin 0; Fin 1; Fin 0; Fin (-1)] SR 4).
  - cbn. lia.
  - reflexivity.
Defined.

(** ** Base synthesis and the transformation around the stages *)

Section BaseSynthesis.

Context {L : Lib}.

(** X23.  When the speech engine raises or leaves its file empty, base
    synthesis returns no path, and the temporary file that it made is
    still there, empty; a warning is shown only when the engine raised.
    [clone_voice] then returns no path either and leaves that file. *)
Theorem failed_base_synthesis_leaves_file :
  forall (e : Engine) (w : World) (text : string),
    pyttsx3_engine e = true ->
    pyttsx3_render text = None \/ pyttsx3_render text = Some EmptyString ->
    fst (synthesize_base_speech e w text) = None
    /\ files (snd (synthesize_base_speech e w text)) (TempPath (next_temp w))
       = Some EmptyString
    /\ next_temp (snd (synthesize_base_speech e w text)) = S (next_temp w)
    /\ (pyttsx3_render text = Some EmptyString ->
        ui (snd (synthesize_base_speech e w text)) = ui w)
    /\ (forall p : path,
           fst (fst (clone_voice e w text p)) = None
           /\ (str_truthy (strip text) = true ->
               features_truthy (reference_features e) = true ->
               last_reference_path e = Some p ->
               files (snd (clone_voice e w text p)) (TempPath (next_temp w))
               = Some EmptyString)).
Proof.
  intros e w text Htts Hrender.
  assert (Hbase : fst (synthesize_base_speech e w text) = None
                  /\ files (snd (synthesize_base_speech e w text))
                           (TempPath (next_temp w)) = Some EmptyString
                  /\ next_temp (snd (synthesize_base_speech e w text))
                     = S (next_temp w)
                  /\ (pyttsx3_render text = Some EmptyString ->
                      ui (snd (synthesize_base_speech e w text)) = ui w)).
  { unfold synthesize_base_speech. rewrite Htts. cbn [negb named_temporary_file].
    destruct Hrender as [-> | ->].
    - cbn -[Nat.eqb]. rewrite Nat.eqb_refl. repeat split. intros H. discriminate.
    - unfold exists_nonempty, write_file. cbn -[Nat.eqb]. rewrite Nat.eqb_refl.
      cbn -[Nat.eqb]. rewrite Nat.eqb_refl. repeat split. }
  destruct Hbase as (Hnone & Hfile & Hnext & Hui).
  split; [exact Hnone |]. split; [exact Hfile |]. split; [exact Hnext |].
  split; [exact Hui |]. intros p.
  assert (Hsyn : forall e' w', pyttsx3_engine e' = true ->
                   synthesize_and_transform e' w' text =
                     (None, e',
                      show (UiError "Failed to generate base speech")
                           (snd (synthesize_base_speech e' w' text)))
                   /\ files (snd (synthesize_base_speech e' w' text))
                            (TempPath (next_temp w')) = Some EmptyString).
  { intros e' w' Htts'. unfold synthesize_and_transform, synthesize_base_speech.
    rewrite Htts'. cbn [negb named_temporary_file].
    destruct Hrender as [-> | ->].
    - cbn -[Nat.eqb]. now rewrite Nat.eqb_refl.
    - unfold exists_nonempty, write_file. cbn -[Nat.eqb]. rewrite Nat.eqb_refl.
      cbn -[Nat.eqb]. now rewrite Nat.eqb_refl. }
  split.
  - unfold clone_voice.
    destruct (negb (str_truthy (strip text))); [reflexivity |].
    destruct (negb (features_truthy (reference_features e))
              || negb (same_path p (last_reference_path e))).
    + destruct (load_reference_voice_world e w p) as (_ & _ & Ht).
      destruct (load_reference_voice e w p) as [[[|] e1] w1]; [| reflexivity].
      cbn [fst snd] in Ht.
      destruct (Hsyn (set_last_reference_path e1 p)
                     (show (UiSuccess "Reference voice analyzed!") w1)) as (-> & _);
        [cbn; congruence | reflexivity].
    + destruct (Hsyn e w Htts) as (-> & _). reflexivity.
  - intros Htext Hfeat Hpath. unfold clone_voice. rewrite Htext, Hfeat, Hpath.
    cbn [negb features_truthy same_path orb]. rewrite path_eqb_refl. cbn [negb].
    destruct (Hsyn e w Htts) as (-> & Hleft). exact Hleft.
Qed.

(** X24.  [apply_voice_transformation] returns audio exactly when the base
    file can be loaded, and then at the rate 22050 and without a warning.
    When the load raises, the handler's second load of the same file
    raises as well: the fallback never yields audio. *)
Theorem transformation_fallback_never_loads :
  forall (w : World) (p : path) (tf : option Features),
    (forall (audio : waveform) (sr : Z),
        librosa_load w p = Some (audio, sr) ->
        apply_voice_transformation w p tf =
          (Some (transformation_cascade audio 22050 tf, 22050%Z), w))
    /\ (librosa_load w p = None ->
        apply_voice_transformation w p tf =
          (None, show (UiWarning "Voice transformation failed") w)).
Proof.
  intros w p tf. unfold apply_voice_transformation. split.
  - intros audio sr H. rewrite H. now rewrite (load_rate _ _ _ _ H).
  - intros H. rewrite H. unfold librosa_load in *. cbn [show files].
    now rewrite H.
Qed.

(** X25.  A [clone_voice] that has to load the reference and on which
    every step succeeds transforms the base speech towards the features
    just extracted, caches them under the path given, returns the second
    new temporary file with the written data in it, removes the base
    file, runs one extraction and shows the two success messages. *)
Theorem clone_voice_uses_new_reference :
  forall (e : Engine) (w : World) (text : string) (p : path)
         (f : Features) (a : waveform) (sr : Z)
         (data out : string) (audio : waveform),
    str_truthy (strip text) = true ->
    negb (features_truthy (reference_features e))
    || negb (same_path p (last_reference_path e)) = true ->
    extract_voice_features_body w p = Some (f, a, sr) ->
    pyttsx3_engine e = true ->
    pyttsx3_render text = Some data -> data <> EmptyString ->
    librosa_decode data = Some audio ->
    sf_write (transformation_cascade audio SR (Some f)) SR = Written out ->
    fst (clone_voice e w text p) =
      (Some (TempPath (S (next_temp w))),
       mkEngine (Some f) (Some a) (Some sr) true (Some p))
    /\ files (snd (clone_voice e w text p)) (TempPath (S (next_temp w))) = Some out
    /\ files (snd (clone_voice e w text p)) (TempPath (next_temp w)) = None
    /\ extract_calls (snd (clone_voice e w text p)) = p :: extract_calls w
    /\ ui (snd (clone_voice e w text p)) =
         UiSuccess "Advanced voice cloning completed!"
           :: UiSuccess "Reference voice analyzed!" :: ui w.
Proof.
  intros e w text p f a sr data out audio Htext Hmiss Hx Htts Hrender Hdata
         Hdec Hwrite.
  unfold clone_voice. rewrite Htext, Hmiss. cbn [negb].
  rewrite (load_reference_voice_success e w p f a sr Hx).
  rewrite (synthesize_and_transform_written _ _ text data out audio);
    try assumption; try (cbn; assumption).
  unfold set_last_reference_path. cbn -[Nat.eqb]. rewrite Htts.
  split; [reflexivity |]. rewrite !Nat.eqb_refl.
  rewrite (proj2 (Nat.eqb_neq _ _)) by lia.
  repeat split.
Qed.

End BaseSynthesis.

Lemma failed_base_synthesis_leaves_file_witness :
  fst (@synthesize_base_speech silent_speech_lib demo_engine_cached demo_world
         "hello") = None
  /\ fst (@synthesize_base_speech broken_speech_lib demo_engine_cached demo_world
            "hello") = None.
Proof.
  split.
  - apply (@failed_base_synthesis_leaves_file silent_speech_lib demo_engine_cached
             demo_world "hello" eq_refl).
    right. reflexivity.
  - apply (@failed_base_synthesis_leaves_file broken_speech_lib demo_engine_cached
             demo_world "hello" eq_refl).
    left. reflexivity.
Defined.

Lemma transformation_fallback_never_loads_witness :
  @apply_voice_transformation demo_lib demo_world (UserPath "missing.wav")
    (Some demo_features_150)
  = (None, show (UiWarning "Voice transformation failed") demo_world).
Proof.
  apply (proj2 (@transformation_fallback_never_loads demo_lib demo_world
                  (UserPath "missing.wav") (Some demo_features_150))).
  reflexivity.
Defined.

(** A fresh engine clones from [reference.wav]. *)
Lemma clone_voice_uses_new_reference_witness :
  exists f a,
    fst (@clone_voice demo_lib demo_engine_fresh demo_world "hello" reference_wav)
    = (Some (TempPath 1), mkEngine (Some f) (Some a) (Some SR) true
                                   (Some reference_wav)).
Proof.
  destruct (@demo_extraction_succeeds (fun _ _ => Written "RIFFWAVE")
              demo_world reference_wav "reference" eq_refl
              ltac:(discriminate)) as (f & a & Hx).
  exists f, a.
  apply (@clone_voice_uses_new_reference demo_lib demo_engine_fresh demo_world
           "hello" reference_wav f a SR "RIFFhello" "RIFFWAVE"
           (map demo_sample (list_ascii_of_string "RIFFhello"))
           eq_refl eq_refl Hx eq_refl eq_refl ltac:(discriminate) eq_refl eq_refl).
Defined.

(** ** Noise removal *)

Lemma fold_fadd_nonneg (l : array) (acc : R) :
  Forall (fun x => exists a, x = Fin a /\ 0 <= a) l ->
  exists s, fold_left fadd l (Fin acc) = Fin (acc + s) /\ 0 <= s.
Proof.
  intros H. revert acc.
  induction H as [| x l (a & -> & Ha) _ IH]; intros acc; cbn [fold_left fadd].
  - exists 0. split; [apply Fin_eq; ring | lra].
  - destruct (IH (acc + a)) as (s & -> & Hs). exists (a + s).
    split; [apply Fin_eq; ring | lra].
Qed.

(** The mean of magnitudes, at least one, is finite and not negative. *)
Lemma np_mean_nonneg (l : array) :
  Forall (fun x => exists a, x = Fin a /\ 0 <= a) l -> l <> [] ->
  exists v, np_mean l = Fin v /\ 0 <= v.
Proof.
  intros H Hne. unfold np_mean, np_sum, of_nat.
  destruct (fold_fadd_nonneg l 0 H) as (s & -> & Hs).
  assert (Hn : 0 < INR (length l)).
  { apply lt_0_INR. destruct l; [contradiction | cbn; lia]. }
  rewrite fdiv_Fin by lra. eexists. split; [reflexivity |].
  apply Rmult_le_pos; [lra |]. left. now apply Rinv_0_lt_compat.
Qed.

Lemma subtract_noise_bounds (row : array) (v : R) :
  Forall (fun x => exists a, x = Fin a /\ 0 <= a) row -> 0 <= v ->
  Forall2 (fun x y => exists a b, x = Fin a /\ y = Fin b /\ 0.1 * a <= b <= a)
          row (subtract_noise row (Fin v)).
Proof.
  intros Hrow Hv. unfold subtract_noise.
  induction Hrow as [| x row (a & -> & Ha) _ IH]; cbn [map]; constructor;
    [| exact IH].
  unfold np_maximum. cbn [fmul fsub fneg fadd isnan fltb].
  destruct (Rlt_dec (a + - (2 * v)) (0.1 * a)) as [Hlt | Hge].
  - rewrite (Rlt_b_true _ _ Hlt). do 2 eexists.
    split; [reflexivity |]. split; [reflexivity |]. lra.
  - rewrite (Rlt_b_false _ _ Hge). do 2 eexists.
    split; [reflexivity |]. split; [reflexivity |]. lra.
Qed.

Lemma firstn_nonempty {A : Type} (n : nat) (l : list A) :
  (1 <= n)%nat -> l <> [] -> firstn n l <> [].
Proof.
  intros Hn Hl. destruct n; [lia |]. destruct l; [contradiction | discriminate].
Qed.

Lemma Forall_firstn_magnitude (n : nat) (row : array) :
  Forall (fun x => exists a, x = Fin a /\ 0 <= a) row ->
  Forall (fun x => exists a, x = Fin a /\ 0 <= a) (firstn n row).
Proof.
  intros H. apply Forall_forall. intros x Hx. apply In_firstn in Hx.
  rewrite Forall_forall in H. now apply H.
Qed.

(** The gate lowers no magnitude below a tenth of it and raises none. *)
Lemma spectral_gate_bounds (noise_frames : nat) (m : matrix) :
  (1 <= noise_frames)%nat -> magnitudes m -> Forall (fun row => row <> []) m ->
  entrywise (fun a b => 0.1 * a <= b <= a) m (spectral_gate noise_frames m).
Proof.
  intros Hn Hm Hrows. unfold entrywise, spectral_gate, magnitudes in *.
  induction Hm as [| row m Hrow _ IH]; cbn [map]; constructor.
  - inversion Hrows as [| ? ? Hne _]; subst.
    destruct (np_mean_nonneg (firstn noise_frames row)) as (v & -> & Hv).
    + now apply Forall_firstn_magnitude.
    + now apply firstn_nonempty.
    + now apply subtract_noise_bounds.
  - apply IH. now inversion Hrows.
Qed.

Lemma py_int_positive (r : R) (z : Z) :
  IZR z <= r < IZR z + 1 -> 0 <= r -> py_int (Fin r) = Some z.
Proof.
  intros Hz Hr. cbn [py_int]. rewrite Rlt_b_false by lra. f_equal.
  symmetry. apply Int_part_spec. lra.
Qed.

(** At the rate 22050 the noise floor is taken from 21 frames. *)
Lemma noise_frames_at_rate :
  py_int (fdiv (fmul (Fin 0.5) (of_int SR)) (Fin 512)) = Some 21%Z.
Proof.
  unfold of_int, SR. cbn [fmul]. rewrite fdiv_Fin by lra.
  apply py_int_positive; lra.
Qed.

Section NoiseRemovalFacts.

Context {L : Lib}.

(** X26.  When the file loads and its transform has magnitudes that are
    finite and not negative in rows that are not empty, [remove_noise]
    resynthesises from magnitudes of which each is at most the original
    one and at least a tenth of it; the noise floor is the mean of the
    first 21 frames. *)
Theorem noise_gate_keeps_a_tenth :
  forall (w : World) (p : path) (audio : waveform) (sr : Z) (S : cmatrix),
    librosa_load w p = Some (audio, sr) ->
    librosa_stft audio N_FFT HOP_LENGTH = Some S ->
    magnitudes (magnitude_of S) ->
    Forall (fun row => row <> []) (magnitude_of S) ->
    entrywise (fun a b => 0.1 * a <= b <= a)
              (magnitude_of S) (spectral_gate 21 (magnitude_of S))
    /\ remove_noise_body w p =
         (cleaned_audio <-
            librosa_istft (from_polar (spectral_gate 21 (magnitude_of S))
                                      (phase_of S)) HOP_LENGTH ;;
          Some (cleaned_audio, 22050%Z)).
Proof.
  intros w p audio sr S Hload HS Hm Hrows. split.
  - apply spectral_gate_bounds; [lia | assumption | assumption].
  - unfold remove_noise_body. rewrite Hload. cbn [bind]. rewrite HS. cbn [bind].
    apply load_rate in Hload as ->. rewrite noise_frames_at_rate. reflexivity.
Qed.

(** X27.  [remove_noise] leaves the caller's files and the older temporary
    files as they are.  It returns the flag true exactly when it returns
    a new temporary file, which then holds the written data; otherwise it
    returns the path it was given and shows an error. *)
Theorem remove_noise_outcome :
  forall (w : World) (p : path),
    (forall q, older_path w q -> files (snd (remove_noise w p)) q = files w q)
    /\ ((snd (fst (remove_noise w p)) = true
         /\ fst (fst (remove_noise w p)) = TempPath (next_temp w)
         /\ (exists data,
                files (snd (remove_noise w p)) (TempPath (next_temp w)) = Some data)
         /\ ui (snd (remove_noise w p)) = ui w)
        \/ (snd (fst (remove_noise w p)) = false
            /\ fst (fst (remove_noise w p)) = p
            /\ ui (snd (remove_noise w p))
               = UiError "Noise removal failed" :: ui w)).
Proof.
  intros w p. unfold remove_noise.
  destruct (remove_noise_body w p) as [[cleaned sr] |].
  - cbn [named_temporary_file]. destruct (sf_write cleaned sr) as [data | partial].
    + split; [cbn -[Nat.eqb]; older_files |]. left. cbn -[Nat.eqb].
      rewrite Nat.eqb_refl. eauto 6.
    + split; [cbn -[Nat.eqb]; older_files |]. right. cbn. auto.
  - split; [reflexivity |]. right. cbn. auto.
Qed.

End NoiseRemovalFacts.

(** A file of one sample. *)
Lemma noise_gate_keeps_a_tenth_witness :
  entrywise (fun a b => 0.1 * a <= b <= a)
            [np_abs [demo_sample "A"]] (spectral_gate 21 [np_abs [demo_sample "A"]]).
Proof.
  apply (proj1 (@noise_gate_keeps_a_tenth demo_lib
                  (mkWorld (fun _ => Some "A"%string) 0 [] []) reference_wav
                  [demo_sample "A"] SR
                  ([np_abs [demo_sample "A"]], [map demo_phase [demo_sample "A"]])
                  eq_refl eq_refl
                  ltac:(repeat constructor; cbn [fabs demo_sample]; eexists;
                        split; [reflexivity | apply Rabs_pos])
                  ltac:(repeat constructor; discriminate))).
Defined.

Lemma remove_noise_outcome_witness :
  files (snd (@remove_noise demo_lib demo_world reference_wav)) reference_wav
  = files demo_world reference_wav.
Proof.
  apply (proj1 (@remove_noise_outcome demo_lib demo_world reference_wav)).
  exact I.
Defined.

(** ** The placeholder tone *)

Lemma placeholder_duration_range (text : string) :
  exists d, placeholder_duration text = Fin d /\ 0 <= d <= 10.
Proof.
  unfold placeholder_duration, py_min, of_nat. cbn [fmul fltb].
  assert (Hlen : 0 <= INR (String.length text)) by apply pos_INR.
  destruct (Rlt_dec 10 (INR (String.length text) * 0.1)) as [Hlt | Hge].
  - rewrite (Rlt_b_true _ _ Hlt). exists 10. split; [reflexivity | lra].
  - rewrite (Rlt_b_false _ _ Hge). eexists. split; [reflexivity | lra].
Qed.

Lemma Int_part_nonneg (r : R) : 0 <= r -> (0 <= Int_part r)%Z.
Proof.
  intros Hr. destruct (base_Int_part r) as [_ Hlow].
  apply Z.lt_succ_r. change (Z.succ (Int_part r)) with (Int_part r + 1)%Z.
  apply lt_IZR. rewrite plus_IZR. lra.
Qed.

Lemma Int_part_at_most (r : R) (z : Z) : r < IZR z + 1 -> (Int_part r <= z)%Z.
Proof.
  intros Hr. destruct (base_Int_part r) as [Hup _].
  apply Z.lt_succ_r. change (Z.succ z) with (z + 1)%Z.
  apply lt_IZR. rewrite plus_IZR. lra.
Qed.

(** [int] of a value of magnitude below [z + 1] has magnitude at most [z]. *)
Lemma py_int_magnitude (x : R) (z : Z) :
  Rabs x < IZR z + 1 ->
  exists i, py_int (Fin x) = Some i /\ (- z <= i <= z)%Z.
Proof.
  intros Hx. cbn [py_int]. eexists. split; [reflexivity |].
  destruct (Rlt_dec x 0) as [Hneg | Hpos].
  - rewrite (Rlt_b_true _ _ Hneg). rewrite Rabs_left in Hx by assumption.
    pose proof (Int_part_nonneg (- x) ltac:(lra)).
    pose proof (Int_part_at_most (- x) z Hx). lia.
  - rewrite (Rlt_b_false _ _ Hpos). rewrite Rabs_right in Hx by lra.
    pose proof (Int_part_nonneg x ltac:(lra)).
    pose proof (Int_part_at_most x z Hx). lia.
Qed.

Lemma wrap_int16_small (z : Z) :
  (-32768 <= z <= 32767)%Z -> wrap_int16 z = z.
Proof. intros H. unfold wrap_int16. rewrite Z.mod_small; lia. Qed.

Lemma tone_sample_bound (t x : R) :
  0 <= t -> Rabs (0.3 * sin x * exp (- t * 0.5) * 32767) < 9830 + 1.
Proof.
  intros Ht.
  destruct (exp_nonpositive (- t * 0.5) ltac:(lra)) as [He0 He1].
  pose proof (SIN_bound x) as [Hs0 Hs1].
  apply Rabs_def1; nra.
Qed.

(** Every sample of the tone is a 16-bit value of magnitude at most 9830,
    whatever the number of samples. *)
Lemma placeholder_tone_int16 (d : R) (num : nat) :
  0 <= d ->
  Forall (fun s => exists z, s = Some z /\ (-9830 <= z <= 9830)%Z)
         (map (fun x => astype_int16 (fmul x (Fin 32767)))
              (placeholder_tone (Fin d) num)).
Proof.
  intros Hd. unfold placeholder_tone, np_linspace. rewrite !map_map.
  apply Forall_forall. intros s Hs. apply in_map_iff in Hs as (i & <- & Hi).
  apply in_seq in Hi.
  assert (Hnum : INR num <> 0) by (apply INR_nonzero; lia).
  assert (Hpos : 0 < INR num) by (apply lt_0_INR; lia).
  unfold fsub, of_nat. cbn [fneg fadd]. rewrite fdiv_Fin by assumption.
  cbn [fmul fadd fneg fsin fexp].
  assert (Ht : 0 <= INR i * ((d + - 0) / INR num) + 0).
  { pose proof (pos_INR i).
    assert (0 <= (d + - 0) / INR num)
      by (apply Rmult_le_pos; [lra | left; now apply Rinv_0_lt_compat]).
    nra. }
  unfold astype_int16.
  destruct (py_int_magnitude _ 9830
              (tone_sample_bound _ (2 * PI * 440
                                    * (INR i * ((d + - 0) / INR num) + 0)) Ht))
    as (z & -> & Hz).
  exists z. split; [| exact Hz]. f_equal. apply wrap_int16_small. lia.
Qed.

(** X28.  For every text the placeholder has at most 220500 samples (ten
    seconds at 22050 Hz), and each sample converts to a 16-bit integer of
    magnitude at most 9830: the conversion never wraps around. *)
Theorem placeholder_fits_int16 :
  forall text : string,
    exists samples,
      placeholder_samples text = Some samples
      /\ (Z.of_nat (length samples) <= 220500)%Z
      /\ Forall (fun s => exists z, s = Some z /\ (-9830 <= z <= 9830)%Z) samples.
Proof.
  intros text. unfold placeholder_samples.
  destruct (placeholder_duration_range text) as (d & -> & Hd).
  unfold of_int. cbn [fmul py_int]. rewrite Rlt_b_false by lra. cbn [bind].
  eexists. split; [reflexivity |]. split.
  - unfold placeholder_tone, np_linspace. rewrite !length_map, length_seq.
    pose proof (Int_part_nonneg (22050 * d) ltac:(lra)).
    pose proof (Int_part_at_most (22050 * d) 220500 ltac:(lra)). lia.
  - apply placeholder_tone_int16. lra.
Qed.
